(** * RotorHazard hardware interface: a shallow embedding of [RHInterface.py]

    The module [src/interface/RHInterface.py] polls the timing nodes over
    I2C, decodes their lap-statistics frames and dispatches lap and crossing
    events.  The development below embeds its byte codec, its retrying bus
    transactor, the set-and-validate helpers and the poll cycle [update] as
    executable Rocq definitions, and then states the properties of the
    specification against them.

    Conventions of the embedding.
    - Python integers are [Z].  The program is Python 2 (it uses [print]
      statements), so [/] on two integers is floor division ([Z.div]).
    - A byte list returned by the bus is a [list Z].
    - [monotonic()] returns seconds as a float.  Host timestamps are modelled
      as exact rationals ([Q]); no property below depends on rounding.
    - [None] is modelled with [option].
    - The interface object, the bus, the clocks and the subscriber callbacks
      are effects.  They are threaded through a state-and-exception monad
      [IO]; the bus and the clocks are oracles indexed by the number of
      external calls made so far, and every bus operation, log line and
      callback invocation is appended to a trace.
    - Node objects are shared by reference between [self.nodes], [upd_list]
      and [cross_list]; a reference is modelled by the position of the node
      in [self.nodes]. *)

From Stdlib Require Import ZArith QArith Lia List Permutation Sorted.
From stdpp Require Import base list sorting.

Local Open Scope Z_scope.

(** ** Constants (lines 13-42) *)

Definition READ_ADDRESS : Z := 0x00.
Definition READ_FREQUENCY : Z := 0x03.
Definition READ_LAP_STATS : Z := 0x05.
Definition READ_REVISION_CODE : Z := 0x22.
Definition READ_NODE_RSSI_PEAK : Z := 0x23.
Definition READ_NODE_RSSI_NADIR : Z := 0x24.
Definition READ_ENTER_AT_LEVEL : Z := 0x31.
Definition READ_EXIT_AT_LEVEL : Z := 0x32.

Definition WRITE_ENTER_AT_LEVEL : Z := 0x71.
Definition WRITE_EXIT_AT_LEVEL : Z := 0x72.
Definition FORCE_END_CROSSING : Z := 0x78.

Definition I2C_RETRY_COUNT : Z := 5.

Definition MIN_RSSI_VALUE : Z := 1.
Definition MAX_RSSI_VALUE : Z := 999.
Definition CAP_ENTER_EXIT_AT_MILLIS : Z := 3000.
Definition ENTER_AT_PEAK_MARGIN : Z := 5.

Definition LAP_SOURCE_REALTIME : Z := 0.
Definition LAP_SOURCE_MANUAL : Z := 1.
Definition LAP_SOURCE_RECALC : Z := 2.

(** ** Exceptions and results *)

(** The Python exceptions that the embedded code can raise.  [IOError] is
    raised by the bus only, and caught by the transactor. *)
Inductive Exn : Type :=
  | TypeError
  | IndexError
  | UnboundLocalError
  | ZeroDivisionError.

Inductive Result (A : Type) : Type :=
  | Ok (a : A)
  | Raise (e : Exn).
Arguments Ok {A} a.
Arguments Raise {A} e.

(** ** Byte codec (lines 44-96) *)

Module Codec.

(** [data[k]], which raises [IndexError] out of range. *)
Definition item (data : list Z) (k : nat) : Result Z :=
  match data !! k with
  | Some b => Ok b
  | None => Raise IndexError
  end.

Definition unpack_8 (data : list Z) : Result Z := item data 0.

Definition pack_8 (data : Z) : list Z := [data].

Definition unpack_16 (data : list Z) : Result Z :=
  match item data 0 with
  | Raise e => Raise e
  | Ok d0 =>
      match item data 1 with
      | Raise e => Raise e
      | Ok d1 => Ok (Z.lor (Z.shiftl d0 8) d1)
      end
  end.

Definition pack_16 (data : Z) : list Z :=
  [Z.shiftr data 8; Z.land data 0xFF].

Definition unpack_32 (data : list Z) : Result Z :=
  match item data 0, item data 1, item data 2, item data 3 with
  | Ok d0, Ok d1, Ok d2, Ok d3 =>
      Ok (Z.lor (Z.shiftl (Z.lor (Z.shiftl (Z.lor (Z.shiftl d0 8) d1) 8) d2) 8) d3)
  | Raise e, _, _, _ => Raise e
  | _, Raise e, _, _ => Raise e
  | _, _, Raise e, _ => Raise e
  | _, _, _, Raise e => Raise e
  end.

Definition pack_32 (data : Z) : list Z :=
  [Z.shiftr data 24; Z.land (Z.shiftr data 16) 0xFF;
   Z.land (Z.shiftr data 8) 0xFF; Z.land data 0xFF].

(** [sum(xs)] *)
Definition sum (xs : list Z) : Z := foldr Z.add 0 xs.

(** [data[:-1]] *)
Definition init (data : list Z) : list Z := take (length data - 1)%nat data.

(** [validate_checksum]: [data[-1]] raises [IndexError] on the empty list. *)
Definition validate_checksum (data : option (list Z)) : Result bool :=
  match data with
  | None => Ok false
  | Some data =>
      let checksum := Z.land (sum (init data)) 0xFF in
      match last data with
      | Some b => Ok (checksum =? b)
      | None => Raise IndexError
      end
  end.

Definition to_scaled_rssi (rssi : Z) : Z := Z.shiftr rssi 1.
Definition from_scaled_rssi (rssi : Z) : Z := Z.shiftl rssi 1.

End Codec.
Export Codec.

(** ** Nodes *)

(** Modelled from the spec: the class [Node] (module [Node.py]) is imported
    by the interface but is not among the sources.  The record has the
    attributes listed in the data model of the specification, under the names
    the interface uses for them.  [enter_at_level] and [exit_at_level] are
    optional because the interface can store [None] in them. *)
Record Node : Type := mkNode {
  index : Z;
  i2c_addr : Z;
  frequency : Z;
  api_level : Z;
  api_valid_flag : bool;
  current_rssi : Z;
  node_peak_rssi : Z;
  node_nadir_rssi : Z;
  pass_peak_rssi : Z;
  loop_time : Z;
  crossing_flag : bool;
  last_lap_id : Z;
  lap_ms_since_start : Z;
  enter_at_level : option Z;
  exit_at_level : option Z;
  cap_enter_at_flag : bool;
  cap_enter_at_total : Z;
  cap_enter_at_count : Z;
  cap_enter_at_millis : Z;
  cap_exit_at_flag : bool;
  cap_exit_at_total : Z;
  cap_exit_at_count : Z;
  cap_exit_at_millis : Z;
  history_values : list Z;
  history_times : list Q
}.


Definition with_current_rssi (v : Z) (n : Node) : Node :=
  mkNode (index n) (i2c_addr n) (frequency n) (api_level n) (api_valid_flag n) v
    (node_peak_rssi n) (node_nadir_rssi n) (pass_peak_rssi n) (loop_time n)
    (crossing_flag n) (last_lap_id n) (lap_ms_since_start n) (enter_at_level n)
    (exit_at_level n) (cap_enter_at_flag n) (cap_enter_at_total n) (cap_enter_at_count n)
    (cap_enter_at_millis n) (cap_exit_at_flag n) (cap_exit_at_total n) (cap_exit_at_count n)
    (cap_exit_at_millis n) (history_values n) (history_times n).

Definition with_node_peak_rssi (v : Z) (n : Node) : Node :=
  mkNode (index n) (i2c_addr n) (frequency n) (api_level n) (api_valid_flag n)
    (current_rssi n) v (node_nadir_rssi n) (pass_peak_rssi n) (loop_time n)
    (crossing_flag n) (last_lap_id n) (lap_ms_since_start n) (enter_at_level n)
    (exit_at_level n) (cap_enter_at_flag n) (cap_enter_at_total n) (cap_enter_at_count n)
    (cap_enter_at_millis n) (cap_exit_at_flag n) (cap_exit_at_total n) (cap_exit_at_count n)
    (cap_exit_at_millis n) (history_values n) (history_times n).

Definition with_node_nadir_rssi (v : Z) (n : Node) : Node :=
  mkNode (index n) (i2c_addr n) (frequency n) (api_level n) (api_valid_flag n)
    (current_rssi n) (node_peak_rssi n) v (pass_peak_rssi n) (loop_time n) (crossing_flag n)
    (last_lap_id n) (lap_ms_since_start n) (enter_at_level n) (exit_at_level n)
    (cap_enter_at_flag n) (cap_enter_at_total n) (cap_enter_at_count n)
    (cap_enter_at_millis n) (cap_exit_at_flag n) (cap_exit_at_total n) (cap_exit_at_count n)
    (cap_exit_at_millis n) (history_values n) (history_times n).

Definition with_pass_peak_rssi (v : Z) (n : Node) : Node :=
  mkNode (index n) (i2c_addr n) (frequency n) (api_level n) (api_valid_flag n)
    (current_rssi n) (node_peak_rssi n) (node_nadir_rssi n) v (loop_time n)
    (crossing_flag n) (last_lap_id n) (lap_ms_since_start n) (enter_at_level n)
    (exit_at_level n) (cap_enter_at_flag n) (cap_enter_at_total n) (cap_enter_at_count n)
    (cap_enter_at_millis n) (cap_exit_at_flag n) (cap_exit_at_total n) (cap_exit_at_count n)
    (cap_exit_at_millis n) (history_values n) (history_times n).

Definition with_loop_time (v : Z) (n : Node) : Node :=
  mkNode (index n) (i2c_addr n) (frequency n) (api_level n) (api_valid_flag n)
    (current_rssi n) (node_peak_rssi n) (node_nadir_rssi n) (pass_peak_rssi n) v
    (crossing_flag n) (last_lap_id n) (lap_ms_since_start n) (enter_at_level n)
    (exit_at_level n) (cap_enter_at_flag n) (cap_enter_at_total n) (cap_enter_at_count n)
    (cap_enter_at_millis n) (cap_exit_at_flag n) (cap_exit_at_total n) (cap_exit_at_count n)
    (cap_exit_at_millis n) (history_values n) (history_times n).

Definition with_crossing_flag (v : bool) (n : Node) : Node :=
  mkNode (index n) (i2c_addr n) (frequency n) (api_level n) (api_valid_flag n)
    (current_rssi n) (node_peak_rssi n) (node_nadir_rssi n) (pass_peak_rssi n) (loop_time n)
    v (last_lap_id n) (lap_ms_since_start n) (enter_at_level n) (exit_at_level n)
    (cap_enter_at_flag n) (cap_enter_at_total n) (cap_enter_at_count n)
    (cap_enter_at_millis n) (cap_exit_at_flag n) (cap_exit_at_total n) (cap_exit_at_count n)
    (cap_exit_at_millis n) (history_values n) (history_times n).

Definition with_last_lap_id (v : Z) (n : Node) : Node :=
  mkNode (index n) (i2c_addr n) (frequency n) (api_level n) (api_valid_flag n)
    (current_rssi n) (node_peak_rssi n) (node_nadir_rssi n) (pass_peak_rssi n) (loop_time n)
    (crossing_flag n) v (lap_ms_since_start n) (enter_at_level n) (exit_at_level n)
    (cap_enter_at_flag n) (cap_enter_at_total n) (cap_enter_at_count n)
    (cap_enter_at_millis n) (cap_exit_at_flag n) (cap_exit_at_total n) (cap_exit_at_count n)
    (cap_exit_at_millis n) (history_values n) (history_times n).

Definition with_lap_ms_since_start (v : Z) (n : Node) : Node :=
  mkNode (index n) (i2c_addr n) (frequency n) (api_level n) (api_valid_flag n)
    (current_rssi n) (node_peak_rssi n) (node_nadir_rssi n) (pass_peak_rssi n) (loop_time n)
    (crossing_flag n) (last_lap_id n) v (enter_at_level n) (exit_at_level n)
    (cap_enter_at_flag n) (cap_enter_at_total n) (cap_enter_at_count n)
    (cap_enter_at_millis n) (cap_exit_at_flag n) (cap_exit_at_total n) (cap_exit_at_count n)
    (cap_exit_at_millis n) (history_values n) (history_times n).

Definition with_enter_at_level (v : option Z) (n : Node) : Node :=
  mkNode (index n) (i2c_addr n) (frequency n) (api_level n) (api_valid_flag n)
    (current_rssi n) (node_peak_rssi n) (node_nadir_rssi n) (pass_peak_rssi n) (loop_time n)
    (crossing_flag n) (last_lap_id n) (lap_ms_since_start n) v (exit_at_level n)
    (cap_enter_at_flag n) (cap_enter_at_total n) (cap_enter_at_count n)
    (cap_enter_at_millis n) (cap_exit_at_flag n) (cap_exit_at_total n) (cap_exit_at_count n)
    (cap_exit_at_millis n) (history_values n) (history_times n).

Definition with_exit_at_level (v : option Z) (n : Node) : Node :=
  mkNode (index n) (i2c_addr n) (frequency n) (api_level n) (api_valid_flag n)
    (current_rssi n) (node_peak_rssi n) (node_nadir_rssi n) (pass_peak_rssi n) (loop_time n)
    (crossing_flag n) (last_lap_id n) (lap_ms_since_start n) (enter_at_level n) v
    (cap_enter_at_flag n) (cap_enter_at_total n) (cap_enter_at_count n)
    (cap_enter_at_millis n) (cap_exit_at_flag n) (cap_exit_at_total n) (cap_exit_at_count n)
    (cap_exit_at_millis n) (history_values n) (history_times n).

Definition with_cap_enter_at_flag (v : bool) (n : Node) : Node :=
  mkNode (index n) (i2c_addr n) (frequency n) (api_level n) (api_valid_flag n)
    (current_rssi n) (node_peak_rssi n) (node_nadir_rssi n) (pass_peak_rssi n) (loop_time n)
    (crossing_flag n) (last_lap_id n) (lap_ms_since_start n) (enter_at_level n)
    (exit_at_level n) v (cap_enter_at_total n) (cap_enter_at_count n)
    (cap_enter_at_millis n) (cap_exit_at_flag n) (cap_exit_at_total n) (cap_exit_at_count n)
    (cap_exit_at_millis n) (history_values n) (history_times n).

Definition with_cap_enter_at_total (v : Z) (n : Node) : Node :=
  mkNode (index n) (i2c_addr n) (frequency n) (api_level n) (api_valid_flag n)
    (current_rssi n) (node_peak_rssi n) (node_nadir_rssi n) (pass_peak_rssi n) (loop_time n)
    (crossing_flag n) (last_lap_id n) (lap_ms_since_start n) (enter_at_level n)
    (exit_at_level n) (cap_enter_at_flag n) v (cap_enter_at_count n) (cap_enter_at_millis n)
    (cap_exit_at_flag n) (cap_exit_at_total n) (cap_exit_at_count n) (cap_exit_at_millis n)
    (history_values n) (history_times n).

Definition with_cap_enter_at_count (v : Z) (n : Node) : Node :=
  mkNode (index n) (i2c_addr n) (frequency n) (api_level n) (api_valid_flag n)
    (current_rssi n) (node_peak_rssi n) (node_nadir_rssi n) (pass_peak_rssi n) (loop_time n)
    (crossing_flag n) (last_lap_id n) (lap_ms_since_start n) (enter_at_level n)
    (exit_at_level n) (cap_enter_at_flag n) (cap_enter_at_total n) v (cap_enter_at_millis n)
    (cap_exit_at_flag n) (cap_exit_at_total n) (cap_exit_at_count n) (cap_exit_at_millis n)
    (history_values n) (history_times n).

Definition with_cap_enter_at_millis (v : Z) (n : Node) : Node :=
  mkNode (index n) (i2c_addr n) (frequency n) (api_level n) (api_valid_flag n)
    (current_rssi n) (node_peak_rssi n) (node_nadir_rssi n) (pass_peak_rssi n) (loop_time n)
    (crossing_flag n) (last_lap_id n) (lap_ms_since_start n) (enter_at_level n)
    (exit_at_level n) (cap_enter_at_flag n) (cap_enter_at_total n) (cap_enter_at_count n) v
    (cap_exit_at_flag n) (cap_exit_at_total n) (cap_exit_at_count n) (cap_exit_at_millis n)
    (history_values n) (history_times n).

Definition with_cap_exit_at_flag (v : bool) (n : Node) : Node :=
  mkNode (index n) (i2c_addr n) (frequency n) (api_level n) (api_valid_flag n)
    (current_rssi n) (node_peak_rssi n) (node_nadir_rssi n) (pass_peak_rssi n) (loop_time n)
    (crossing_flag n) (last_lap_id n) (lap_ms_since_start n) (enter_at_level n)
    (exit_at_level n) (cap_enter_at_flag n) (cap_enter_at_total n) (cap_enter_at_count n)
    (cap_enter_at_millis n) v (cap_exit_at_total n) (cap_exit_at_count n)
    (cap_exit_at_millis n) (history_values n) (history_times n).

Definition with_cap_exit_at_total (v : Z) (n : Node) : Node :=
  mkNode (index n) (i2c_addr n) (frequency n) (api_level n) (api_valid_flag n)
    (current_rssi n) (node_peak_rssi n) (node_nadir_rssi n) (pass_peak_rssi n) (loop_time n)
    (crossing_flag n) (last_lap_id n) (lap_ms_since_start n) (enter_at_level n)
    (exit_at_level n) (cap_enter_at_flag n) (cap_enter_at_total n) (cap_enter_at_count n)
    (cap_enter_at_millis n) (cap_exit_at_flag n) v (cap_exit_at_count n)
    (cap_exit_at_millis n) (history_values n) (history_times n).

Definition with_cap_exit_at_count (v : Z) (n : Node) : Node :=
  mkNode (index n) (i2c_addr n) (frequency n) (api_level n) (api_valid_flag n)
    (current_rssi n) (node_peak_rssi n) (node_nadir_rssi n) (pass_peak_rssi n) (loop_time n)
    (crossing_flag n) (last_lap_id n) (lap_ms_since_start n) (enter_at_level n)
    (exit_at_level n) (cap_enter_at_flag n) (cap_enter_at_total n) (cap_enter_at_count n)
    (cap_enter_at_millis n) (cap_exit_at_flag n) (cap_exit_at_total n) v
    (cap_exit_at_millis n) (history_values n) (history_times n).

Definition with_cap_exit_at_millis (v : Z) (n : Node) : Node :=
  mkNode (index n) (i2c_addr n) (frequency n) (api_level n) (api_valid_flag n)
    (current_rssi n) (node_peak_rssi n) (node_nadir_rssi n) (pass_peak_rssi n) (loop_time n)
    (crossing_flag n) (last_lap_id n) (lap_ms_since_start n) (enter_at_level n)
    (exit_at_level n) (cap_enter_at_flag n) (cap_enter_at_total n) (cap_enter_at_count n)
    (cap_enter_at_millis n) (cap_exit_at_flag n) (cap_exit_at_total n) (cap_exit_at_count n)
    v (history_values n) (history_times n).

Definition with_history_values (v : list Z) (n : Node) : Node :=
  mkNode (index n) (i2c_addr n) (frequency n) (api_level n) (api_valid_flag n)
    (current_rssi n) (node_peak_rssi n) (node_nadir_rssi n) (pass_peak_rssi n) (loop_time n)
    (crossing_flag n) (last_lap_id n) (lap_ms_since_start n) (enter_at_level n)
    (exit_at_level n) (cap_enter_at_flag n) (cap_enter_at_total n) (cap_enter_at_count n)
    (cap_enter_at_millis n) (cap_exit_at_flag n) (cap_exit_at_total n) (cap_exit_at_count n)
    (cap_exit_at_millis n) v (history_times n).

Definition with_history_times (v : list Q) (n : Node) : Node :=
  mkNode (index n) (i2c_addr n) (frequency n) (api_level n) (api_valid_flag n)
    (current_rssi n) (node_peak_rssi n) (node_nadir_rssi n) (pass_peak_rssi n) (loop_time n)
    (crossing_flag n) (last_lap_id n) (lap_ms_since_start n) (enter_at_level n)
    (exit_at_level n) (cap_enter_at_flag n) (cap_enter_at_total n) (cap_enter_at_count n)
    (cap_enter_at_millis n) (cap_exit_at_flag n) (cap_exit_at_total n) (cap_exit_at_count n)
    (cap_exit_at_millis n) (history_values n) v.

(** ** Subscribers, trace and interface state *)

(** The text of a hardware log line, by the place that writes it. *)
Inductive LogMsg : Type :=
  | ReadError
  | RetryChecksumRead (addr offs size retry ts : Z)
  | RetryChecksumLimitRead (addr offs size retry ts : Z)
  | RetryIOErrorRead (addr offs size retry ts : Z)
  | RetryIOErrorLimitRead (addr offs size retry ts : Z)
  | WriteError
  | RetryIOErrorWrite (addr offs : Z) (data : list Z) (retry ts : Z)
  | RetryIOErrorLimitWrite (addr offs : Z) (data : list Z) (retry ts : Z)
  | ValueNotSet (retry write_command in_value : Z) (node : nat)
  | RssiOutOfRange (rssi_val node_number : Z).

(** What the interface does to the outside world, in the order it does it:
    bus transfers and the four subscriber callbacks.  A node argument is the
    position of the node in [self.nodes]. *)
Inductive Event : Type :=
  | BusRead (addr cmd len : Z)
  | BusWrite (addr cmd : Z) (data : list Z)
  | HardwareLog (msg : LogMsg)
  | PassRecord (node : nat) (lap_time_ms : Q) (lap_source : Z)
  | NewEnterOrExitAt (node : nat) (is_enter : bool)
  | NodeCrossing (node : nat).

(** The attributes of the [RHInterface] object.  A callback attribute holds
    whether [callable(...)] is true of it.  [ticks] counts the external calls
    made so far (it indexes the oracles of [Env]) and [trace] is the history
    of events. *)
Record RHInterface : Type := mkRHInterface {
  nodes : list Node;
  pass_record_callback : bool;
  hardware_log_callback : bool;
  new_enter_or_exit_at_callback : bool;
  node_crossing_callback : bool;
  i2c_timestamp : Z;
  i2c_request : option Q;
  i2c_response : option Q;
  ticks : nat;
  trace : list Event
}.

Definition with_nodes (v : list Node) (s : RHInterface) : RHInterface :=
  mkRHInterface v (pass_record_callback s) (hardware_log_callback s)
    (new_enter_or_exit_at_callback s) (node_crossing_callback s) (i2c_timestamp s)
    (i2c_request s) (i2c_response s) (ticks s) (trace s).

Definition with_i2c_timestamp (v : Z) (s : RHInterface) : RHInterface :=
  mkRHInterface (nodes s) (pass_record_callback s) (hardware_log_callback s)
    (new_enter_or_exit_at_callback s) (node_crossing_callback s) v
    (i2c_request s) (i2c_response s) (ticks s) (trace s).

Definition with_i2c_request (v : option Q) (s : RHInterface) : RHInterface :=
  mkRHInterface (nodes s) (pass_record_callback s) (hardware_log_callback s)
    (new_enter_or_exit_at_callback s) (node_crossing_callback s) (i2c_timestamp s)
    v (i2c_response s) (ticks s) (trace s).

Definition with_i2c_response (v : option Q) (s : RHInterface) : RHInterface :=
  mkRHInterface (nodes s) (pass_record_callback s) (hardware_log_callback s)
    (new_enter_or_exit_at_callback s) (node_crossing_callback s) (i2c_timestamp s)
    (i2c_request s) v (ticks s) (trace s).

Definition with_ticks (v : nat) (s : RHInterface) : RHInterface :=
  mkRHInterface (nodes s) (pass_record_callback s) (hardware_log_callback s)
    (new_enter_or_exit_at_callback s) (node_crossing_callback s) (i2c_timestamp s)
    (i2c_request s) (i2c_response s) v (trace s).

Definition with_trace (v : list Event) (s : RHInterface) : RHInterface :=
  mkRHInterface (nodes s) (pass_record_callback s) (hardware_log_callback s)
    (new_enter_or_exit_at_callback s) (node_crossing_callback s) (i2c_timestamp s)
    (i2c_request s) (i2c_response s) (ticks s) v.

(** The environment of the interface: the I2C bus ([smbus]) and the two
    clocks, [monotonic()] in seconds and [self.milliseconds()] (defined in
    [BaseHardwareInterface], which is not among the sources) in milliseconds.
    Each oracle is indexed by the number of external calls made before it, so
    an environment describes any sequence of answers.  A bus read answers
    [None] for an [IOError]; a bus write answers [false] for one. *)
Record Env : Type := mkEnv {
  read_i2c_block_data : nat -> Z -> Z -> Z -> option (list Z);
  write_i2c_block_data : nat -> Z -> Z -> list Z -> bool;
  monotonic : nat -> Q;
  milliseconds : nat -> Z
}.

(** ** The state-and-exception monad *)

(** A computation runs on the interface object and either returns or raises;
    in both cases the mutations made so far persist. *)
Definition IO (A : Type) : Type := RHInterface -> Result A * RHInterface.

Definition ret {A} (a : A) : IO A := fun s => (Ok a, s).

Definition raise {A} (e : Exn) : IO A := fun s => (Raise e, s).

Definition bind {A B} (m : IO A) (k : A -> IO B) : IO B :=
  fun s =>
    match m s with
    | (Ok a, s') => k a s'
    | (Raise e, s') => (Raise e, s')
    end.

Notation "x <- m ;; k" := (bind m (fun x => k))
  (at level 100, m at next level, right associativity).
Notation "m ;;; k" := (bind m (fun _ => k))
  (at level 100, right associativity).

Definition lift {A} (r : Result A) : IO A := fun s => (r, s).

Definition gets {A} (f : RHInterface -> A) : IO A := fun s => (Ok (f s), s).

Definition modify (f : RHInterface -> RHInterface) : IO unit :=
  fun s => (Ok tt, f s).

Definition emit (e : Event) : IO unit :=
  modify (fun s => with_trace (trace s ++ [e]) s).

Definition tick : IO nat :=
  fun s => (Ok (ticks s), with_ticks (S (ticks s)) s).

(** [self.nodes[i]] followed by an attribute read. *)
Definition node_get {A} (i : nat) (f : Node -> A) : IO A :=
  fun s =>
    match nodes s !! i with
    | Some n => (Ok (f n), s)
    | None => (Raise IndexError, s)
    end.

(** An attribute assignment on the node object at position [i]. *)
Definition node_set (i : nat) (f : Node -> Node) : IO unit :=
  modify (fun s => with_nodes (alter f i (nodes s)) s).

(** Arithmetic on an attribute that may hold [None] raises [TypeError]. *)
Definition as_number {A} (v : option A) : IO A :=
  match v with
  | Some x => ret x
  | None => raise TypeError
  end.

(** A local variable that is read before any assignment to it. *)
Definition bound {A} (v : option A) : IO A :=
  match v with
  | Some x => ret x
  | None => raise UnboundLocalError
  end.

(** ** The bus transactor (lines 406-474) *)

Section Interface.

Variable env : Env.

Definition call_monotonic : IO Q :=
  n <- tick ;; ret (monotonic env n).

Definition call_milliseconds : IO Z :=
  n <- tick ;; ret (milliseconds env n).

Definition bus_read (addr cmd len : Z) : IO (option (list Z)) :=
  n <- tick ;;
  emit (BusRead addr cmd len) ;;;
  ret (read_i2c_block_data env n addr cmd len).

Definition bus_write (addr cmd : Z) (data : list Z) : IO bool :=
  n <- tick ;;
  emit (BusWrite addr cmd data) ;;;
  ret (write_i2c_block_data env n addr cmd data).

(** [log]: the line reaches the subscriber only when one is installed. *)
Definition log (message : LogMsg) : IO unit :=
  c <- gets hardware_log_callback ;;
  if c then emit (HardwareLog message) else ret tt.

(** [i2c_sleep]: the quiet time.  It reads the clock unless no transfer
    has happened yet; the sleep itself changes nothing in the interface. *)
Definition i2c_sleep : IO unit :=
  ts <- gets i2c_timestamp ;;
  if ts =? -1 then ret tt
  else (_ <- call_milliseconds ;; ret tt).

(** The bookkeeping shared by the two [except IOError] and the checksum
    branches of [read_block]: count the retry and log it. *)
Definition read_retry_log (checksum : bool) (addr offset size retry_count : Z) : IO unit :=
  ts <- gets i2c_timestamp ;;
  if retry_count <? I2C_RETRY_COUNT then
    if 1 <? retry_count then
      log (if checksum then RetryChecksumRead addr offset size retry_count ts
           else RetryIOErrorRead addr offset size retry_count ts)
    else ret tt
  else
    log (if checksum then RetryChecksumLimitRead addr offset size retry_count ts
         else RetryIOErrorLimitRead addr offset size retry_count ts).

(** The [while] loop of [read_block].  An iteration that does not succeed
    adds one to [retry_count] and the loop stops at [I2C_RETRY_COUNT], so
    the loop is a recursion on the retries that remain:
    [retry_count = I2C_RETRY_COUNT - remaining].  [data] is the local
    variable of that name: an [IOError] leaves it as it is, a frame whose
    checksum is wrong stays in it. *)
Fixpoint read_block_loop (remaining : nat) (addr offset size : Z)
    (data : option (list Z)) : IO (option (list Z)) :=
  match remaining with
  | O => ret data
  | S remaining' =>
      let retry_count := I2C_RETRY_COUNT - Z.of_nat remaining in
      i2c_sleep ;;;
      t <- call_monotonic ;;
      modify (with_i2c_request (Some t)) ;;;
      r <- bus_read addr offset (size + 1) ;;
      match r with
      | Some data =>
          t' <- call_monotonic ;;
          modify (with_i2c_response (Some t')) ;;;
          ms <- call_milliseconds ;;
          modify (with_i2c_timestamp ms) ;;;
          ok <- lift (validate_checksum (Some data)) ;;
          if ok then ret (Some (init data))
          else
            read_retry_log true addr offset size (retry_count + 1) ;;;
            read_block_loop remaining' addr offset size (Some data)
      | None =>
          log ReadError ;;;
          ms <- call_milliseconds ;;
          modify (with_i2c_timestamp ms) ;;;
          read_retry_log false addr offset size (retry_count + 1) ;;;
          read_block_loop remaining' addr offset size data
      end
  end.

Definition read_block (addr offset size : Z) : IO (option (list Z)) :=
  read_block_loop (Z.to_nat I2C_RETRY_COUNT) addr offset size None.

(** The [while] loop of [write_block], in the same way. *)
Fixpoint write_block_loop (remaining : nat) (addr offset : Z)
    (data_with_checksum : list Z) : IO bool :=
  match remaining with
  | O => ret false
  | S remaining' =>
      let retry_count := I2C_RETRY_COUNT - Z.of_nat remaining in
      i2c_sleep ;;;
      ok <- bus_write addr offset data_with_checksum ;;
      if ok then
        ms <- call_milliseconds ;;
        modify (with_i2c_timestamp ms) ;;;
        ret true
      else
        log WriteError ;;;
        ms <- call_milliseconds ;;
        modify (with_i2c_timestamp ms) ;;;
        (if retry_count + 1 <? I2C_RETRY_COUNT then
           log (RetryIOErrorWrite addr offset data_with_checksum (retry_count + 1) ms)
         else
           log (RetryIOErrorLimitWrite addr offset data_with_checksum (retry_count + 1) ms)) ;;;
        write_block_loop remaining' addr offset data_with_checksum
  end.

(** [write_block] appends the register and the checksum to its argument. *)
Definition write_block (addr offset : Z) (data : list Z) : IO bool :=
  let data_with_checksum := data ++ [offset] in
  let data_with_checksum :=
    data_with_checksum ++ [Z.land (sum data_with_checksum) 0xFF] in
  write_block_loop (Z.to_nat I2C_RETRY_COUNT) addr offset data_with_checksum.

(** ** Single values (lines 480-612) *)

Definition get_value_8 (node : nat) (command : Z) : IO (option Z) :=
  addr <- node_get node i2c_addr ;;
  data <- read_block addr command 1 ;;
  match data with
  | Some data => v <- lift (unpack_8 data) ;; ret (Some v)
  | None => ret None
  end.

Definition get_value_16 (node : nat) (command : Z) : IO (option Z) :=
  addr <- node_get node i2c_addr ;;
  data <- read_block addr command 2 ;;
  match data with
  | Some data => v <- lift (unpack_16 data) ;; ret (Some v)
  | None => ret None
  end.

Definition get_value_32 (node : nat) (command : Z) : IO (option Z) :=
  addr <- node_get node i2c_addr ;;
  data <- read_block addr command 4 ;;
  match data with
  | Some data => v <- lift (unpack_32 data) ;; ret (Some v)
  | None => ret None
  end.

(** The local variables of a set-and-validate loop when it ends. *)
Record Validated : Type := mkValidated {
  success : bool;
  retry_count : Z;
  out_value : option Z
}.

(** The comparison that sets [success] in [set_and_validate_value_8]:
    [out_value == in_value]. *)
Definition same_value_8 (out_value : option Z) (in_value : Z) : bool :=
  match out_value with
  | Some v => v =? in_value
  | None => false
  end.

(** The comparison in [set_and_validate_value_16] and, with [bits = 32],
    in [set_and_validate_value_32]:
    [out_value == in_value or out_value == in_value + (1 << bits)]. *)
Definition same_value (bits : Z) (out_value : option Z) (in_value : Z) : bool :=
  match out_value with
  | Some v => (v =? in_value) || (v =? in_value + Z.shiftl 1 bits)
  | None => false
  end.

(** The three set-and-validate loops differ in the packing, the read-back
    and the comparison only; [set_and_validate_loop] is their common
    [while] loop, again a recursion on the retries that remain. *)
Fixpoint set_and_validate_loop (pack : Z -> list Z)
    (get_value : nat -> Z -> IO (option Z)) (same : option Z -> Z -> bool)
    (remaining : nat) (node : nat) (write_command read_command in_value : Z)
    (out_value : option Z) : IO Validated :=
  match remaining with
  | O => ret (mkValidated false I2C_RETRY_COUNT out_value)
  | S remaining' =>
      let retry_count := I2C_RETRY_COUNT - Z.of_nat remaining in
      addr <- node_get node i2c_addr ;;
      _ <- write_block addr write_command (pack in_value) ;;
      out_value <- get_value node read_command ;;
      if same out_value in_value then ret (mkValidated true retry_count out_value)
      else
        log (ValueNotSet (retry_count + 1) write_command in_value node) ;;;
        set_and_validate_loop pack get_value same remaining' node
          write_command read_command in_value out_value
  end.

(** The end of the three functions:
    [if out_value == None: out_value = in_value], then [return out_value]. *)
Definition validated_value (in_value : Z) (v : Validated) : Z :=
  match out_value v with
  | Some out => out
  | None => in_value
  end.

Definition set_and_validate_value_8_loop :=
  set_and_validate_loop pack_8 get_value_8 same_value_8 (Z.to_nat I2C_RETRY_COUNT).

Definition set_and_validate_value_16_loop :=
  set_and_validate_loop pack_16 get_value_16 (same_value 16) (Z.to_nat I2C_RETRY_COUNT).

Definition set_and_validate_value_32_loop :=
  set_and_validate_loop pack_32 get_value_32 (same_value 32) (Z.to_nat I2C_RETRY_COUNT).

Definition set_and_validate_value_8 (node : nat)
    (write_command read_command in_value : Z) : IO Z :=
  v <- set_and_validate_value_8_loop node write_command read_command in_value None ;;
  ret (validated_value in_value v).

Definition set_and_validate_value_16 (node : nat)
    (write_command read_command in_value : Z) : IO Z :=
  v <- set_and_validate_value_16_loop node write_command read_command in_value None ;;
  ret (validated_value in_value v).

Definition set_and_validate_value_32 (node : nat)
    (write_command read_command in_value : Z) : IO Z :=
  v <- set_and_validate_value_32_loop node write_command read_command in_value None ;;
  ret (validated_value in_value v).

(** [set_and_validate_value_rssi] has no [return] statement: whichever
    branch runs, the function returns [None]. *)
Definition set_and_validate_value_rssi (node : nat)
    (write_command read_command in_value : Z) : IO (option Z) :=
  api <- node_get node api_level ;;
  if 18 <=? api then
    _ <- set_and_validate_value_8 node write_command read_command in_value ;;
    ret None
  else
    _ <- set_and_validate_value_16 node write_command read_command in_value ;;
    ret None.

Definition get_value_rssi (node : nat) (command : Z) : IO (option Z) :=
  api <- node_get node api_level ;;
  if 18 <=? api then get_value_8 node command else get_value_16 node command.

(** ** Setting data (lines 634-654, 684-709) *)

Definition transmit_enter_at_level (node : nat) (level : Z) : IO (option Z) :=
  set_and_validate_value_rssi node WRITE_ENTER_AT_LEVEL READ_ENTER_AT_LEVEL level.

Definition set_enter_at_level (node_index : nat) (level : Z) : IO unit :=
  valid <- node_get node_index api_valid_flag ;;
  if valid then
    r <- transmit_enter_at_level node_index level ;;
    node_set node_index (with_enter_at_level r)
  else ret tt.

Definition transmit_exit_at_level (node : nat) (level : Z) : IO (option Z) :=
  set_and_validate_value_rssi node WRITE_EXIT_AT_LEVEL READ_EXIT_AT_LEVEL level.

Definition set_exit_at_level (node_index : nat) (level : Z) : IO unit :=
  valid <- node_get node_index api_valid_flag ;;
  if valid then
    r <- transmit_exit_at_level node_index level ;;
    node_set node_index (with_exit_at_level r)
  else ret tt.

Definition start_capture_enter_at_level (node_index : nat) : IO bool :=
  flag <- node_get node_index cap_enter_at_flag ;;
  valid <- node_get node_index api_valid_flag ;;
  if negb flag && valid then
    node_set node_index (with_cap_enter_at_total 0) ;;;
    node_set node_index (with_cap_enter_at_count 0) ;;;
    now <- call_milliseconds ;;
    node_set node_index (with_cap_enter_at_millis (now + CAP_ENTER_EXIT_AT_MILLIS)) ;;;
    node_set node_index (with_cap_enter_at_flag true) ;;;
    ret true
  else ret false.

(** [intf_simulate_lap] calls the subscriber without testing that one is
    installed; calling [None] raises [TypeError]. *)
Definition intf_simulate_lap (node_index : nat) (ms_val : Z) : IO unit :=
  _ <- node_get node_index index ;;
  node_set node_index (with_lap_ms_since_start ms_val) ;;;
  c <- gets pass_record_callback ;;
  if c then emit (PassRecord node_index (inject_Z 100) LAP_SOURCE_MANUAL)
  else raise TypeError.

(** ** The poll cycle (lines 200-399) *)

Definition unpack_rssi (node : nat) (data : list Z) : IO Z :=
  api <- node_get node api_level ;;
  if 18 <=? api then lift (unpack_8 data) else lift (unpack_16 data).

(** The local variables of [update] that live across the iterations of
    its [for] loop: the two lists, and the variables that only some
    branches assign.  A Python local keeps its value from one iteration
    to the next, and reading it before any assignment raises
    [UnboundLocalError]; such a variable is optional here. *)
Record Locals : Type := mkLocals {
  upd_list : list (nat * Z * Q);
  cross_list : list nat;
  server_oneway : option Q;
  readtime : option Q;
  offset_nodeNadirRssi : option nat;
  offset_peakFirstTime : option nat;
  offset_peakLastTime : option nat
}.

Definition with_upd_list (v : list (nat * Z * Q)) (l : Locals) : Locals :=
  mkLocals v (cross_list l) (server_oneway l) (readtime l)
    (offset_nodeNadirRssi l) (offset_peakFirstTime l) (offset_peakLastTime l).

Definition with_cross_list (v : list nat) (l : Locals) : Locals :=
  mkLocals (upd_list l) v (server_oneway l) (readtime l)
    (offset_nodeNadirRssi l) (offset_peakFirstTime l) (offset_peakLastTime l).

Definition with_times (oneway rt : Q) (l : Locals) : Locals :=
  mkLocals (upd_list l) (cross_list l) (Some oneway) (Some rt)
    (offset_nodeNadirRssi l) (offset_peakFirstTime l) (offset_peakLastTime l).

Definition with_offsets_18 (nodeNadirRssi peakFirstTime peakLastTime : nat)
    (l : Locals) : Locals :=
  mkLocals (upd_list l) (cross_list l) (server_oneway l) (readtime l)
    (Some nodeNadirRssi) (Some peakFirstTime) (Some peakLastTime).

Definition new_locals : Locals := mkLocals [] [] None None None None None.

(** The offsets that both branches of lines 229-253 assign. *)
Record Offsets : Type := mkOffsets {
  offset_rssi : nat;
  offset_nodePeakRssi : nat;
  offset_passPeakRssi : nat;
  offset_loopTime : nat;
  offset_crossing : nat;
  offset_passNadirRssi : nat;
  offset_peakRssi : nat;
  offset_nadirRssi : nat;
  offset_nadirTime : nat
}.

Definition offsets_18 : Offsets := mkOffsets 3 4 5 6 8 9 11 16 17.

(** The [else] branch also assigns [offset_nodeNadirPassi = 18] (sic) and
    [offset_peakTime = 22], which nothing reads; it does not assign
    [offset_nodeNadirRssi], [offset_peakFirstTime], [offset_peakLastTime]. *)
Definition offsets_below_18 : Offsets := mkOffsets 5 7 9 11 15 16 20 24 26.

(** Lines 208-210 and 214-216: the latency-compensated read time. *)
Definition measure_readtime (l : Locals) : IO Locals :=
  response <- gets i2c_response ;;
  response <- as_number response ;;
  request <- gets i2c_request ;;
  request <- as_number request ;;
  let server_roundtrip := (response - request)%Q in
  let server_oneway := (server_roundtrip / inject_Z 2)%Q in
  response <- gets i2c_response ;;
  response <- as_number response ;;
  ret (with_times server_oneway (response - server_oneway)%Q l).

(** Lines 204-223: the frame read, its size chosen by the API level. *)
Definition read_lap_stats (node : nat) (l : Locals) : IO (option (list Z) * Locals) :=
  valid <- node_get node api_valid_flag ;;
  api <- node_get node api_level ;;
  addr <- node_get node i2c_addr ;;
  if valid || (5 <=? api) then
    if 18 <=? api then
      data <- read_block addr READ_LAP_STATS 19 ;;
      l <- measure_readtime l ;;
      ret (data, l)
    else if 17 <=? api then
      data <- read_block addr READ_LAP_STATS 28 ;;
      l <- measure_readtime l ;;
      ret (data, l)
    else if 13 <=? api then
      data <- read_block addr READ_LAP_STATS 20 ;;
      ret (data, l)
    else
      data <- read_block addr READ_LAP_STATS 18 ;;
      ret (data, l)
  else
    data <- read_block addr READ_LAP_STATS 17 ;;
    ret (data, l).

(** Lines 259-283: the fields of a node that supports the newer API.
    The result is the local [lap_time_ms], which is 0 unless assigned. *)
Definition decode_valid (node : nat) (data : list Z) (o : Offsets)
    (l : Locals) : IO (Q * Locals) :=
  api <- node_get node api_level ;;
  lap_time_ms <-
    (if 18 <=? api then
       lap_differential <- lift (unpack_16 (drop 1 data)) ;;
       oneway <- bound (server_oneway l) ;;
       ret (inject_Z lap_differential + oneway)%Q
     else
       ms_val <- lift (unpack_32 (drop 1 data)) ;;
       let ms_val := if (ms_val <? 0) || (9999999 <? ms_val) then 0 else ms_val in
       node_set node (with_lap_ms_since_start ms_val) ;;;
       ret (inject_Z 0)) ;;
  v <- unpack_rssi node (drop (offset_nodePeakRssi o) data) ;;
  node_set node (with_node_peak_rssi v) ;;;
  v <- unpack_rssi node (drop (offset_passPeakRssi o) data) ;;
  node_set node (with_pass_peak_rssi v) ;;;
  v <- lift (unpack_16 (drop (offset_loopTime o) data)) ;;
  node_set node (with_loop_time v) ;;;
  c <- lift (item data (offset_crossing o)) ;;
  let cross_flag := negb (c =? 0) in
  old <- node_get node crossing_flag ;;
  l <- (if negb (eqb cross_flag old) then
          node_set node (with_crossing_flag cross_flag) ;;;
          callable <- gets node_crossing_callback ;;
          ret (if callable then with_cross_list (cross_list l ++ [node]) l else l)
        else ret l) ;;
  _ <- unpack_rssi node (drop (offset_passNadirRssi o) data) ;;
  api <- node_get node api_level ;;
  (if 13 <=? api then
     off <- bound (offset_nodeNadirRssi l) ;;
     v <- unpack_rssi node (drop off data) ;;
     node_set node (with_node_nadir_rssi v)
   else ret tt) ;;;
  ret (lap_time_ms, l).

(** Lines 285-288: the fields of a legacy node. *)
Definition decode_legacy (node : nat) (data : list Z) : IO Q :=
  lap_time_ms <- lift (unpack_32 (drop 1 data)) ;;
  v <- unpack_rssi node (drop 11 data) ;;
  node_set node (with_pass_peak_rssi v) ;;;
  v <- lift (unpack_32 (drop 13 data)) ;;
  node_set node (with_loop_time v) ;;;
  ret (inject_Z lap_time_ms).

(** Integer division of Python 2, which raises on a zero divisor. *)
Definition py_div (a b : Z) : IO Z :=
  if b =? 0 then raise ZeroDivisionError else ret (a / b).

(** Lines 294-306.  Both operands of the division are integers, so
    [total / count] is already the floor of the quotient when [round]
    and [int] are applied to it. *)
Definition capture_enter_at (node : nat) : IO unit :=
  flag <- node_get node cap_enter_at_flag ;;
  if flag then
    node_set node (fun n => with_cap_enter_at_total (cap_enter_at_total n + current_rssi n) n) ;;;
    node_set node (fun n => with_cap_enter_at_count (cap_enter_at_count n + 1) n) ;;;
    now <- call_milliseconds ;;
    deadline <- node_get node cap_enter_at_millis ;;
    if deadline <=? now then
      total <- node_get node cap_enter_at_total ;;
      count <- node_get node cap_enter_at_count ;;
      level <- py_div total count ;;
      node_set node (with_enter_at_level (Some level)) ;;;
      node_set node (with_cap_enter_at_flag false) ;;;
      peak <- node_get node node_peak_rssi ;;
      (if 0 <? peak then
         peak <- node_get node node_peak_rssi ;;
         level <- node_get node enter_at_level ;;
         level <- as_number level ;;
         if peak - level <? ENTER_AT_PEAK_MARGIN then
           peak <- node_get node node_peak_rssi ;;
           node_set node (with_enter_at_level (Some (peak - ENTER_AT_PEAK_MARGIN)))
         else ret tt
       else ret tt) ;;;
      level <- node_get node enter_at_level ;;
      level <- as_number level ;;
      _ <- transmit_enter_at_level node level ;;
      callable <- gets new_enter_or_exit_at_callback ;;
      if callable then emit (NewEnterOrExitAt node true) else ret tt
    else ret tt
  else ret tt.

(** Lines 308-317. *)
Definition capture_exit_at (node : nat) : IO unit :=
  flag <- node_get node cap_exit_at_flag ;;
  if flag then
    node_set node (fun n => with_cap_exit_at_total (cap_exit_at_total n + current_rssi n) n) ;;;
    node_set node (fun n => with_cap_exit_at_count (cap_exit_at_count n + 1) n) ;;;
    now <- call_milliseconds ;;
    deadline <- node_get node cap_exit_at_millis ;;
    if deadline <=? now then
      total <- node_get node cap_exit_at_total ;;
      count <- node_get node cap_exit_at_count ;;
      level <- py_div total count ;;
      node_set node (with_exit_at_level (Some level)) ;;;
      node_set node (with_cap_exit_at_flag false) ;;;
      level <- node_get node exit_at_level ;;
      level <- as_number level ;;
      _ <- transmit_exit_at_level node level ;;
      callable <- gets new_enter_or_exit_at_callback ;;
      if callable then emit (NewEnterOrExitAt node false) else ret tt
    else ret tt
  else ret tt.

(** One sample of the history: [history_values.append(rssi)], then
    [history_times.append(readtime - (ms_ago / 1000))].  The division is
    between two integers. *)
Definition history_append (node : nat) (l : Locals) (rssi ms_ago : Z) : IO unit :=
  node_set node (fun n => with_history_values (history_values n ++ [rssi]) n) ;;;
  rt <- bound (readtime l) ;;
  node_set node (fun n =>
    with_history_times (history_times n ++ [(rt - inject_Z (ms_ago / 1000))%Q]) n).

(** The peak, as lines 332-339, 348-355 and 360-367 each write it. *)
Definition history_peak (node : nat) (l : Locals)
    (peakRssi peakFirstTime peakLastTime : Z) : IO unit :=
  if peakFirstTime <? peakLastTime then
    history_append node l peakRssi peakFirstTime ;;;
    history_append node l peakRssi peakLastTime
  else
    history_append node l peakRssi peakLastTime.

(** Lines 319-373. *)
Definition process_history (node : nat) (data : list Z) (o : Offsets)
    (l : Locals) : IO unit :=
  api <- node_get node api_level ;;
  if 18 <=? api then
    peakRssi <- unpack_rssi node (drop (offset_peakRssi o) data) ;;
    off <- bound (offset_peakFirstTime l) ;;
    peakFirstTime <- lift (unpack_16 (drop off data)) ;;
    off <- bound (offset_peakLastTime l) ;;
    peakLastTime <- lift (unpack_16 (drop off data)) ;;
    nadirRssi <- unpack_rssi node (drop (offset_nadirRssi o) data) ;;
    nadirTime <- lift (unpack_16 (drop (offset_nadirTime o) data)) ;;
    if 0 <? peakRssi then
      if 0 <? nadirRssi then
        if peakLastTime <? nadirTime then
          history_peak node l peakRssi peakFirstTime peakLastTime ;;;
          history_append node l nadirRssi nadirTime
        else
          history_append node l nadirRssi nadirTime ;;;
          history_peak node l peakRssi peakFirstTime peakLastTime
      else
        history_peak node l peakRssi peakFirstTime peakLastTime
    else if 0 <? nadirRssi then
      history_append node l nadirRssi nadirTime
    else ret tt
  else ret tt.

(** Lines 257-373: what an accepted sample does. *)
Definition accept_sample (node : nat) (data : list Z) (lap_id rssi_val : Z)
    (o : Offsets) (l : Locals) : IO Locals :=
  node_set node (with_current_rssi rssi_val) ;;;
  valid <- node_get node api_valid_flag ;;
  r <- (if valid then decode_valid node data o l
        else (lap_time_ms <- decode_legacy node data ;; ret (lap_time_ms, l))) ;;
  let lap_time_ms := r.1 in
  let l := r.2 in
  last <- node_get node last_lap_id ;;
  let l := if negb (lap_id =? last)
           then with_upd_list (upd_list l ++ [(node, lap_id, lap_time_ms)]) l
           else l in
  capture_enter_at node ;;;
  capture_exit_at node ;;;
  process_history node data o l ;;;
  ret l.

(** Lines 225-377: a frame that was read. *)
Definition process_frame (node : nat) (data : list Z) (l : Locals) : IO Locals :=
  lap_id <- lift (item data 0) ;;
  api <- node_get node api_level ;;
  let o := if 18 <=? api then offsets_18 else offsets_below_18 in
  let l := if 18 <=? api then with_offsets_18 10 12 14 l else l in
  rssi_val <- unpack_rssi node (drop (offset_rssi o) data) ;;
  if (MIN_RSSI_VALUE <=? rssi_val) && (rssi_val <=? MAX_RSSI_VALUE) then
    accept_sample node data lap_id rssi_val o l
  else
    idx <- node_get node index ;;
    log (RssiOutOfRange rssi_val (idx + 1)) ;;;
    ret l.

(** Lines 204-377: the body of the [for] loop. *)
Definition poll_node (node : nat) (l : Locals) : IO Locals :=
  freq <- node_get node frequency ;;
  if freq =? 0 then ret l
  else
    r <- read_lap_stats node l ;;
    match r.1 with
    | Some data => process_frame node data r.2
    | None => ret r.2
    end.

Fixpoint poll_nodes (positions : list nat) (l : Locals) : IO Locals :=
  match positions with
  | [] => ret l
  | node :: positions =>
      l <- poll_node node l ;;
      poll_nodes positions l
  end.

(** Lines 379-382.  A node is in [cross_list] only when the subscriber
    was callable; calling [None] would raise [TypeError]. *)
Fixpoint crossing_callbacks (cross_list : list nat) : IO unit :=
  match cross_list with
  | [] => ret tt
  | node :: cross_list =>
      callable <- gets node_crossing_callback ;;
      (if callable then emit (NodeCrossing node) else raise TypeError) ;;;
      crossing_callbacks cross_list
  end.

(** Lines 387-391 and 396-399: one item of [upd_list]. *)
Definition process_lap (item : nat * Z * Q) : IO unit :=
  let node := item.1.1 in
  last <- node_get node last_lap_id ;;
  callable <- gets pass_record_callback ;;
  (if negb (last =? -1) && callable
   then emit (PassRecord node item.2 LAP_SOURCE_REALTIME)
   else ret tt) ;;;
  node_set node (with_last_lap_id item.1.2).

Fixpoint process_laps (items : list (nat * Z * Q)) : IO unit :=
  match items with
  | [] => ret tt
  | item :: items => process_lap item ;;; process_laps items
  end.

(** [list.sort(key = ...)] is a stable sort: it first computes the key of
    every item and then orders the items by key, keeping the order of
    items with equal keys. *)
Fixpoint insert_by_key {A} (x : Z * A) (xs : list (Z * A)) : list (Z * A) :=
  match xs with
  | [] => [x]
  | y :: ys => if x.1 <=? y.1 then x :: y :: ys else y :: insert_by_key x ys
  end.

Definition sort_by_key {A} (xs : list (Z * A)) : list (Z * A) :=
  foldr insert_by_key [] xs.

Fixpoint lap_keys (items : list (nat * Z * Q)) : IO (list (Z * (nat * Z * Q))) :=
  match items with
  | [] => ret []
  | item :: items =>
      k <- node_get item.1.1 lap_ms_since_start ;;
      rest <- lap_keys items ;;
      ret ((k, item) :: rest)
  end.

(** Lines 384-399. *)
Definition lap_callbacks (upd_list : list (nat * Z * Q)) : IO unit :=
  match upd_list with
  | [] => ret tt
  | [item] => process_lap item
  | _ =>
      keyed <- lap_keys upd_list ;;
      process_laps (map snd (sort_by_key keyed))
  end.

Definition dispatch (l : Locals) : IO unit :=
  crossing_callbacks (cross_list l) ;;;
  lap_callbacks (upd_list l).

(** Lines 201-377: the two lists start empty and the [for] loop visits
    [self.nodes] in order. *)
Definition poll_phase : IO Locals :=
  count <- gets (fun s => length (nodes s)) ;;
  poll_nodes (seq 0 count) new_locals.

(** [update]: one poll cycle. *)
Definition update : IO unit :=
  l <- poll_phase ;;
  dispatch l.

End Interface.

(** ** Writes without read-back (lines 554-576, 695-714) *)

Section Writes.

Variable env : Env.

(** The [while] loop of [set_value_8] and of [set_value_32], which differ
    in the packing only: a recursion on the retries that remain, each of
    them a whole [write_block]. *)
Fixpoint set_value_loop (pack : Z -> list Z) (remaining : nat) (node : nat)
    (write_command in_value : Z) : IO bool :=
  match remaining with
  | O => ret false
  | S remaining' =>
      let retry_count := I2C_RETRY_COUNT - Z.of_nat remaining in
      addr <- node_get node i2c_addr ;;
      written <- write_block env addr write_command (pack in_value) ;;
      if written then ret true
      else
        log (ValueNotSet (retry_count + 1) write_command in_value node) ;;;
        set_value_loop pack remaining' node write_command in_value
  end.

Definition set_value_8 (node : nat) (write_command in_value : Z) : IO bool :=
  set_value_loop pack_8 (Z.to_nat I2C_RETRY_COUNT) node write_command in_value.

Definition set_value_32 (node : nat) (write_command in_value : Z) : IO bool :=
  set_value_loop pack_32 (Z.to_nat I2C_RETRY_COUNT) node write_command in_value.

Definition start_capture_exit_at_level (node_index : nat) : IO bool :=
  flag <- node_get node_index cap_exit_at_flag ;;
  valid <- node_get node_index api_valid_flag ;;
  if negb flag && valid then
    node_set node_index (with_cap_exit_at_total 0) ;;;
    node_set node_index (with_cap_exit_at_count 0) ;;;
    now <- call_milliseconds env ;;
    node_set node_index (with_cap_exit_at_millis (now + CAP_ENTER_EXIT_AT_MILLIS)) ;;;
    node_set node_index (with_cap_exit_at_flag true) ;;;
    ret true
  else ret false.

Definition force_end_crossing (node_index : nat) : IO unit :=
  api <- node_get node_index api_level ;;
  if 14 <=? api then
    _ <- set_value_8 node_index FORCE_END_CROSSING 0 ;;
    ret tt
  else ret tt.

End Writes.

(** * The vocabulary of the properties *)

(** [steps R m]: whichever state [m] starts in and however it ends, the
    final state is [R]-related to the initial one. *)
Definition steps (R : relation RHInterface) {A} (m : IO A) : Prop :=
  forall s, R s (m s).2.

(** [frame N E s s']: from [s] to [s'] the subscribers are the same, every
    node has changed within [N], and the trace has grown by events of [E]. *)
Record frame (N : relation Node) (E : Event -> Prop) (s s' : RHInterface) : Prop :=
  mkFrame {
    frame_pass_record : pass_record_callback s' = pass_record_callback s;
    frame_hardware_log : hardware_log_callback s' = hardware_log_callback s;
    frame_new_enter_or_exit_at :
      new_enter_or_exit_at_callback s' = new_enter_or_exit_at_callback s;
    frame_node_crossing : node_crossing_callback s' = node_crossing_callback s;
    frame_nodes : Forall2 N (nodes s) (nodes s');
    frame_trace : exists evs, trace s' = trace s ++ evs /\ Forall E evs
  }.

(** The events of the transactor: bus transfers and log lines. *)
Definition bus_event (e : Event) : Prop :=
  match e with
  | BusRead _ _ _ | BusWrite _ _ _ | HardwareLog _ => True
  | _ => False
  end.

(** The events of the polling phase: everything but the two callbacks that
    [update] keeps for the end of the cycle. *)
Definition quiet_event (e : Event) : Prop :=
  match e with
  | PassRecord _ _ _ | NodeCrossing _ => False
  | _ => True
  end.

(** The transactor and the helpers built on it leave the nodes alone. *)
Abbreviation bus_frame := (frame eq bus_event).

(** What the polling phase never changes in a node: its identity and
    configuration, [last_lap_id], and, at API level 18 and above,
    [lap_ms_since_start]. *)
Record stable (n n' : Node) : Prop := mkStable {
  stable_index : index n' = index n;
  stable_i2c_addr : i2c_addr n' = i2c_addr n;
  stable_frequency : frequency n' = frequency n;
  stable_api_level : api_level n' = api_level n;
  stable_api_valid_flag : api_valid_flag n' = api_valid_flag n;
  stable_last_lap_id : last_lap_id n' = last_lap_id n;
  stable_lap_ms_since_start :
    18 <= api_level n -> lap_ms_since_start n' = lap_ms_since_start n
}.

Abbreviation poll_frame := (frame stable quiet_event).

(** [any_frame] only says that the subscribers stay the same. *)
Definition any_node : relation Node := fun _ _ => True.
Definition any_event : Event -> Prop := fun _ => True.

Abbreviation any_frame := (frame any_node any_event).

(** [returns c m Q]: when [m] starts with [callable(node_crossing_callback)]
    equal to [c] and returns, its value satisfies [Q]. *)
Definition returns (c : bool) {A} (m : IO A) (Q : A -> Prop) : Prop :=
  forall s a s', node_crossing_callback s = c -> m s = (Ok a, s') -> Q a.

Definition node_of (item : nat * Z * Q) : nat := item.1.1.

(** The two lists of [update] after one more node. *)
Definition same_lists (l l' : Locals) : Prop :=
  upd_list l' = upd_list l /\ cross_list l' = cross_list l.

Definition grows (c : bool) (node : nat) (l l' : Locals) : Prop :=
  (upd_list l' = upd_list l \/
   exists lap_id t, upd_list l' = upd_list l ++ [(node, lap_id, t)]) /\
  (cross_list l' = cross_list l \/
   (c = true /\ cross_list l' = cross_list l ++ [node])).

Definition crossed (c : bool) (node : nat) (l l' : Locals) : Prop :=
  upd_list l' = upd_list l /\
  (cross_list l' = cross_list l \/
   (c = true /\ cross_list l' = cross_list l ++ [node])).

(** The key of the sort, for the node at a position. *)
Definition lap_key (s : RHInterface) (node : nat) : Z :=
  match nodes s !! node with
  | Some n => lap_ms_since_start n
  | None => 0
  end.

(** The callback that an item of [upd_list] causes, if any. *)
Definition pass_event (s : RHInterface) (item : nat * Z * Q) : list Event :=
  match nodes s !! node_of item with
  | Some n =>
      if negb (last_lap_id n =? -1) && pass_record_callback s
      then [PassRecord (node_of item) item.2 LAP_SOURCE_REALTIME]
      else []
  | None => []
  end.

(** [laps_done s items s']: [s'] is [s] after the items were processed in
    the order of the list, each for a different node. *)
Record laps_done (s : RHInterface) (items : list (nat * Z * Q))
    (s' : RHInterface) : Prop := mkLapsDone {
  done_pass_record : pass_record_callback s' = pass_record_callback s;
  done_trace : trace s' = trace s ++ concat (pass_event s <$> items);
  done_length : length (nodes s') = length (nodes s);
  done_other : forall j, j ∉ node_of <$> items -> nodes s' !! j = nodes s !! j;
  done_item : forall item, item ∈ items ->
    nodes s' !! node_of item = with_last_lap_id item.1.2 <$> nodes s !! node_of item
}.

Definition key_le {A} (x y : Z * A) : Prop := x.1 <= y.1.

(** [crossings_done s cross s']: [s'] is [s] after one crossing callback
    for each node of the list, in order. *)
Record crossings_done (s : RHInterface) (cross : list nat) (s' : RHInterface) : Prop :=
  mkCrossingsDone {
    crossed_pass_record : pass_record_callback s' = pass_record_callback s;
    crossed_nodes : nodes s' = nodes s;
    crossed_trace : trace s' = trace s ++ (NodeCrossing <$> cross)
  }.

(** Either the polling phase raises, and nothing is dispatched, or it
    returns and the two lists are dispatched without an exception. *)
Inductive cycle (env : Env) (s : RHInterface) : Prop :=
  | cycle_raises e s1 :
      poll_phase env s = (Raise e, s1) ->
      update env s = (Raise e, s1) ->
      poll_frame s s1 ->
      cycle env s
  | cycle_returns l s1 s2 items s3 :
      poll_phase env s = (Ok l, s1) ->
      update env s = (Ok tt, s3) ->
      poll_frame s s1 ->
      crossings_done s1 (cross_list l) s2 ->
      items ≡ₚ upd_list l ->
      StronglySorted (fun a b => lap_key s2 (node_of a) <= lap_key s2 (node_of b)) items ->
      laps_done s2 items s3 ->
      cycle env s.

(** The [pass_record_callback] invocation for an item of [upd_list]. *)
Definition pass_record (item : nat * Z * Q) : Event :=
  PassRecord (node_of item) item.2 LAP_SOURCE_REALTIME.

(** Whether an item of [upd_list] leads to a callback: the test of lines
    389 and 397. *)
Definition emits (s : RHInterface) (item : nat * Z * Q) : bool :=
  match nodes s !! node_of item with
  | Some n => negb (last_lap_id n =? -1) && pass_record_callback s
  | None => false
  end.

(** The transfers on the bus among some events, in order. *)
Definition is_transfer (e : Event) : bool :=
  match e with
  | BusRead _ _ _ | BusWrite _ _ _ => true
  | _ => false
  end.

Definition transfers (evs : list Event) : list Event := List.filter is_transfer evs.

(** A read of the register [cmd], or a line of the hardware log. *)
Definition read_or_log (cmd : Z) (e : Event) : Prop :=
  match e with
  | BusRead _ c _ => c = cmd
  | HardwareLog _ => True
  | _ => False
  end.

(** A node that [update] polls. *)
Definition enabled (n : Node) : bool := negb (frequency n =? 0).

(** A pass-record callback for the node at position [i] is a real-time
    pass with a lap time of 0; any other event is allowed. *)
Definition realtime_zero (i : nat) (e : Event) : Prop :=
  match e with
  | PassRecord j t src => j = i -> t = inject_Z 0 /\ src = LAP_SOURCE_REALTIME
  | _ => True
  end.

(** What identifies and configures a node. *)
Definition same_configuration (n n' : Node) : Prop :=
  index n' = index n /\ i2c_addr n' = i2c_addr n /\ frequency n' = frequency n /\
  api_level n' = api_level n /\ api_valid_flag n' = api_valid_flag n.

(** What [read_block] can return: nothing, a frame without its checksum
    byte, or a frame whose checksum was wrong. *)
Definition read_result (env : Env) (addr offset size : Z) (r : option (list Z)) : Prop :=
  r = None \/
  exists n d,
    read_i2c_block_data env n addr offset (size + 1) = Some d /\
    ((r = Some (init d) /\ validate_checksum (Some d) = Ok true) \/
     (r = Some d /\ validate_checksum (Some d) = Ok false)).

(** A node whose two history buffers have the same length. *)
Definition balanced (n : Node) : Prop :=
  length (history_values n) = length (history_times n).

(** The histories are balanced and the node at position [i] has API level
    [a]. *)
Definition history_inv (i : nat) (a : Z) (s : RHInterface) : Prop :=
  Forall balanced (nodes s) /\ forall n, nodes s !! i = Some n -> api_level n = a.

(** [hoare P m Q]: [m] keeps the invariant [P], however it ends, and when
    it returns its value satisfies [Q]. *)
Definition hoare (P : RHInterface -> Prop) {A} (m : IO A) (Q : A -> Prop) : Prop :=
  forall s, P s -> P (m s).2 /\ forall a s', m s = (Ok a, s') -> Q a.

(** * Scenarios *)

(** A node as discovery leaves it, on a channel, with nothing captured. *)
Definition fresh_node (position addr api last_lap : Z) : Node :=
  mkNode position addr 5800 api (10 <=? api) 0 0 0 0 0 false last_lap (-1)
    (Some 0) (Some 0) false 0 0 0 false 0 0 0 [] [].

(** An interface with all four subscribers installed, before any transfer. *)
Definition fresh_interface (nodes : list Node) : RHInterface :=
  mkRHInterface nodes true true true true (-1) None None 0 [].

(** A frame as it travels on the bus: the payload and its checksum. *)
Definition on_wire (payload : list Z) : list Z :=
  payload ++ [Z.land (sum payload) 0xFF].

(** A clock that advances by 10 ms at every external call: a bus read then
    takes 20 ms from request to response. *)
Definition clock_s (n : nat) : Q := (inject_Z (Z.of_nat n) / inject_Z 100)%Q.
Definition clock_ms (n : nat) : Z := 10 * Z.of_nat n.

(** The LapStats frame of API level 18 and above: lap id, lap differential
    250 ms, RSSI, node peak, pass peak 110, loop time 50, not crossing, pass
    nadir 80, node nadir 70, no history. *)
Definition frame_18 (lap_id rssi node_peak : Z) : list Z :=
  [lap_id; 0; 250; rssi; node_peak; 110; 0; 50; 0; 80; 70; 0; 0; 0; 0; 0; 0; 0; 0].

(** The LapStats frame of API levels 10 to 12: lap id, milliseconds since
    the start as four bytes, RSSI 100, node peak 120, pass peak 110, loop
    time 50, two unused bytes, not crossing, pass nadir 80. *)
Definition frame_10 (lap_id ms2 ms3 : Z) : list Z :=
  [lap_id; 0; 0; ms2; ms3; 0; 100; 0; 120; 0; 110; 0; 50; 0; 0; 0; 0; 80].

(** The LapStats frame of API levels 13 to 16: lap id, milliseconds since
    the start as four bytes, RSSI, node peak 120, pass peak 110, loop time
    50, two unused bytes, not crossing, pass nadir 80, node nadir 70. *)
Definition frame_13 (lap_id rssi : Z) : list Z :=
  [lap_id; 0; 0; 78; 32; 0; rssi; 0; 120; 0; 110; 0; 50; 0; 0; 0; 0; 80; 0; 70].

Module S1.
(** Scenario S1: lap id 0 on the first poll, which is over after four
    external calls, and lap id 1 from then on. *)
Definition env : Env :=
  mkEnv (fun n _ _ _ => Some (on_wire (frame_18 (if (n <? 4)%nat then 0 else 1) 100 120)))
        (fun _ _ _ _ => true) clock_s clock_ms.
Definition start : RHInterface := fresh_interface [fresh_node 0 8 18 (-1)].
Definition after_first : RHInterface := (update env start).2.
Definition after_second : RHInterface := (update env after_first).2.
End S1.

Module S2.
(** A bus on which every read answers a frame whose checksum is wrong. *)
Definition env : Env :=
  mkEnv (fun _ _ _ _ => Some [1; 2; 0]) (fun _ _ _ _ => true) clock_s clock_ms.
Definition start : RHInterface := fresh_interface [fresh_node 0 8 18 (-1)].
End S2.

Module S3.
(** A node of API level 18 whose frame carries an RSSI of 0. *)
Definition env : Env :=
  mkEnv (fun _ _ _ _ => Some (on_wire (frame_18 1 0 120)))
        (fun _ _ _ _ => true) clock_s clock_ms.
Definition start : RHInterface := fresh_interface [fresh_node 0 8 18 0].
End S3.

Module S4.
(** A node of API level 18 that is capturing its enter-at level, with
    the deadline reached; every sample is 100 and so is the node peak.
    The node echoes the level 95. *)
Definition capturing : Node :=
  with_cap_enter_at_flag true (fresh_node 0 8 18 0).
Definition env : Env :=
  mkEnv (fun _ _ cmd _ =>
           if cmd =? READ_LAP_STATS then Some (on_wire (frame_18 0 100 100))
           else Some (on_wire [95]))
        (fun _ _ _ _ => true) clock_s clock_ms.
Definition start : RHInterface := fresh_interface [capturing].
(** The same node with the samples 100 and 110 and a node peak of 152. *)
Definition two_samples : Node :=
  with_node_peak_rssi 152 (with_current_rssi 110
    (with_cap_enter_at_count 1 (with_cap_enter_at_total 100 capturing))).
End S4.

Module S5.
(** Scenario S5: node A, at position 0, reports 20000 ms since the start
    and node B, at position 1, reports 19800 ms, both with a new lap. *)
Definition env : Env :=
  mkEnv (fun _ addr _ _ =>
           if addr =? 8 then Some (on_wire (frame_10 1 78 32))
           else Some (on_wire (frame_10 1 77 88)))
        (fun _ _ _ _ => true) clock_s clock_ms.
Definition start : RHInterface :=
  fresh_interface [fresh_node 0 8 10 0; fresh_node 1 10 10 0].
End S5.

Module S6.
(** Scenario S6: a node that echoes 65535. *)
Definition env : Env :=
  mkEnv (fun _ _ _ _ => Some (on_wire [255; 255]))
        (fun _ _ _ _ => true) clock_s clock_ms.
Definition start : RHInterface := fresh_interface [fresh_node 0 8 17 0].
End S6.

Module S7.
(** A node of API level 17 and a node of API level 7, the bus down. *)
Definition env : Env :=
  mkEnv (fun _ _ _ _ => None) (fun _ _ _ _ => true) clock_s clock_ms.
Definition level_17 : RHInterface := fresh_interface [fresh_node 0 8 17 0].
Definition level_7 : RHInterface := fresh_interface [fresh_node 0 8 7 0].
End S7.

Module S12.
(** A node seen for the first time, with [last_lap_id = -1], at API level
    10 and at API level 13.  Either frame carries the lap id 1 and an RSSI
    of 100. *)
Definition env_10 : Env :=
  mkEnv (fun _ _ _ _ => Some (on_wire (frame_10 1 78 32)))
        (fun _ _ _ _ => true) clock_s clock_ms.
Definition env_13 : Env :=
  mkEnv (fun _ _ _ _ => Some (on_wire (frame_13 1 100)))
        (fun _ _ _ _ => true) clock_s clock_ms.
Definition level_10 : RHInterface := fresh_interface [fresh_node 0 8 10 (-1)].
Definition level_13 : RHInterface := fresh_interface [fresh_node 0 8 13 (-1)].
End S12.

Module S13.
(** A node that echoes 4294967295 on four bytes. *)
Definition env : Env :=
  mkEnv (fun _ _ _ _ => Some (on_wire [255; 255; 255; 255]))
        (fun _ _ _ _ => true) clock_s clock_ms.
Definition start : RHInterface := fresh_interface [fresh_node 0 8 17 0].
End S13.

(** The size column of the LapStats layout table of the specification. *)
Definition layout_table_size (api : Z) : Z :=
  if 18 <=? api then 19
  else if 13 <=? api then 20
  else if 10 <=? api then 18
  else 17.

Module S8.
(** A node that is switched off: its frequency is 0. *)
Definition off : Node :=
  mkNode 0 8 0 18 true 0 0 0 0 0 false 0 (-1)
    (Some 0) (Some 0) false 0 0 0 false 0 0 0 [] [].
Definition start : RHInterface := fresh_interface [off; off].
End S8.

Module S9.
(** A node that is switched off, then a node of API level 13 whose frame
    carries an RSSI of 100. *)
Definition start : RHInterface := fresh_interface [S8.off; fresh_node 1 10 13 0].
End S9.

Module S10.
(** A bus that is down, after an earlier read that succeeded. *)
Definition start : RHInterface :=
  with_i2c_response (Some (clock_s 2))
    (fresh_interface [fresh_node 0 8 17 0; S8.off; fresh_node 2 12 7 0]).
End S10.

Module S11.
(** A node of API level 18 that is capturing its exit-at level, with the
    deadline reached and the samples 100 and 110. *)
Definition exiting : Node :=
  with_current_rssi 110
    (with_cap_exit_at_count 1
       (with_cap_exit_at_total 100
          (with_cap_exit_at_flag true (fresh_node 0 8 18 0)))).
(** A node that has just started to capture its enter-at level. *)
Definition entering : Node :=
  with_current_rssi 100 (with_cap_enter_at_millis 3000 S4.capturing).
End S11.

(** * Reasoning about computations *)

(** ** What a computation leaves alone *)

Section Steps.

Context (R : relation RHInterface) `{!PreOrder R}.

Lemma steps_ret {A} (a : A) : steps R (ret a).
Proof. intros s. reflexivity. Qed.

Lemma steps_raise {A} e : steps R (raise (A := A) e).
Proof. intros s. reflexivity. Qed.

Lemma steps_lift {A} (r : Result A) : steps R (lift r).
Proof. intros s. reflexivity. Qed.

Lemma steps_gets {A} (f : RHInterface -> A) : steps R (gets f).
Proof. intros s. reflexivity. Qed.

Lemma steps_node_get {A} i (f : Node -> A) : steps R (node_get i f).
Proof. intros s. unfold node_get. destruct (nodes s !! i); reflexivity. Qed.

Lemma steps_as_number {A} (v : option A) : steps R (as_number v).
Proof. destruct v; intros s; reflexivity. Qed.

Lemma steps_bound {A} (v : option A) : steps R (bound v).
Proof. destruct v; intros s; reflexivity. Qed.

Lemma at_bind {A B} (m : IO A) (k : A -> IO B) s :
  R s (m s).2 -> (forall a, steps R (k a)) -> R s (bind m k s).2.
Proof.
  intros Hm Hk. unfold bind. destruct (m s) as [[a|e] s'] eqn:E; simpl in *.
  - transitivity s'; [exact Hm | apply Hk].
  - exact Hm.
Qed.

Lemma steps_bind {A B} (m : IO A) (k : A -> IO B) :
  steps R m -> (forall a, steps R (k a)) -> steps R (bind m k).
Proof. intros Hm Hk s. apply at_bind; auto. Qed.

(** Reading an attribute tells what the node is at that point. *)
Lemma at_node_get {A B} i (f : Node -> A) (k : A -> IO B) s :
  (forall n, nodes s !! i = Some n -> R s (k (f n) s).2) ->
  R s (bind (node_get i f) k s).2.
Proof.
  intros H. unfold bind, node_get. destruct (nodes s !! i) as [n|] eqn:E.
  - apply H. reflexivity.
  - reflexivity.
Qed.

Lemma at_lift {A B} (r : Result A) (k : A -> IO B) s :
  (forall a, R s (k a s).2) -> R s (bind (lift r) k s).2.
Proof. intros H. unfold bind, lift. destruct r; [apply H | reflexivity]. Qed.

End Steps.

(** ** Frames *)

#[export] Instance frame_preorder N E `{!PreOrder N} : PreOrder (frame N E).
Proof.
  split.
  - intros s. split; try reflexivity. exists []. rewrite app_nil_r. auto.
  - intros s1 s2 s3 [a1 b1 c1 d1 n1 (e1 & t1 & f1)] [a2 b2 c2 d2 n2 (e2 & t2 & f2)].
    split; try congruence.
    + etransitivity; eassumption.
    + exists (e1 ++ e2). rewrite t2, t1, app_assoc. split; [done|]. by apply Forall_app.
Qed.

Lemma frame_mono (N N' : relation Node) (E E' : Event -> Prop) s s' :
  (forall n n', N n n' -> N' n n') -> (forall e, E e -> E' e) ->
  frame N E s s' -> frame N' E' s s'.
Proof.
  intros HN HE []. split; auto.
  - eapply Forall2_impl; eauto.
  - destruct frame_trace0 as (evs & ? & ?). exists evs. split; [done|].
    eapply Forall_impl; eauto.
Qed.

Lemma steps_mono (N N' : relation Node) (E E' : Event -> Prop) {A} (m : IO A) :
  (forall n n', N n n' -> N' n n') -> (forall e, E e -> E' e) ->
  steps (frame N E) m -> steps (frame N' E') m.
Proof. intros HN HE H s. eapply frame_mono; eauto. Qed.

Section Frames.

Context (N : relation Node) (E : Event -> Prop) `{!PreOrder N}.

Lemma frame_tick : steps (frame N E) tick.
Proof. intros s. split; simpl; try reflexivity. exists []. by rewrite app_nil_r. Qed.

Lemma frame_i2c_request v : steps (frame N E) (modify (with_i2c_request v)).
Proof. intros s. split; simpl; try reflexivity. exists []. by rewrite app_nil_r. Qed.

Lemma frame_i2c_response v : steps (frame N E) (modify (with_i2c_response v)).
Proof. intros s. split; simpl; try reflexivity. exists []. by rewrite app_nil_r. Qed.

Lemma frame_i2c_timestamp v : steps (frame N E) (modify (with_i2c_timestamp v)).
Proof. intros s. split; simpl; try reflexivity. exists []. by rewrite app_nil_r. Qed.

Lemma frame_emit e : E e -> steps (frame N E) (emit e).
Proof. intros He s. split; simpl; try reflexivity. exists [e]. auto. Qed.

Lemma frame_alter f i s n :
  nodes s !! i = Some n -> N n (f n) ->
  frame N E s (with_nodes (alter f i (nodes s)) s).
Proof.
  intros Hn Hf. split; simpl; try reflexivity.
  - apply Forall2_alter_r; [reflexivity|].
    intros x y Hx Hy _. rewrite Hn in Hx, Hy. by simplify_eq.
  - exists []. by rewrite app_nil_r.
Qed.

Lemma frame_node_set i f : (forall n, N n (f n)) -> steps (frame N E) (node_set i f).
Proof.
  intros Hf s. split; simpl; try reflexivity.
  - apply Forall2_alter_r; [reflexivity|].
    intros x y Hx Hy _. rewrite Hx in Hy. simplify_eq. apply Hf.
  - exists []. by rewrite app_nil_r.
Qed.

End Frames.

Create HintDb frames.

Ltac steps_core :=
  first
    [ match goal with |- PreOrder _ => apply _ end
    | solve [auto with frames]
    | simple apply steps_ret | simple apply steps_raise | simple apply steps_lift
    | simple apply steps_gets | simple apply steps_node_get
    | simple apply steps_as_number | simple apply steps_bound
    | simple apply frame_tick | simple apply frame_i2c_request
    | simple apply frame_i2c_response | simple apply frame_i2c_timestamp
    | simple apply frame_emit; [ .. | exact I ]
    | simple apply steps_bind; [ .. | intros ? ]
    | match goal with |- steps _ (if ?b then _ else _) => destruct b end
    | match goal with |- steps _ (match ?x with _ => _ end) => destruct x end ].

Ltac steps := repeat steps_core.

Section BusFrames.

Variable env : Env.
Context (N : relation Node) (E : Event -> Prop) `{!PreOrder N}.
Hypothesis bus_events : forall e, bus_event e -> E e.

Lemma call_monotonic_frame : steps (frame N E) (call_monotonic env).
Proof. unfold call_monotonic. steps. Qed.

Lemma call_milliseconds_frame : steps (frame N E) (call_milliseconds env).
Proof. unfold call_milliseconds. steps. Qed.

Lemma bus_read_frame addr cmd len : steps (frame N E) (bus_read env addr cmd len).
Proof. unfold bus_read. steps. apply frame_emit; [apply _ | by apply bus_events]. Qed.

Lemma bus_write_frame addr cmd data : steps (frame N E) (bus_write env addr cmd data).
Proof. unfold bus_write. steps. apply frame_emit; [apply _ | by apply bus_events]. Qed.

Lemma log_frame msg : steps (frame N E) (log msg).
Proof. unfold log. steps. apply frame_emit; [apply _ | by apply bus_events]. Qed.

Hint Resolve call_monotonic_frame call_milliseconds_frame bus_read_frame
  bus_write_frame log_frame : frames.

Lemma i2c_sleep_frame : steps (frame N E) (i2c_sleep env).
Proof. unfold i2c_sleep. steps. Qed.

Lemma read_retry_log_frame c addr offset size retry :
  steps (frame N E) (read_retry_log c addr offset size retry).
Proof. unfold read_retry_log. steps. Qed.

Hint Resolve i2c_sleep_frame read_retry_log_frame : frames.

Lemma read_block_loop_frame remaining addr offset size data :
  steps (frame N E) (read_block_loop env remaining addr offset size data).
Proof.
  revert data. induction remaining as [|remaining IH]; intros data; simpl; steps.
Qed.

Lemma read_block_frame addr offset size :
  steps (frame N E) (read_block env addr offset size).
Proof. apply read_block_loop_frame. Qed.

Lemma write_block_loop_frame remaining addr offset data :
  steps (frame N E) (write_block_loop env remaining addr offset data).
Proof. induction remaining as [|remaining IH]; simpl; steps. Qed.

Lemma write_block_frame addr offset data :
  steps (frame N E) (write_block env addr offset data).
Proof. apply write_block_loop_frame. Qed.

Hint Resolve read_block_frame write_block_frame : frames.

Lemma get_value_8_frame node command : steps (frame N E) (get_value_8 env node command).
Proof. unfold get_value_8. steps. Qed.

Lemma get_value_16_frame node command : steps (frame N E) (get_value_16 env node command).
Proof. unfold get_value_16. steps. Qed.

Lemma get_value_32_frame node command : steps (frame N E) (get_value_32 env node command).
Proof. unfold get_value_32. steps. Qed.

Hint Resolve get_value_8_frame get_value_16_frame get_value_32_frame : frames.

Lemma set_and_validate_loop_frame pack get_value same remaining node wc rc v out :
  (forall node command, steps (frame N E) (get_value node command)) ->
  steps (frame N E)
    (set_and_validate_loop env pack get_value same remaining node wc rc v out).
Proof.
  intros Hget. revert out.
  induction remaining as [|remaining IH]; intros out; simpl; steps.
Qed.

Lemma set_and_validate_value_rssi_frame node wc rc v :
  steps (frame N E) (set_and_validate_value_rssi env node wc rc v).
Proof.
  unfold set_and_validate_value_rssi, set_and_validate_value_8,
    set_and_validate_value_16, set_and_validate_value_8_loop,
    set_and_validate_value_16_loop.
  steps; apply set_and_validate_loop_frame; auto with frames.
Qed.

Lemma transmit_enter_at_level_frame node level :
  steps (frame N E) (transmit_enter_at_level env node level).
Proof. apply set_and_validate_value_rssi_frame. Qed.

Lemma transmit_exit_at_level_frame node level :
  steps (frame N E) (transmit_exit_at_level env node level).
Proof. apply set_and_validate_value_rssi_frame. Qed.

End BusFrames.

(** ** The polling phase *)

#[export] Instance stable_preorder : PreOrder stable.
Proof.
  split.
  - intros n. by split.
  - intros n1 n2 n3 [] []. split; try congruence.
    intros H. rewrite stable_lap_ms_since_start1, stable_lap_ms_since_start0; [done..|].
    by rewrite stable_api_level0.
Qed.

Lemma quiet_bus_event e : bus_event e -> quiet_event e.
Proof. by destruct e. Qed.

#[export] Hint Resolve quiet_bus_event : frames.

Ltac stable_tac := intros; split; simpl; intros; reflexivity.

Ltac poll_steps :=
  repeat first
    [ steps_core
    | simple apply frame_node_set; [ .. | solve [stable_tac] ] ].

Section PollFrames.

Variable env : Env.

Lemma call_milliseconds_poll : steps poll_frame (call_milliseconds env).
Proof. apply call_milliseconds_frame. apply _. Qed.

Lemma log_poll msg : steps poll_frame (log msg).
Proof. apply log_frame; [apply _ | apply quiet_bus_event]. Qed.

Lemma read_block_poll addr offset size :
  steps poll_frame (read_block env addr offset size).
Proof. apply read_block_frame; [apply _ | apply quiet_bus_event]. Qed.

Lemma transmit_enter_at_level_poll node level :
  steps poll_frame (transmit_enter_at_level env node level).
Proof. apply transmit_enter_at_level_frame; [apply _ | apply quiet_bus_event]. Qed.

Lemma transmit_exit_at_level_poll node level :
  steps poll_frame (transmit_exit_at_level env node level).
Proof. apply transmit_exit_at_level_frame; [apply _ | apply quiet_bus_event]. Qed.

Hint Resolve call_milliseconds_poll log_poll read_block_poll
  transmit_enter_at_level_poll transmit_exit_at_level_poll : frames.

Lemma unpack_rssi_poll node data : steps poll_frame (unpack_rssi node data).
Proof. unfold unpack_rssi. poll_steps. Qed.

Hint Resolve unpack_rssi_poll : frames.

Lemma measure_readtime_poll l : steps poll_frame (measure_readtime l).
Proof. unfold measure_readtime. poll_steps. Qed.

Hint Resolve measure_readtime_poll : frames.

Lemma read_lap_stats_poll node l : steps poll_frame (read_lap_stats env node l).
Proof. unfold read_lap_stats. poll_steps. Qed.

(** The one assignment to [lap_ms_since_start] sits under the test
    [api_level >= 18] of the node itself, on the other branch. *)
Lemma decode_valid_poll node data o l : steps poll_frame (decode_valid node data o l).
Proof.
  intros s. unfold decode_valid.
  apply (at_node_get poll_frame). intros n Hn.
  apply (at_bind poll_frame); [|intros; poll_steps].
  destruct (18 <=? api_level n) eqn:Hapi.
  - assert (H : steps poll_frame
      (lap_differential <- lift (unpack_16 (drop 1 data));;
       oneway <- bound (server_oneway l);;
       ret (inject_Z lap_differential + oneway)%Q)) by poll_steps.
    apply H.
  - apply (at_lift poll_frame). intros ms_val.
    apply (at_bind poll_frame); [|intros; poll_steps].
    apply frame_alter with (n := n); [apply _|done|].
    split; simpl; try reflexivity. lia.
Qed.

Lemma decode_legacy_poll node data : steps poll_frame (decode_legacy node data).
Proof. unfold decode_legacy. poll_steps. Qed.

Lemma py_div_poll a b : steps poll_frame (py_div a b).
Proof. unfold py_div. poll_steps. Qed.

Hint Resolve decode_valid_poll decode_legacy_poll py_div_poll : frames.

Lemma capture_enter_at_poll node : steps poll_frame (capture_enter_at env node).
Proof. unfold capture_enter_at. poll_steps. Qed.

Lemma capture_exit_at_poll node : steps poll_frame (capture_exit_at env node).
Proof. unfold capture_exit_at. poll_steps. Qed.

Lemma history_append_poll node l rssi ms_ago :
  steps poll_frame (history_append node l rssi ms_ago).
Proof. unfold history_append. poll_steps. Qed.

Hint Resolve history_append_poll : frames.

Lemma history_peak_poll node l a b c : steps poll_frame (history_peak node l a b c).
Proof. unfold history_peak. poll_steps. Qed.

Hint Resolve history_peak_poll capture_enter_at_poll capture_exit_at_poll : frames.

Lemma process_history_poll node data o l :
  steps poll_frame (process_history node data o l).
Proof. unfold process_history. poll_steps. Qed.

Hint Resolve process_history_poll : frames.

Lemma accept_sample_poll node data lap_id rssi_val o l :
  steps poll_frame (accept_sample env node data lap_id rssi_val o l).
Proof. unfold accept_sample. poll_steps. Qed.

Hint Resolve accept_sample_poll read_lap_stats_poll : frames.

Lemma process_frame_poll node data l : steps poll_frame (process_frame env node data l).
Proof. unfold process_frame. poll_steps. Qed.

Hint Resolve process_frame_poll : frames.

Lemma poll_node_poll node l : steps poll_frame (poll_node env node l).
Proof. unfold poll_node. poll_steps. Qed.

Hint Resolve poll_node_poll : frames.

Lemma poll_nodes_poll positions l : steps poll_frame (poll_nodes env positions l).
Proof. revert l. induction positions as [|i positions IH]; intros l; simpl; poll_steps. Qed.

End PollFrames.

#[export] Hint Resolve call_milliseconds_poll log_poll read_block_poll
  transmit_enter_at_level_poll transmit_exit_at_level_poll unpack_rssi_poll
  measure_readtime_poll read_lap_stats_poll decode_valid_poll decode_legacy_poll
  py_div_poll capture_enter_at_poll capture_exit_at_poll history_append_poll
  history_peak_poll process_history_poll accept_sample_poll process_frame_poll
  poll_node_poll poll_nodes_poll : frames.

(** ** What the polling phase returns *)

#[export] Instance any_node_preorder : PreOrder any_node.
Proof. by split. Qed.

Lemma poll_any {A} (m : IO A) : steps poll_frame m -> steps any_frame m.
Proof. by apply steps_mono. Qed.

Ltac any_steps :=
  repeat first
    [ apply poll_any; solve [poll_steps]
    | steps_core
    | simple apply frame_node_set; [ .. | done ]
    | simple apply frame_emit; [ .. | done ] ].

Section Returns.

Variable c : bool.

Lemma returns_ret {A} (a : A) (Q : A -> Prop) : Q a -> returns c (ret a) Q.
Proof. intros H s a' s' _ [= <- _]. exact H. Qed.

Lemma returns_any {A} (m : IO A) : returns c m (fun _ => True).
Proof. by intros s a s' _ _. Qed.

Lemma returns_gets_callback :
  returns c (gets node_crossing_callback) (fun v => v = c).
Proof. intros s a s' Hc [= <- _]. exact Hc. Qed.

Lemma returns_bind {A B} (m : IO A) (k : A -> IO B) (P : A -> Prop) (Q : B -> Prop) :
  returns c m P -> steps any_frame m -> (forall a, P a -> returns c (k a) Q) ->
  returns c (bind m k) Q.
Proof.
  intros Hm Hf Hk s b s' Hc. unfold bind.
  destruct (m s) as [[a|e] s1] eqn:E; [|done].
  intros Hb. eapply Hk; [eapply Hm; eauto| |exact Hb].
  specialize (Hf s). rewrite E in Hf. simpl in Hf.
  by rewrite (frame_node_crossing _ _ _ _ Hf).
Qed.

Lemma returns_weaken {A} (m : IO A) (P Q : A -> Prop) :
  returns c m P -> (forall a, P a -> Q a) -> returns c m Q.
Proof. intros H HPQ s a s' Hc E. eauto. Qed.

End Returns.

(** A step whose value does not matter. *)
Ltac skip_step :=
  eapply returns_bind with (P := fun _ => True);
  [ apply returns_any | any_steps | intros ? _ ].

Lemma same_lists_grows c node l l' : same_lists l l' -> grows c node l l'.
Proof. intros [? ?]. split; auto. Qed.

Lemma same_lists_crossed c node l l' : same_lists l l' -> crossed c node l l'.
Proof. intros [? ?]. split; auto. Qed.

Section PollReturns.

Variable env : Env.
Variable c : bool.

Lemma measure_readtime_returns l : returns c (measure_readtime l) (same_lists l).
Proof.
  unfold measure_readtime. repeat skip_step. apply returns_ret. by split.
Qed.

Lemma read_lap_stats_returns node l :
  returns c (read_lap_stats env node l) (fun r => same_lists l r.2).
Proof.
  unfold read_lap_stats. do 3 skip_step.
  repeat match goal with |- returns _ (if ?b then _ else _) _ => destruct b end;
    skip_step;
    try (eapply returns_bind;
         [apply measure_readtime_returns | any_steps | intros ? ?]);
    apply returns_ret; done.
Qed.

Lemma decode_valid_returns node data o l :
  returns c (decode_valid node data o l) (fun r => crossed c node l r.2).
Proof.
  unfold decode_valid. do 10 skip_step.
  eapply returns_bind with
    (P := fun l' => crossed c node l l').
  - match goal with |- returns _ (if ?b then _ else _) _ => destruct b end.
    + skip_step. eapply returns_bind; [apply returns_gets_callback|any_steps|].
      intros cb ->. apply returns_ret. destruct c; split; simpl; auto.
    + apply returns_ret. by split; [|left].
  - any_steps.
  - intros l' Hl'. do 3 skip_step. by apply returns_ret.
Qed.

Lemma accept_sample_returns node data lap_id rssi_val o l :
  returns c (accept_sample env node data lap_id rssi_val o l) (grows c node l).
Proof.
  unfold accept_sample. do 2 skip_step.
  eapply returns_bind with (P := fun r => crossed c node l r.2).
  - match goal with |- returns _ (if ?b then _ else _) _ => destruct b end.
    + apply decode_valid_returns.
    + skip_step. apply returns_ret. by split; [|left].
  - any_steps.
  - intros r [Hu Hc]. do 4 skip_step. apply returns_ret.
    destruct (negb _); split; simpl; rewrite ?Hu; eauto.
Qed.

Lemma process_frame_returns node data l :
  returns c (process_frame env node data l) (grows c node l).
Proof.
  unfold process_frame. do 3 skip_step.
  match goal with |- returns _ (if ?b then _ else _) _ => destruct b end.
  - eapply returns_weaken; [apply accept_sample_returns|].
    intros l'. unfold grows. by destruct (18 <=? _).
  - do 2 skip_step. apply returns_ret. apply same_lists_grows.
    by destruct (18 <=? _).
Qed.

Lemma poll_node_returns node l : returns c (poll_node env node l) (grows c node l).
Proof.
  unfold poll_node. skip_step.
  match goal with |- returns _ (if ?b then _ else _) _ => destruct b end.
  - apply returns_ret. by apply same_lists_grows.
  - eapply returns_bind; [apply read_lap_stats_returns | any_steps |].
    intros [[data|] l1] [Hu Hc]; simpl in *.
    + eapply returns_weaken; [apply process_frame_returns|].
      intros l'. unfold grows. by rewrite Hu, Hc.
    + apply returns_ret. by apply same_lists_grows.
Qed.

(** After the loop the nodes of [upd_list] are some of the nodes
    visited, in the order of the visit, and [cross_list] is empty unless
    the crossing subscriber is callable. *)
Lemma poll_nodes_returns positions l :
  returns c (poll_nodes env positions l) (fun l' =>
    (exists added, upd_list l' = upd_list l ++ added /\
                   sublist (map node_of added) positions) /\
    (c = false -> cross_list l = [] -> cross_list l' = [])).
Proof.
  revert l. induction positions as [|node positions IH]; intros l; simpl.
  - apply returns_ret. split; [|done]. exists []. by rewrite app_nil_r.
  - eapply returns_bind; [apply poll_node_returns | any_steps |].
    intros l1 [Hu Hc]. eapply returns_weaken; [apply IH|].
    intros l' [(added & Hl' & Hsub) Hcross]. split.
    + destruct Hu as [Hu|(lap_id & t & Hu)]; rewrite Hu in Hl'.
      * exists added. split; [done|]. by apply sublist_cons.
      * exists ((node, lap_id, t) :: added). rewrite <- app_assoc in Hl'.
        split; [done|]. simpl. by apply sublist_skip.
    + intros -> Hl. apply Hcross; [done|].
      destruct Hc as [Hc|[? _]]; [|done]. by rewrite Hc.
Qed.

End PollReturns.

(** The polling phase as a whole. *)
Lemma poll_phase_spec env s l s1 :
  poll_phase env s = (Ok l, s1) ->
  poll_frame s s1 /\
  NoDup (map node_of (upd_list l)) /\
  Forall (fun item => is_Some (nodes s1 !! node_of item)) (upd_list l) /\
  (cross_list l <> [] -> node_crossing_callback s1 = true).
Proof.
  intros Hrun.
  assert (Hframe : poll_frame s s1).
  { assert (H : steps poll_frame (poll_phase env)) by (unfold poll_phase; poll_steps).
    specialize (H s). by rewrite Hrun in H. }
  split; [done|].
  unfold poll_phase, bind, gets in Hrun.
  pose proof (poll_nodes_returns env (node_crossing_callback s) _ _ _ _ _ eq_refl Hrun)
    as [(added & Hadded & Hsub) Hcross].
  simpl in Hadded. subst added.
  split; [|split].
  - eapply sublist_NoDup; [|exact Hsub]. apply NoDup_ListNoDup, List.seq_NoDup.
  - apply Forall_forall. intros item Hitem. apply lookup_lt_is_Some.
    rewrite <- (Forall2_length _ _ _ (frame_nodes _ _ _ _ Hframe)).
    assert (Hin : node_of item ∈ seq 0 (length (nodes s))).
    { eapply elem_of_sublist; [|exact Hsub].
      apply (list_elem_of_fmap_2 node_of), Hitem. }
    apply list_elem_of_In, in_seq in Hin. lia.
  - intros Hne. rewrite (frame_node_crossing _ _ _ _ Hframe).
    destruct (node_crossing_callback s); [done|]. by destruct Hne; apply Hcross.
Qed.

(** ** The end of the cycle *)

Lemma process_lap_spec item s :
  is_Some (nodes s !! node_of item) ->
  exists s', process_lap item s = (Ok tt, s') /\
    pass_record_callback s' = pass_record_callback s /\
    trace s' = trace s ++ pass_event s item /\
    nodes s' = alter (with_last_lap_id item.1.2) (node_of item) (nodes s).
Proof.
  intros [n Hn]. unfold process_lap, pass_event, bind, node_get, gets.
  fold (node_of item). rewrite Hn.
  destruct (negb (last_lap_id n =? -1) && pass_record_callback s); simpl.
  - eexists. split; [reflexivity|]. simpl. auto.
  - eexists. split; [reflexivity|]. simpl. by rewrite app_nil_r.
Qed.

Lemma process_laps_spec items : forall s,
  NoDup (node_of <$> items) ->
  Forall (fun item => is_Some (nodes s !! node_of item)) items ->
  exists s', process_laps items s = (Ok tt, s') /\ laps_done s items s'.
Proof.
  induction items as [|item items IH]; intros s Hnodup Hvalid; cbn [process_laps].
  - exists s. split; [done|]. split; simpl; rewrite ?app_nil_r; try done.
    intros item H. by apply elem_of_nil in H.
  - rewrite fmap_cons in Hnodup. apply NoDup_cons in Hnodup as [Hnotin Hnodup].
    apply Forall_cons in Hvalid as [Hitem Hvalid].
    destruct (process_lap_spec item s Hitem) as (s1 & Hrun & Hcb & Htrace & Hnodes).
    assert (Hsame : forall j, j <> node_of item -> nodes s1 !! j = nodes s !! j).
    { intros j Hj. rewrite Hnodes. by apply list_lookup_alter_ne. }
    assert (Hin : forall other, other ∈ items -> node_of other <> node_of item).
    { intros other Hother Heq. apply Hnotin. rewrite <- Heq.
      by apply (list_elem_of_fmap_2 node_of). }
    destruct (IH s1 Hnodup) as (s' & Hrest & Hdone).
    { eapply Forall_impl; [exact Hvalid|]. intros other Hother.
      apply lookup_lt_is_Some. rewrite Hnodes, length_alter.
      by apply lookup_lt_is_Some. }
    exists s'. split.
    + unfold bind. by rewrite Hrun.
    + destruct Hdone as [Hp Ht Hl Ho Hi]. split.
      * congruence.
      * rewrite Ht, Htrace, <- app_assoc, fmap_cons. cbn [concat]. do 3 f_equal.
        apply list_fmap_ext. intros k other Hother%list_elem_of_lookup_2.
        unfold pass_event. by rewrite Hcb, Hsame; [|apply Hin].
      * by rewrite Hl, Hnodes, length_alter.
      * intros j Hj. rewrite fmap_cons in Hj. apply not_elem_of_cons in Hj as [Hj1 Hj2].
        rewrite Ho; auto.
      * intros other Hother. apply elem_of_cons in Hother as [->|Hother].
        -- rewrite Ho; [|done]. by rewrite Hnodes, list_lookup_alter_eq.
        -- rewrite Hi; [|done]. by rewrite Hsame; [|apply Hin].
Qed.

(** *** The sort *)

Lemma insert_by_key_perm {A} (x : Z * A) xs : insert_by_key x xs ≡ₚ x :: xs.
Proof.
  induction xs as [|y ys IH]; simpl; [done|].
  destruct (x.1 <=? y.1); [done|]. by rewrite IH, Permutation_swap.
Qed.

Lemma sort_by_key_perm {A} (xs : list (Z * A)) : sort_by_key xs ≡ₚ xs.
Proof.
  induction xs as [|x xs IH]; simpl; [done|].
  by rewrite insert_by_key_perm, IH.
Qed.

Lemma insert_by_key_sorted {A} (x : Z * A) xs :
  StronglySorted key_le xs -> StronglySorted key_le (insert_by_key x xs).
Proof.
  induction 1 as [|y ys Hsorted IH Hall]; simpl.
  - by repeat constructor.
  - destruct (x.1 <=? y.1) eqn:Hle.
    + apply Z.leb_le in Hle. constructor; [by constructor|].
      constructor; [done|]. eapply Forall_impl; [exact Hall|].
      unfold key_le. intros z Hz. lia.
    + apply Z.leb_gt in Hle. constructor; [done|].
      rewrite insert_by_key_perm. constructor; [|done]. unfold key_le. lia.
Qed.

Lemma sort_by_key_sorted {A} (xs : list (Z * A)) :
  StronglySorted key_le (sort_by_key xs).
Proof.
  induction xs as [|x xs IH]; simpl; [constructor|].
  by apply insert_by_key_sorted.
Qed.

Lemma sorted_keys_items {A} (key : A -> Z) (xs : list (Z * A)) :
  StronglySorted key_le xs -> Forall (fun x => x.1 = key x.2) xs ->
  StronglySorted (fun a b => key a <= key b) xs.*2.
Proof.
  induction 1 as [|x xs Hsorted IH Hall]; intros Hkeys; simpl; [constructor|].
  apply Forall_cons in Hkeys as [Hx Hxs]. constructor; [by apply IH|].
  apply Forall_fmap. eapply Forall_impl; [apply Forall_and; split; [exact Hall|exact Hxs]|].
  unfold key_le. simpl. intros y [Hle Hy]. by rewrite <- Hx, <- Hy.
Qed.

(** The items come out of the sort in ascending order of the keys they
    went in with. *)
Lemma sort_by_key_items {A} (key : A -> Z) (items : list A) :
  let sorted := (sort_by_key ((fun item => (key item, item)) <$> items)).*2 in
  sorted ≡ₚ items /\ StronglySorted (fun a b => key a <= key b) sorted.
Proof.
  simpl. set (keyed := (fun item => (key item, item)) <$> items).
  assert (Hperm : sort_by_key keyed ≡ₚ keyed) by apply sort_by_key_perm.
  split.
  - rewrite Hperm. unfold keyed. rewrite <- list_fmap_compose.
    change (id <$> items ≡ₚ items). by rewrite list_fmap_id.
  - apply sorted_keys_items; [apply sort_by_key_sorted|].
    rewrite Hperm. unfold keyed. apply Forall_fmap. by apply Forall_true.
Qed.

(** *** The callbacks *)

Lemma lap_keys_spec items s :
  Forall (fun item => is_Some (nodes s !! node_of item)) items ->
  lap_keys items s =
    (Ok ((fun item => (lap_key s (node_of item), item)) <$> items), s).
Proof.
  induction 1 as [|item items [n Hn] Hitems IH]; [done|].
  cbn [lap_keys]. unfold bind, node_get. fold (node_of item).
  rewrite Hn, IH, fmap_cons. unfold ret, lap_key at 2. by rewrite Hn.
Qed.

Lemma crossing_callbacks_spec cross : forall s,
  (cross <> [] -> node_crossing_callback s = true) ->
  exists s', crossing_callbacks cross s = (Ok tt, s') /\ crossings_done s cross s'.
Proof.
  induction cross as [|node cross IH]; intros s Hc; cbn [crossing_callbacks].
  - exists s. split; [done|]. split; simpl; by rewrite ?app_nil_r.
  - unfold bind at 1, gets. rewrite Hc by done. unfold bind at 1, emit, modify.
    set (s1 := with_trace (trace s ++ [NodeCrossing node]) s).
    destruct (IH s1) as (s' & Hrun & [Hp Hn Ht]); [by rewrite <- Hc|].
    exists s'. split; [done|]. split; [done..|].
    rewrite Ht. simpl. by rewrite <- app_assoc.
Qed.

(** The branch of [lap_callbacks] that sorts. *)
Lemma sorted_laps_spec upd s :
  NoDup (node_of <$> upd) ->
  Forall (fun item => is_Some (nodes s !! node_of item)) upd ->
  exists items s',
    (keyed <- lap_keys upd ;; process_laps (map snd (sort_by_key keyed))) s
      = (Ok tt, s') /\
    items ≡ₚ upd /\
    StronglySorted (fun a b => lap_key s (node_of a) <= lap_key s (node_of b)) items /\
    laps_done s items s'.
Proof.
  intros Hnodup Hvalid.
  pose proof (sort_by_key_items (fun item => lap_key s (node_of item)) upd)
    as [Hperm Hsorted].
  set (items := (sort_by_key _).*2) in *.
  destruct (process_laps_spec items s) as (s' & Hrun & Hdone).
  { by rewrite Hperm. } { by rewrite Hperm. }
  exists items, s'. split; [|done].
  unfold bind. by rewrite (lap_keys_spec upd s Hvalid).
Qed.

(** The laps: the items are processed in ascending order of
    [lap_ms_since_start], on any number of them. *)
Lemma lap_callbacks_spec upd s :
  NoDup (node_of <$> upd) ->
  Forall (fun item => is_Some (nodes s !! node_of item)) upd ->
  exists items s',
    lap_callbacks upd s = (Ok tt, s') /\
    items ≡ₚ upd /\
    StronglySorted (fun a b => lap_key s (node_of a) <= lap_key s (node_of b)) items /\
    laps_done s items s'.
Proof.
  intros Hnodup Hvalid.
  destruct upd as [|item1 [|item2 upd]].
  - destruct (process_laps_spec [] s Hnodup Hvalid) as (s' & [= <-] & Hdone).
    exists [], s. split; [done|]. split; [done|]. split; [constructor|done].
  - destruct (process_laps_spec [item1] s Hnodup Hvalid) as (s' & Hrun & Hdone).
    exists [item1], s'. split; [|split; [done|split; [by repeat constructor|done]]].
    cbn [process_laps] in Hrun. unfold bind in Hrun. cbn [lap_callbacks].
    destruct (process_lap item1 s) as [[[]|e] s1]; [|done]. by injection Hrun as ->.
  - by apply sorted_laps_spec.
Qed.

(** ** A whole cycle *)

Lemma update_cycle env s : cycle env s.
Proof.
  destruct (poll_phase env s) as [[l|e] s1] eqn:Hpoll.
  - destruct (poll_phase_spec env s l s1 Hpoll) as (Hframe & Hnodup & Hvalid & Hcross).
    destruct (crossing_callbacks_spec (cross_list l) s1 Hcross) as (s2 & Hrun2 & Hdone2).
    destruct (lap_callbacks_spec (upd_list l) s2) as (items & s3 & Hrun3 & Hperm & Hsorted & Hdone3).
    { done. } { by rewrite (crossed_nodes _ _ _ Hdone2). }
    eapply cycle_returns; eauto.
    unfold update, dispatch, bind. by rewrite Hpoll, Hrun2.
  - eapply cycle_raises; eauto.
    + unfold update, bind. by rewrite Hpoll.
    + assert (H : steps poll_frame (poll_phase env)) by (unfold poll_phase; poll_steps).
      specialize (H s). by rewrite Hpoll in H.
Qed.

Lemma pass_events_filter s items :
  concat (pass_event s <$> items) = pass_record <$> List.filter (emits s) items.
Proof.
  induction items as [|item items IH]; [done|].
  rewrite fmap_cons. cbn [concat List.filter]. rewrite IH.
  unfold pass_event, emits. destruct (nodes s !! node_of item) as [n|]; [|done].
  by destruct (negb (last_lap_id n =? -1) && pass_record_callback s).
Qed.

Lemma StronglySorted_filter {A} (R : relation A) (f : A -> bool) l :
  StronglySorted R l -> StronglySorted R (List.filter f l).
Proof.
  induction 1 as [|x xs Hsorted IH Hall]; simpl; [constructor|].
  destruct (f x); [|done]. constructor; [done|].
  apply Forall_forall. intros y Hy%list_elem_of_In%filter_In.
  rewrite Forall_forall in Hall. apply Hall, list_elem_of_In, Hy.
Qed.

(** Processing the laps changes [last_lap_id] only. *)
Lemma laps_done_lookup s items s' i n :
  laps_done s items s' -> nodes s !! i = Some n ->
  exists n', nodes s' !! i = Some n' /\
    (n' = n \/ exists item, item ∈ items /\ node_of item = i /\
                            n' = with_last_lap_id item.1.2 n).
Proof.
  intros Hdone Hn. destruct (decide (i ∈ node_of <$> items)) as [Hin|Hout].
  - apply list_elem_of_fmap in Hin as (item & -> & Hitem).
    exists (with_last_lap_id item.1.2 n). split; [|by eauto].
    by rewrite (done_item _ _ _ Hdone item Hitem), Hn.
  - exists n. split; [|by left]. by rewrite (done_other _ _ _ Hdone i Hout).
Qed.

Lemma laps_done_lap_key s items s' i :
  laps_done s items s' -> lap_key s' i = lap_key s i.
Proof.
  intros Hdone. unfold lap_key.
  destruct (nodes s !! i) as [n|] eqn:Hn.
  - destruct (laps_done_lookup s items s' i n Hdone Hn) as (n' & -> & [->|(item & _ & _ & ->)]);
      done.
  - apply lookup_ge_None in Hn. rewrite <- (done_length _ _ _ Hdone) in Hn.
    apply lookup_ge_None in Hn. by rewrite Hn.
Qed.

Lemma poll_frame_lookup s s' i n :
  poll_frame s s' -> nodes s !! i = Some n ->
  exists n', nodes s' !! i = Some n' /\ stable n n'.
Proof.
  intros Hframe Hn.
  by apply (Forall2_lookup_l _ _ _ _ _ (frame_nodes _ _ _ _ Hframe) Hn).
Qed.

(** Claim C10.  For a node whose API level is 18 or more, [update] leaves
    [lap_ms_since_start] as it was, whether the cycle returns or raises; so
    the key that the sort of a cycle with several laps reads for such a node
    is the value from before the cycle, not one from the frames of the
    cycle.  [intf_simulate_lap] does assign the attribute. *)
Theorem lap_ms_since_start_not_polled_at_18 env s i n :
  nodes s !! i = Some n -> 18 <= api_level n ->
  (exists n', nodes (update env s).2 !! i = Some n' /\
              lap_ms_since_start n' = lap_ms_since_start n) /\
  (forall l s1 s2 keyed s3,
     poll_phase env s = (Ok l, s1) ->
     crossing_callbacks (cross_list l) s1 = (Ok tt, s2) ->
     lap_keys (upd_list l) s2 = (Ok keyed, s3) ->
     forall key item, (key, item) ∈ keyed -> node_of item = i ->
       key = lap_ms_since_start n) /\
  (forall ms_val, exists n',
     nodes (intf_simulate_lap i ms_val s).2 !! i = Some n' /\
     lap_ms_since_start n' = ms_val).
Proof.
  intros Hn Hapi. split; [|split].
  - destruct (update_cycle env s) as [e s1 _ -> Hframe|l s1 s2 items s3 _ -> Hframe Hcross _ _ Hdone];
      simpl; destruct (poll_frame_lookup s s1 i n Hframe Hn) as (n1 & Hn1 & Hstable).
    + exists n1. split; [done|]. by apply (stable_lap_ms_since_start _ _ Hstable).
    + rewrite <- (crossed_nodes _ _ _ Hcross) in Hn1.
      destruct (laps_done_lookup s2 items s3 i n1 Hdone Hn1)
        as (n3 & Hn3 & [->|(item & _ & _ & ->)]);
        exists n3 || eexists; (split; [eassumption|]); simpl;
        by apply (stable_lap_ms_since_start _ _ Hstable).
  - intros l s1 s2 keyed s3 Hpoll Hcross Hkeys key item Hin Hitem.
    destruct (poll_phase_spec env s l s1 Hpoll) as (Hframe & _ & Hvalid & Hcb).
    destruct (crossing_callbacks_spec (cross_list l) s1 Hcb) as (s2' & Hrun & Hdone).
    rewrite Hcross in Hrun. injection Hrun as <-.
    rewrite lap_keys_spec in Hkeys by (by rewrite (crossed_nodes _ _ _ Hdone)).
    injection Hkeys as <- <-.
    apply list_elem_of_fmap in Hin as (item' & [= -> ->] & _).
    unfold lap_key. rewrite Hitem, (crossed_nodes _ _ _ Hdone).
    destruct (poll_frame_lookup s s1 i n Hframe Hn) as (n1 & -> & Hstable).
    by apply (stable_lap_ms_since_start _ _ Hstable).
  - intros ms_val. exists (with_lap_ms_since_start ms_val n).
    unfold intf_simulate_lap, bind, node_get, node_set, gets, emit, raise, modify.
    rewrite Hn. simpl. destruct (pass_record_callback s); simpl;
      by rewrite list_lookup_alter_eq, Hn.
Qed.

(** A node whose [last_lap_id] is -1 at the start of a cycle: no event
    that the cycle adds to the trace is a [pass_record_callback] for that
    node, whatever the frames hold and however the cycle ends; and when the
    polling phase has returned with a new lap of the node in [upd_list], the
    cycle ends with [last_lap_id] equal to the lap id of that entry. *)
Lemma first_observation_suppressed env s i n :
  nodes s !! i = Some n -> last_lap_id n = -1 ->
  (forall evs, trace (update env s).2 = trace s ++ evs ->
     forall lap_time_ms lap_source, PassRecord i lap_time_ms lap_source ∉ evs) /\
  (forall l s1 lap_id lap_time_ms,
     poll_phase env s = (Ok l, s1) -> (i, lap_id, lap_time_ms) ∈ upd_list l ->
     exists n', nodes (update env s).2 !! i = Some n' /\ last_lap_id n' = lap_id).
Proof.
  intros Hn Hlast.
  destruct (update_cycle env s)
    as [e s1 Hpoll -> Hframe|l s1 s2 items s3 Hpoll -> Hframe Hcross Hperm _ Hdone];
    simpl; destruct (poll_frame_lookup s s1 i n Hframe Hn) as (n1 & Hn1 & Hstable);
    destruct (frame_trace _ _ _ _ Hframe) as (polled & Htrace & Hquiet).
  - split.
    + intros evs Hevs t src Hin. rewrite Htrace in Hevs.
      apply app_inv_head in Hevs as <-. rewrite Forall_forall in Hquiet.
      by apply Hquiet in Hin.
    + intros l s1' lap_id t Hpoll'. by rewrite Hpoll in Hpoll'.
  - rewrite <- (crossed_nodes _ _ _ Hcross) in Hn1. split.
    + intros evs Hevs t src Hin.
      rewrite (done_trace _ _ _ Hdone), (crossed_trace _ _ _ Hcross), Htrace in Hevs.
      rewrite <- !app_assoc in Hevs. apply app_inv_head in Hevs as <-.
      rewrite !elem_of_app in Hin. destruct Hin as [Hin|[Hin|Hin]].
      * rewrite Forall_forall in Hquiet. by apply Hquiet in Hin.
      * by apply list_elem_of_fmap in Hin as (? & ? & _).
      * rewrite pass_events_filter in Hin.
        apply list_elem_of_fmap in Hin as (item & [= Hitem _ _] & Hin).
        apply list_elem_of_In, filter_In in Hin as [_ Hemits].
        unfold emits in Hemits. rewrite <- Hitem, Hn1 in Hemits.
        rewrite (stable_last_lap_id _ _ Hstable), Hlast in Hemits. done.
    + intros l' s1' lap_id t Hpoll' Hin. rewrite Hpoll in Hpoll'.
      injection Hpoll' as <- <-. rewrite <- Hperm in Hin.
      exists (with_last_lap_id lap_id n1). split; [|done].
      pose proof (done_item _ _ _ Hdone _ Hin) as Hitem.
      unfold node_of in Hitem. simpl in Hitem. by rewrite Hitem, Hn1.
Qed.

(** Claim C8.  The events that a cycle adds to the trace are, in this
    order: those of the polling phase, none of which is a crossing or a
    pass-record callback; the crossing callbacks; the pass-record callbacks.
    The pass-record callbacks come in ascending order of the
    [lap_ms_since_start] of their nodes. *)
Theorem crossings_before_laps_in_order env s :
  exists polled crossings laps,
    trace (update env s).2 =
      trace s ++ polled ++ (NodeCrossing <$> crossings) ++ (pass_record <$> laps) /\
    Forall quiet_event polled /\
    StronglySorted Z.le ((fun item => lap_key (update env s).2 (node_of item)) <$> laps).
Proof.
  destruct (update_cycle env s)
    as [e s1 Hpoll -> Hframe|l s1 s2 items s3 Hpoll -> Hframe Hcross Hperm Hsorted Hdone];
    simpl; destruct (frame_trace _ _ _ _ Hframe) as (polled & Htrace & Hquiet).
  - exists polled, [], []. simpl. rewrite app_nil_r. repeat split; [done..|constructor].
  - exists polled, (cross_list l), (List.filter (emits s2) items). split; [|split; [done|]].
    + rewrite (done_trace _ _ _ Hdone), (crossed_trace _ _ _ Hcross), Htrace.
      by rewrite pass_events_filter, <- !app_assoc.
    + eapply StronglySorted_fmap; [|apply StronglySorted_filter, Hsorted].
      intros a b Hab. simpl in Hab. by rewrite !(laps_done_lap_key _ _ _ _ Hdone).
Qed.

(** ** The bus transactor *)

Ltac run_io :=
  cbv beta iota zeta delta
    [bind i2c_sleep call_monotonic call_milliseconds bus_read bus_write
     read_retry_log log tick gets modify emit ret lift raise];
  simpl.

Section ReadBlock.

Variables (env : Env) (addr offset size : Z).

(** Every attempt ends in an [IOError]: the result is the initial [None]. *)
Lemma read_block_loop_io_errors remaining data s :
  (forall n, read_i2c_block_data env n addr offset (size + 1) = None) ->
  (read_block_loop env remaining addr offset size data s).1 = Ok data.
Proof.
  intros Hbus. revert s. induction remaining as [|remaining IH]; intros s; [done|].
  cbn [read_block_loop]. run_io.
  destruct (i2c_timestamp s =? -1); simpl; rewrite Hbus;
    destruct (hardware_log_callback s); simpl;
    repeat match goal with |- context [if ?b then _ else _] => destruct b; simpl end;
    apply IH.
Qed.

(** Every attempt reads a frame whose checksum is wrong: the result is
    that frame, checksum byte included. *)
Lemma read_block_loop_checksum remaining data d s :
  (forall n, read_i2c_block_data env n addr offset (size + 1) = Some d) ->
  validate_checksum (Some d) = Ok false ->
  remaining <> O ->
  (read_block_loop env remaining addr offset size data s).1 = Ok (Some d).
Proof.
  intros Hbus Hsum Hpos. revert s data Hpos.
  induction remaining as [|remaining IH]; intros s data Hpos; [done|].
  cbn [read_block_loop]. run_io. cbn [validate_checksum] in Hsum.
  destruct (i2c_timestamp s =? -1); simpl; rewrite Hbus; simpl;
    rewrite Hsum; simpl;
    repeat match goal with |- context [if ?b then _ else _] => destruct b; simpl end;
    (destruct remaining; [done|by apply IH]).
Qed.

(** A frame whose checksum is right is returned without its last byte. *)
Lemma read_block_loop_valid remaining data d s :
  (forall n, read_i2c_block_data env n addr offset (size + 1) = Some d) ->
  validate_checksum (Some d) = Ok true ->
  (read_block_loop env (S remaining) addr offset size data s).1 = Ok (Some (init d)).
Proof.
  intros Hbus Hsum. cbn [read_block_loop]. run_io.
  cbn [validate_checksum] in Hsum.
  destruct (i2c_timestamp s =? -1); simpl; rewrite Hbus; simpl; by rewrite Hsum.
Qed.

(** The transactor raises only if the bus answers an empty list. *)
Lemma read_block_loop_returns remaining data s :
  (forall n, read_i2c_block_data env n addr offset (size + 1) <> Some []) ->
  exists r, (read_block_loop env remaining addr offset size data s).1 = Ok r.
Proof.
  intros Hbus. revert s data. induction remaining as [|remaining IH]; intros s data.
  { by exists data. }
  cbn [read_block_loop]. run_io.
  destruct (i2c_timestamp s =? -1); simpl;
    match goal with |- context [read_i2c_block_data env ?n _ _ _] =>
      specialize (Hbus n) as Hn;
      destruct (read_i2c_block_data env n addr offset (size + 1)) as [d|] eqn:Hd
    end; simpl.
  all: try (destruct (last d) as [b|] eqn:Hlast; simpl;
            [|by apply last_None in Hlast; subst d];
            destruct (Z.land _ _ =? b); simpl; [by eexists|]).
  all: repeat match goal with |- context [if ?b then _ else _] => destruct b; simpl end;
    apply IH.
Qed.

End ReadBlock.

Lemma any_bus_event e : bus_event e -> any_event e.
Proof. done. Qed.

(** The first thing [read_block] does on the bus is the read it was asked
    for, one byte longer for the checksum. *)
Lemma read_block_loop_first_event env remaining addr offset size data s :
  exists evs,
    trace (read_block_loop env (S remaining) addr offset size data s).2 =
      trace s ++ BusRead addr offset (size + 1) :: evs.
Proof.
  cbn [read_block_loop]. run_io.
  destruct (i2c_timestamp s =? -1); simpl;
    destruct (read_i2c_block_data env _ addr offset (size + 1)) as [d|]; simpl;
    try (destruct (last d) as [b|]; simpl; [destruct (Z.land _ _ =? b); simpl|]);
    try destruct (hardware_log_callback s); simpl;
    repeat match goal with |- context [if ?b then _ else _] => destruct b; simpl end;
    try (by eexists);
    match goal with
    | |- context [read_block_loop env ?r addr offset size ?data ?s'] =>
        destruct (frame_trace _ _ _ _
          (read_block_loop_frame env any_node any_event any_bus_event
             r addr offset size data s')) as (evs & -> & _)
    end; simpl; rewrite <- ?app_assoc; by eexists.
Qed.

Lemma read_block_first_event env addr offset size s :
  exists evs,
    trace (read_block env addr offset size s).2 =
      trace s ++ BusRead addr offset (size + 1) :: evs.
Proof. apply read_block_loop_first_event. Qed.

Lemma first_event_bind {A B} (m : IO A) (k : A -> IO B) s e :
  (exists evs, trace (m s).2 = trace s ++ e :: evs) ->
  (forall a, steps any_frame (k a)) ->
  exists evs, trace (bind m k s).2 = trace s ++ e :: evs.
Proof.
  intros (evs & Hm) Hk. unfold bind. destruct (m s) as [[a|x] s1]; simpl in *.
  - destruct (frame_trace _ _ _ _ (Hk a s1)) as (evs' & -> & _).
    rewrite Hm, <- app_assoc. by eexists.
  - by eexists.
Qed.

Lemma bind_node_get {A B} i (f : Node -> A) (k : A -> IO B) s n :
  nodes s !! i = Some n -> bind (node_get i f) k s = k (f n) s.
Proof. intros Hn. unfold bind, node_get. by rewrite Hn. Qed.

(** Claim C3, amended.  When a node with a nonzero frequency is polled,
    the first transfer on the bus is the read of [READ_LAP_STATS] at the
    address of the node, of one byte more than a size which is 19 at API
    level 18 and above, 28 at level 17, 20 at levels 13 to 16, 18 at levels
    5 to 12 and 17 below level 5. *)
Theorem lap_stats_read_size env node l s n :
  nodes s !! node = Some n ->
  frequency n <> 0 ->
  api_valid_flag n = (10 <=? api_level n) ->
  exists size evs,
    trace (poll_node env node l s).2 =
      trace s ++ BusRead (i2c_addr n) READ_LAP_STATS (size + 1) :: evs /\
    (18 <= api_level n -> size = 19) /\
    (api_level n = 17 -> size = 28) /\
    (13 <= api_level n <= 16 -> size = 20) /\
    (5 <= api_level n <= 12 -> size = 18) /\
    (api_level n < 5 -> size = 17).
Proof.
  intros Hn Hfreq Hvalid.
  assert (Hread : exists size,
    (exists evs, trace (read_lap_stats env node l s).2 =
       trace s ++ BusRead (i2c_addr n) READ_LAP_STATS (size + 1) :: evs) /\
    (18 <= api_level n -> size = 19) /\
    (api_level n = 17 -> size = 28) /\
    (13 <= api_level n <= 16 -> size = 20) /\
    (5 <= api_level n <= 12 -> size = 18) /\
    (api_level n < 5 -> size = 17)).
  { unfold read_lap_stats. repeat (rewrite (bind_node_get _ _ _ _ _ Hn); cbv beta).
    rewrite Hvalid.
    destruct (10 <=? api_level n) eqn:H10, (5 <=? api_level n) eqn:H5,
      (18 <=? api_level n) eqn:H18, (17 <=? api_level n) eqn:H17,
      (13 <=? api_level n) eqn:H13; simpl; try lia;
      eexists; (split; [apply first_event_bind;
                         [apply read_block_first_event | intros; any_steps]|lia]). }
  destruct Hread as (size & Hevs & Hsize). exists size.
  assert (Hpoll : exists evs, trace (poll_node env node l s).2 =
    trace s ++ BusRead (i2c_addr n) READ_LAP_STATS (size + 1) :: evs).
  { unfold poll_node. rewrite (bind_node_get _ _ _ _ _ Hn).
    destruct (frequency n =? 0) eqn:Hf; [lia|].
    apply first_event_bind; [done|]. intros [[data|] l']; simpl; any_steps. }
  destruct Hpoll as (evs & Hpoll). by exists evs.
Qed.

(** ** The RSSI filter *)

Lemma bind_lift_ok {A B} (a : A) (k : A -> IO B) s : bind (lift (Ok a)) k s = k a s.
Proof. done. Qed.

Lemma log_runs msg s :
  exists s', log msg s = (Ok tt, s') /\ nodes s' = nodes s.
Proof.
  unfold log, bind, gets, emit, modify.
  destruct (hardware_log_callback s); by eexists.
Qed.

Lemma item_of_drop data k v : item (drop k data) 0 = Ok v -> exists b, item data 0 = Ok b.
Proof.
  unfold item. rewrite lookup_drop. destruct data as [|b data]; [|by eexists].
  by rewrite lookup_nil.
Qed.

Lemma read_lap_stats_nodes env node l s :
  nodes (read_lap_stats env node l s).2 = nodes s.
Proof.
  assert (H : steps (frame eq any_event) (read_lap_stats env node l)).
  { unfold read_lap_stats, measure_readtime. steps; apply read_block_frame; by try apply _. }
  symmetry. apply list_eq_Forall2, (frame_nodes _ _ _ _ (H s)).
Qed.

(** Claim C5.  When the frame read for a node carries an RSSI below
    [MIN_RSSI_VALUE] or above [MAX_RSSI_VALUE], the poll of that node
    returns with every node as it was, so with [current_rssi], the history
    and the capture accumulators unchanged, and it adds nothing to
    [upd_list] or [cross_list]. *)
Theorem out_of_range_sample_skipped env node l s n data l1 s1 rssi_val :
  nodes s !! node = Some n ->
  frequency n <> 0 ->
  read_lap_stats env node l s = (Ok (Some data, l1), s1) ->
  (if 18 <=? api_level n then unpack_8 (drop 3 data) else unpack_16 (drop 5 data))
    = Ok rssi_val ->
  rssi_val < MIN_RSSI_VALUE \/ MAX_RSSI_VALUE < rssi_val ->
  exists l' s',
    poll_node env node l s = (Ok l', s') /\
    nodes s' = nodes s /\
    upd_list l' = upd_list l /\
    cross_list l' = cross_list l.
Proof.
  intros Hn Hfreq Hread Hrssi Hrange.
  assert (Hn1 : nodes s1 !! node = Some n).
  { pose proof (read_lap_stats_nodes env node l s) as H. rewrite Hread in H.
    simpl in H. by rewrite H. }
  assert (Hnodes1 : nodes s1 = nodes s).
  { pose proof (read_lap_stats_nodes env node l s) as H. by rewrite Hread in H. }
  assert (Hlists : same_lists l l1).
  { apply (read_lap_stats_returns env (node_crossing_callback s) node l s _ s1 eq_refl Hread). }
  assert (Hlap : exists lap_id, item data 0 = Ok lap_id).
  { destruct (18 <=? api_level n); unfold unpack_8, unpack_16 in Hrssi;
      [|destruct (item (drop 5 data) 0) eqn:E; [|done]]; by eapply item_of_drop. }
  destruct Hlap as (lap_id & Hlap).
  destruct (log_runs (RssiOutOfRange rssi_val (index n + 1)) s1) as (s' & Hlog & Hnodes').
  eexists _, s'. split; [|split; [congruence|]].
  - unfold poll_node. rewrite (bind_node_get _ _ _ _ _ Hn).
    destruct (frequency n =? 0) eqn:Hf; [lia|].
    unfold bind at 1. rewrite Hread. cbn [fst snd].
    unfold process_frame. rewrite Hlap, bind_lift_ok.
    rewrite (bind_node_get _ _ _ _ _ Hn1). cbv beta zeta.
    unfold unpack_rssi at 1. unfold bind at 1.
    rewrite (bind_node_get _ _ _ _ _ Hn1).
    assert (Hunpack :
      (if 18 <=? api_level n
       then lift (unpack_8 (drop (offset_rssi
              (if 18 <=? api_level n then offsets_18 else offsets_below_18)) data))
       else lift (unpack_16 (drop (offset_rssi
              (if 18 <=? api_level n then offsets_18 else offsets_below_18)) data))) s1
      = (Ok rssi_val, s1)).
    { destruct (18 <=? api_level n); cbn [offset_rssi offsets_18 offsets_below_18];
        by rewrite Hrssi. }
    rewrite Hunpack. cbv beta iota.
    replace ((MIN_RSSI_VALUE <=? rssi_val) && (rssi_val <=? MAX_RSSI_VALUE)) with false
      by (symmetry; apply andb_false_iff; lia).
    rewrite (bind_node_get _ _ _ _ _ Hn1). unfold bind. by rewrite Hlog.
  - destruct Hlists as [Hu Hc]. by destruct (18 <=? api_level n).
Qed.

(** ** Set and validate *)

Lemma bind_ok_inv {A B} (m : IO A) (k : A -> IO B) s b s' :
  bind m k s = (Ok b, s') ->
  exists a s1, m s = (Ok a, s1) /\ k a s1 = (Ok b, s').
Proof.
  unfold bind. destruct (m s) as [[a|e] s1]; [|done]. intros H. by exists a, s1.
Qed.

Lemma same_value_spec bits out_value in_value :
  same_value bits out_value in_value = true <->
  out_value = Some in_value \/ out_value = Some (in_value + 2 ^ bits).
Proof.
  unfold same_value. rewrite Z.shiftl_1_l. destruct out_value as [v|].
  - rewrite orb_true_iff, !Z.eqb_eq. split; intros [H|H]; simplify_eq; auto.
  - split; [done|]. by intros [|].
Qed.

(** When a set-and-validate loop ends, [success] holds exactly when the
    last value read back passes the comparison of the loop. *)
Lemma set_and_validate_loop_success env pack get_value same remaining node wc rc
    in_value out s v s' :
  same out in_value = false ->
  set_and_validate_loop env pack get_value same remaining node wc rc in_value out s
    = (Ok v, s') ->
  success v = same (out_value v) in_value.
Proof.
  revert out s. induction remaining as [|remaining IH]; intros out s Hout Hrun.
  - injection Hrun as <- _. simpl. by rewrite Hout.
  - cbn [set_and_validate_loop] in Hrun.
    apply bind_ok_inv in Hrun as (addr & s1 & _ & Hrun).
    apply bind_ok_inv in Hrun as (_b & s2 & _ & Hrun).
    apply bind_ok_inv in Hrun as (out' & s3 & _ & Hrun).
    destruct (same out' in_value) eqn:Hsame.
    + injection Hrun as <- _. simpl. by rewrite Hsame.
    + apply bind_ok_inv in Hrun as (_u & s4 & _ & Hrun). by eapply IH.
Qed.

(** One round of a set-and-validate loop: the write, the read-back and
    the comparison, which alone decides between returning and retrying. *)
Lemma set_and_validate_loop_attempt env pack get_value same remaining node wc rc
    in_value out s n w s1 out' s2 :
  nodes s !! node = Some n ->
  write_block env (i2c_addr n) wc (pack in_value) s = (Ok w, s1) ->
  get_value node rc s1 = (Ok out', s2) ->
  set_and_validate_loop env pack get_value same (S remaining) node wc rc in_value out s =
    if same out' in_value
    then (Ok (mkValidated true (I2C_RETRY_COUNT - Z.of_nat (S remaining)) out'), s2)
    else (log (ValueNotSet (I2C_RETRY_COUNT - Z.of_nat (S remaining) + 1)
                 wc in_value node) ;;;
          set_and_validate_loop env pack get_value same remaining node wc rc
            in_value out') s2.
Proof.
  intros Hn Hwrite Hread. cbn [set_and_validate_loop].
  rewrite (bind_node_get _ _ _ _ _ Hn). unfold bind at 1. rewrite Hwrite.
  unfold bind at 1. rewrite Hread. by destruct (same out' in_value).
Qed.

Lemma write_block_nodes env addr offset data s :
  nodes (write_block env addr offset data s).2 = nodes s.
Proof.
  symmetry. apply list_eq_Forall2.
  apply (frame_nodes _ _ _ _
    (write_block_frame env eq any_event any_bus_event addr offset data s)).
Qed.

(** When a set-and-validate loop ends after at least one round, the value
    in [out_value] is the one that the last read-back returned, after a
    write of the packed value; [success] is the comparison of that value,
    and the loop ends at that read-back when it holds, and after the last
    retry when it does not. *)
Lemma set_and_validate_loop_last_read env pack get_value same node wc rc in_value n :
  (forall s, nodes (get_value node rc s).2 = nodes s) ->
  forall remaining out s v s',
  nodes s !! node = Some n ->
  set_and_validate_loop env pack get_value same remaining node wc rc in_value out s
    = (Ok v, s') ->
  remaining <> O ->
  exists s0 w s1 s2,
    write_block env (i2c_addr n) wc (pack in_value) s0 = (Ok w, s1) /\
    get_value node rc s1 = (Ok (out_value v), s2) /\
    success v = same (out_value v) in_value /\
    (success v = true ->
     s' = s2 /\
     I2C_RETRY_COUNT - Z.of_nat remaining <= retry_count v < I2C_RETRY_COUNT) /\
    (success v = false -> retry_count v = I2C_RETRY_COUNT).
Proof.
  intros Hget. induction remaining as [|remaining IH]; intros out s v s' Hn Hrun Hpos;
    [done|].
  cbn [set_and_validate_loop] in Hrun. rewrite (bind_node_get _ _ _ _ _ Hn) in Hrun.
  apply bind_ok_inv in Hrun as (w & s1 & Hwrite & Hrun).
  apply bind_ok_inv in Hrun as (out' & s2 & Hread & Hrun).
  assert (Hn2 : nodes s2 !! node = Some n).
  { pose proof (Hget s1) as H2. rewrite Hread in H2.
    pose proof (write_block_nodes env (i2c_addr n) wc (pack in_value) s) as H1.
    rewrite Hwrite in H1. simpl in *. by rewrite H2, H1. }
  destruct (same out' in_value) eqn:Hsame.
  - injection Hrun as <- <-. exists s, w, s1, s2. simpl.
    split; [done|]. split; [done|]. split; [done|]. split; [|done].
    intros _. split; [done|]. unfold I2C_RETRY_COUNT. lia.
  - apply bind_ok_inv in Hrun as (u & s3 & Hlog & Hrun).
    assert (Hn3 : nodes s3 !! node = Some n).
    { destruct (log_runs (ValueNotSet (I2C_RETRY_COUNT - Z.of_nat (S remaining) + 1)
                            wc in_value node) s2) as (s3' & Hlog' & Hnodes).
      rewrite Hlog in Hlog'. assert (s3' = s3) as -> by congruence.
      by rewrite Hnodes. }
    destruct remaining as [|remaining].
    + injection Hrun as <- <-. exists s, w, s1, s2. simpl.
      split; [done|]. split; [done|]. split; [done|]. by split.
    + destruct (IH out' s3 v s' Hn3 Hrun) as (s0 & w' & s1' & s2' & Hw & Hr & Hs & Ht & Hf);
        [done|].
      exists s0, w', s1', s2'. do 3 (split; [done|]). split; [|done].
      intros Hv. destruct (Ht Hv) as [-> Hcount]. split; [done|]. lia.
Qed.

Lemma get_value_16_nodes env node command s :
  nodes (get_value_16 env node command s).2 = nodes s.
Proof.
  symmetry. apply list_eq_Forall2.
  apply (frame_nodes _ _ _ _ (get_value_16_frame env eq any_event any_bus_event
                                node command s)).
Qed.

Lemma get_value_32_nodes env node command s :
  nodes (get_value_32 env node command s).2 = nodes s.
Proof.
  symmetry. apply list_eq_Forall2.
  apply (frame_nodes _ _ _ _ (get_value_32_frame env eq any_event any_bus_event
                                node command s)).
Qed.

(** Claim C9.  Whenever the loop of [set_and_validate_value_16] ends, the
    value it holds is the one that its last read-back returned after a write
    of the packed [in_value], and its [success] is true exactly when that
    value is [in_value] or [in_value + 2^16]; a successful loop ends at that
    read-back, a failed one after [I2C_RETRY_COUNT] retries.  In the first
    round, a read-back of [in_value] or [in_value + 2^16] ends the loop with
    [success] true and [retry_count] 0, and the function returns the value
    read back; any other read-back is logged and retried.  The same holds
    of [set_and_validate_value_32] with [2^32].  Hence writing -1 to a node
    that echoes 65535 succeeds on the first attempt with no retry, and
    returns 65535. *)
Theorem validated_when_equal_or_wrapped env node wc rc in_value s n :
  nodes s !! node = Some n ->
  (forall v s',
     set_and_validate_value_16_loop env node wc rc in_value None s = (Ok v, s') ->
     (success v = true <->
      out_value v = Some in_value \/ out_value v = Some (in_value + 2 ^ 16)) /\
     exists s0 w s1 s2,
       write_block env (i2c_addr n) wc (pack_16 in_value) s0 = (Ok w, s1) /\
       get_value_16 env node rc s1 = (Ok (out_value v), s2) /\
       (success v = true -> s' = s2 /\ 0 <= retry_count v < I2C_RETRY_COUNT) /\
       (success v = false -> retry_count v = I2C_RETRY_COUNT)) /\
  (forall v s',
     set_and_validate_value_32_loop env node wc rc in_value None s = (Ok v, s') ->
     (success v = true <->
      out_value v = Some in_value \/ out_value v = Some (in_value + 2 ^ 32)) /\
     exists s0 w s1 s2,
       write_block env (i2c_addr n) wc (pack_32 in_value) s0 = (Ok w, s1) /\
       get_value_32 env node rc s1 = (Ok (out_value v), s2) /\
       (success v = true -> s' = s2 /\ 0 <= retry_count v < I2C_RETRY_COUNT) /\
       (success v = false -> retry_count v = I2C_RETRY_COUNT)) /\
  (forall w s1 out s2,
     write_block env (i2c_addr n) wc (pack_16 in_value) s = (Ok w, s1) ->
     get_value_16 env node rc s1 = (Ok out, s2) ->
     (out = Some in_value \/ out = Some (in_value + 2 ^ 16) ->
      set_and_validate_value_16_loop env node wc rc in_value None s
        = (Ok (mkValidated true 0 out), s2) /\
      exists r, out = Some r /\
        set_and_validate_value_16 env node wc rc in_value s = (Ok r, s2)) /\
     (~ (out = Some in_value \/ out = Some (in_value + 2 ^ 16)) ->
      set_and_validate_value_16_loop env node wc rc in_value None s
        = (log (ValueNotSet 1 wc in_value node) ;;;
           set_and_validate_loop env pack_16 (get_value_16 env) (same_value 16) 4
             node wc rc in_value out) s2)) /\
  (forall w s1 out s2,
     write_block env (i2c_addr n) wc (pack_32 in_value) s = (Ok w, s1) ->
     get_value_32 env node rc s1 = (Ok out, s2) ->
     (out = Some in_value \/ out = Some (in_value + 2 ^ 32) ->
      set_and_validate_value_32_loop env node wc rc in_value None s
        = (Ok (mkValidated true 0 out), s2) /\
      exists r, out = Some r /\
        set_and_validate_value_32 env node wc rc in_value s = (Ok r, s2)) /\
     (~ (out = Some in_value \/ out = Some (in_value + 2 ^ 32)) ->
      set_and_validate_value_32_loop env node wc rc in_value None s
        = (log (ValueNotSet 1 wc in_value node) ;;;
           set_and_validate_loop env pack_32 (get_value_32 env) (same_value 32) 4
             node wc rc in_value out) s2)) /\
  (in_value = -1 ->
   forall w s1 s2,
     write_block env (i2c_addr n) wc (pack_16 (-1)) s = (Ok w, s1) ->
     get_value_16 env node rc s1 = (Ok (Some 65535), s2) ->
     set_and_validate_value_16_loop env node wc rc (-1) None s
       = (Ok (mkValidated true 0 (Some 65535)), s2) /\
     set_and_validate_value_16 env node wc rc (-1) s = (Ok 65535, s2)).
Proof.
  intros Hn.
  assert (Hend : forall pack get_value bits,
    (forall s0, nodes (get_value node rc s0).2 = nodes s0) ->
    forall v s',
      set_and_validate_loop env pack get_value (same_value bits)
        (Z.to_nat I2C_RETRY_COUNT) node wc rc in_value None s = (Ok v, s') ->
      (success v = true <->
       out_value v = Some in_value \/ out_value v = Some (in_value + 2 ^ bits)) /\
      exists s0 w s1 s2,
        write_block env (i2c_addr n) wc (pack in_value) s0 = (Ok w, s1) /\
        get_value node rc s1 = (Ok (out_value v), s2) /\
        (success v = true -> s' = s2 /\ 0 <= retry_count v < I2C_RETRY_COUNT) /\
        (success v = false -> retry_count v = I2C_RETRY_COUNT)).
  { intros pack get_value bits Hget v s' Hrun.
    destruct (set_and_validate_loop_last_read env pack get_value (same_value bits)
                node wc rc in_value n Hget _ _ _ _ _ Hn Hrun)
      as (s0 & w & s1 & s2 & Hw & Hr & Hs & Ht & Hf); [done|].
    split; [by rewrite Hs, same_value_spec|].
    exists s0, w, s1, s2. do 2 (split; [done|]). split; [|done].
    intros Hv. destruct (Ht Hv) as [-> Hcount]. split; [done|].
    change (Z.to_nat I2C_RETRY_COUNT) with 5%nat in Hcount.
    unfold I2C_RETRY_COUNT in *. lia. }
  assert (Hfirst : forall pack get_value bits w s1 out s2,
    write_block env (i2c_addr n) wc (pack in_value) s = (Ok w, s1) ->
    get_value node rc s1 = (Ok out, s2) ->
    (out = Some in_value \/ out = Some (in_value + 2 ^ bits) ->
     set_and_validate_loop env pack get_value (same_value bits)
       (Z.to_nat I2C_RETRY_COUNT) node wc rc in_value None s
       = (Ok (mkValidated true 0 out), s2) /\
     exists r, out = Some r /\
       (v <- set_and_validate_loop env pack get_value (same_value bits)
               (Z.to_nat I2C_RETRY_COUNT) node wc rc in_value None ;;
        ret (validated_value in_value v)) s = (Ok r, s2)) /\
    (~ (out = Some in_value \/ out = Some (in_value + 2 ^ bits)) ->
     set_and_validate_loop env pack get_value (same_value bits)
       (Z.to_nat I2C_RETRY_COUNT) node wc rc in_value None s
       = (log (ValueNotSet 1 wc in_value node) ;;;
          set_and_validate_loop env pack get_value (same_value bits) 4
            node wc rc in_value out) s2)).
  { intros pack get_value bits w s1 out s2 Hw Hr.
    change (Z.to_nat I2C_RETRY_COUNT) with 5%nat.
    rewrite (set_and_validate_loop_attempt _ _ _ _ _ _ _ _ _ _ _ _ _ _ _ _ Hn Hw Hr).
    split; intros Hout.
    - apply same_value_spec in Hout as Hsame. rewrite Hsame. split; [done|].
      assert (exists r, out = Some r) as [r ->] by (destruct Hout; eauto).
      exists r. split; [done|]. unfold bind.
      rewrite (set_and_validate_loop_attempt _ _ _ _ _ _ _ _ _ _ _ _ _ _ _ _ Hn Hw Hr).
      by rewrite Hsame.
    - destruct (same_value bits out in_value) eqn:Hsame; [|done].
      by apply same_value_spec in Hsame. }
  split; [|split; [|split; [|split]]].
  - apply (Hend pack_16 (get_value_16 env) 16). apply get_value_16_nodes.
  - apply (Hend pack_32 (get_value_32 env) 32). apply get_value_32_nodes.
  - apply (Hfirst pack_16 (get_value_16 env) 16).
  - apply (Hfirst pack_32 (get_value_32 env) 32).
  - intros -> w s1 s2 Hw Hr.
    destruct (Hfirst pack_16 (get_value_16 env) 16 w s1 (Some 65535) s2 Hw Hr)
      as [Hok _].
    destruct Hok as (Hloop & r & [= <-] & Hrun); [by right|]. by split.
Qed.

(** ** Capture of the enter-at level *)

Lemma bind_node_set {B} i f (k : unit -> IO B) s :
  bind (node_set i f) k s = k tt (with_nodes (alter f i (nodes s)) s).
Proof. done. Qed.

Lemma bind_call_milliseconds {B} env (k : Z -> IO B) s :
  bind (call_milliseconds env) k s =
    k (milliseconds env (ticks s)) (with_ticks (S (ticks s)) s).
Proof. done. Qed.

Lemma bind_py_div {B} a b (k : Z -> IO B) s :
  b <> 0 -> bind (py_div a b) k s = k (a / b) s.
Proof. intros Hb. unfold py_div. apply Z.eqb_neq in Hb. by rewrite Hb. Qed.

Lemma bind_as_number {A B} (x : A) (k : A -> IO B) s :
  bind (as_number (Some x)) k s = k x s.
Proof. done. Qed.

Lemma bind_assoc {A B C} (m : IO A) (k : A -> IO B) (k' : B -> IO C) s :
  bind (bind m k) k' s = bind m (fun a => bind (k a) k') s.
Proof. unfold bind. by destruct (m s) as [[a|e] s1]. Qed.

Lemma bind_ret {A B} (a : A) (k : A -> IO B) s : bind (ret a) k s = k a s.
Proof. done. Qed.

Ltac get_node Hn :=
  rewrite ?bind_assoc;
  erewrite bind_node_get;
  [ cbv beta | simpl; rewrite ?list_lookup_alter_eq, Hn; reflexivity ]; simpl.

(** Sending the level and telling the subscriber leave the nodes alone. *)
Lemma send_enter_at_level_nodes env node level s :
  nodes ((transmit_enter_at_level env node level ;;;
          callable <- gets new_enter_or_exit_at_callback ;;
          if callable then emit (NewEnterOrExitAt node true) else ret tt) s).2
  = nodes s.
Proof.
  match goal with |- nodes (?m s).2 = _ =>
    assert (H : steps (frame eq any_event) m)
  end.
  { steps. apply transmit_enter_at_level_frame; by try apply _. }
  symmetry. apply list_eq_Forall2, (frame_nodes _ _ _ _ (H s)).
Qed.

(** The floor of the mean lies between the bounds of the samples. *)
Lemma mean_bounds samples lo hi :
  samples <> [] -> Forall (fun x => lo <= x <= hi) samples ->
  let mean := sum samples / Z.of_nat (length samples) in
  lo <= mean <= hi /\
  Z.abs (sum samples - mean * Z.of_nat (length samples)) < Z.of_nat (length samples).
Proof.
  intros Hne Hall. simpl.
  assert (Hlen : 0 < Z.of_nat (length samples)) by (destruct samples; [done|simpl; lia]).
  assert (Hsum : lo * Z.of_nat (length samples) <= sum samples
                 <= hi * Z.of_nat (length samples)).
  { clear Hne Hlen. induction Hall as [|x xs Hx Hxs IH]; [simpl; lia|].
    cbn [sum foldr length]. fold (sum xs). lia. }
  pose proof (Z.div_mod (sum samples) (Z.of_nat (length samples))) as Hdiv.
  pose proof (Z.mod_pos_bound (sum samples) (Z.of_nat (length samples)) Hlen) as Hmod.
  split; [split|].
  - apply Z.div_le_lower_bound; lia.
  - apply Z.div_le_upper_bound; lia.
  - nia.
Qed.

Lemma transmit_enter_at_level_nodes env node level s :
  nodes (transmit_enter_at_level env node level s).2 = nodes s.
Proof.
  symmetry. apply list_eq_Forall2.
  apply (frame_nodes _ _ _ _
    (transmit_enter_at_level_frame env eq any_event any_bus_event node level s)).
Qed.

(** Claim C6, amended.  When a capture of the enter-at level ends during
    a poll, the accumulated samples being [samples], all between [lo] and
    [hi], there is an integer [mean] less than 1 away from total / count
    and between [lo] and [hi]; [enter_at_level] is [node_peak_rssi -
    ENTER_AT_PEAK_MARGIN] when [node_peak_rssi > 0] and [node_peak_rssi -
    mean < ENTER_AT_PEAK_MARGIN], and [mean] otherwise.  It is at most [hi],
    and [node_peak_rssi - enter_at_level >= ENTER_AT_PEAK_MARGIN] whenever
    [node_peak_rssi > 0]. *)
Theorem captured_enter_at_level env node s n samples lo hi :
  nodes s !! node = Some n ->
  cap_enter_at_flag n = true ->
  cap_enter_at_total n + current_rssi n = sum samples ->
  cap_enter_at_count n + 1 = Z.of_nat (length samples) ->
  samples <> [] ->
  Forall (fun x => lo <= x <= hi) samples ->
  cap_enter_at_millis n <= milliseconds env (ticks s) ->
  exists mean level n',
    nodes (capture_enter_at env node s).2 !! node = Some n' /\
    enter_at_level n' = Some level /\
    cap_enter_at_flag n' = false /\
    Z.abs (sum samples - mean * Z.of_nat (length samples)) < Z.of_nat (length samples) /\
    lo <= mean <= hi /\
    level = (if (0 <? node_peak_rssi n) && (node_peak_rssi n - mean <? ENTER_AT_PEAK_MARGIN)
             then node_peak_rssi n - ENTER_AT_PEAK_MARGIN else mean) /\
    level <= hi /\
    (0 < node_peak_rssi n -> node_peak_rssi n - level >= ENTER_AT_PEAK_MARGIN).
Proof.
  intros Hn Hflag Htotal Hcount Hne Hall Hdeadline.
  destruct (mean_bounds samples lo hi Hne Hall) as [Hmean Habs].
  set (mean := sum samples / Z.of_nat (length samples)) in *.
  set (peak := node_peak_rssi n).
  set (level := if (0 <? peak) && (peak - mean <? ENTER_AT_PEAK_MARGIN)
                then peak - ENTER_AT_PEAK_MARGIN else mean).
  assert (Hlen : Z.of_nat (length samples) <> 0) by (destruct samples; [done|simpl; lia]).
  exists mean, level.
  assert (Hrun : exists n',
    nodes (capture_enter_at env node s).2 !! node = Some n' /\
    enter_at_level n' = Some level /\ cap_enter_at_flag n' = false).
  { unfold capture_enter_at. get_node Hn. rewrite Hflag.
    rewrite !bind_node_set, bind_call_milliseconds. get_node Hn.
    apply Z.leb_le in Hdeadline. rewrite Hdeadline.
    get_node Hn. get_node Hn. rewrite Htotal, Hcount, bind_py_div by done.
    fold mean. rewrite !bind_node_set. get_node Hn. fold peak.
    unfold level. destruct (0 <? peak) eqn:Hpeak; simpl.
    - get_node Hn. get_node Hn. rewrite ?bind_assoc, ?bind_as_number, ?bind_ret. fold peak.
      destruct (peak - mean <? ENTER_AT_PEAK_MARGIN) eqn:Hclose; simpl.
      + get_node Hn. rewrite bind_node_set. get_node Hn.
        rewrite ?bind_as_number, ?bind_ret, send_enter_at_level_nodes. simpl.
        rewrite !list_lookup_alter_eq, Hn. simpl. by eexists.
      + rewrite ?bind_ret. get_node Hn.
        rewrite ?bind_as_number, ?bind_ret, send_enter_at_level_nodes. simpl.
        rewrite !list_lookup_alter_eq, Hn. simpl. by eexists.
    - rewrite ?bind_ret. get_node Hn.
      rewrite ?bind_as_number, ?bind_ret, send_enter_at_level_nodes. simpl.
      rewrite !list_lookup_alter_eq, Hn. simpl. by eexists. }
  destruct Hrun as (n' & Hn' & Hlevel & Hflag').
  exists n'. repeat split; try done; try lia.
  - unfold level. destruct (0 <? peak) eqn:Hpeak, (peak - mean <? ENTER_AT_PEAK_MARGIN) eqn:Hclose;
      simpl; unfold ENTER_AT_PEAK_MARGIN in *; lia.
  - intros Hpos. unfold level.
    destruct (0 <? peak) eqn:Hpeak, (peak - mean <? ENTER_AT_PEAK_MARGIN) eqn:Hclose;
      simpl; unfold ENTER_AT_PEAK_MARGIN in *; lia.
Qed.

(** * The claims on the scenarios *)

(** The one-way latency is half the round trip, in the unit of
    [monotonic()]: seconds. *)
Lemma measure_readtime_oneway l s request response :
  i2c_request s = Some request -> i2c_response s = Some response ->
  measure_readtime l s =
    (Ok (with_times ((response - request) / inject_Z 2)%Q
           (response - (response - request) / inject_Z 2)%Q l), s).
Proof.
  intros Hrequest Hresponse. unfold measure_readtime. cbv [bind gets].
  rewrite Hresponse. simpl. rewrite Hrequest. simpl. by rewrite Hresponse.
Qed.

(** Claim C1, on scenario S1.  The first frame fires no callback and leaves
    [last_lap_id] at 0.  The second frame, with a lap differential of 250 ms
    and a round trip of 20 ms, fires [pass_record_callback] with source
    [LAP_SOURCE_REALTIME] and a lap time of 250 plus the one-way latency in
    seconds, 250.01, and not 260. *)
Theorem lap_time_adds_seconds_to_milliseconds :
  trace S1.after_first = [BusRead 8 READ_LAP_STATS 20] /\
  last_lap_id <$> nodes S1.after_first = [0] /\
  i2c_request S1.after_second = Some (5 # 100)%Q /\
  i2c_response S1.after_second = Some (7 # 100)%Q /\
  exists lap_time_ms,
    trace S1.after_second =
      trace S1.after_first ++
        [BusRead 8 READ_LAP_STATS 20; PassRecord 0 lap_time_ms LAP_SOURCE_REALTIME] /\
    (lap_time_ms == 250 + (1 # 100))%Q /\
    ~ (lap_time_ms == 260)%Q.
Proof.
  split; [by vm_compute|]. split; [by vm_compute|].
  split; [by vm_compute|]. split; [by vm_compute|].
  eexists. split; [vm_compute; reflexivity|]. split.
  - by vm_compute.
  - intros H. vm_compute in H. discriminate H.
Qed.

(** Claim C2.  When the five attempts each read a frame whose checksum is wrong,
    [read_block] returns that frame, checksum byte included, and not
    [None]. *)
Theorem read_block_returns_rejected_frame :
  validate_checksum (Some [1; 2; 0]) = Ok false /\
  (read_block S2.env 8 READ_FREQUENCY 2 S2.start).1 = Ok (Some [1; 2; 0]) /\
  trace (read_block S2.env 8 READ_FREQUENCY 2 S2.start).2 =
    [BusRead 8 READ_FREQUENCY 3;
     BusRead 8 READ_FREQUENCY 3;
     HardwareLog (RetryChecksumRead 8 READ_FREQUENCY 2 2 80);
     BusRead 8 READ_FREQUENCY 3;
     HardwareLog (RetryChecksumRead 8 READ_FREQUENCY 2 3 130);
     BusRead 8 READ_FREQUENCY 3;
     HardwareLog (RetryChecksumRead 8 READ_FREQUENCY 2 4 180);
     BusRead 8 READ_FREQUENCY 3;
     HardwareLog (RetryChecksumLimitRead 8 READ_FREQUENCY 2 5 230)].
Proof. by vm_compute. Qed.

(** [set_and_validate_value_rssi] returns [None] whenever it returns. *)
Lemma set_and_validate_value_rssi_none env node wc rc in_value s r s' :
  set_and_validate_value_rssi env node wc rc in_value s = (Ok r, s') -> r = None.
Proof.
  unfold set_and_validate_value_rssi. intros Hrun.
  apply bind_ok_inv in Hrun as (api & s1 & _ & Hrun).
  destruct (18 <=? api);
    apply bind_ok_inv in Hrun as (v & s2 & _ & Hrun); by injection Hrun as <- _.
Qed.

(** Claim C4.  The node echoes the level 95 that it is sent, the validation
    succeeds at once, and [set_enter_at_level] stores [None] in
    [enter_at_level]; [set_exit_at_level] does the same. *)
Theorem set_enter_at_level_stores_none :
  trace (set_enter_at_level S4.env 0 95 S4.start).2 =
    [BusWrite 8 WRITE_ENTER_AT_LEVEL [95; WRITE_ENTER_AT_LEVEL; 208];
     BusRead 8 READ_ENTER_AT_LEVEL 2] /\
  enter_at_level <$> nodes S4.start = [Some 0] /\
  enter_at_level <$> nodes (set_enter_at_level S4.env 0 95 S4.start).2 = [None] /\
  exit_at_level <$> nodes (set_exit_at_level S4.env 0 95 S4.start).2 = [None].
Proof. by vm_compute. Qed.

(** Claim C7.  A node of API level 10 seen for the first time, whose frame
    carries the lap id 1: the cycle calls no subscriber and ends with
    [last_lap_id] equal to 1.  The same node at API level 13, whose frame
    carries the lap id 1 and an RSSI of 100: the frame is read and accepted,
    no subscriber is called, the cycle ends in [UnboundLocalError] and
    [last_lap_id] is still -1. *)
Theorem first_lap_id_lost_at_level_13 :
  item (frame_10 1 78 32) 0 = Ok 1 /\
  (update S12.env_10 S12.level_10).1 = Ok tt /\
  trace (update S12.env_10 S12.level_10).2 = [BusRead 8 READ_LAP_STATS 19] /\
  last_lap_id <$> nodes (update S12.env_10 S12.level_10).2 = [1] /\
  item (frame_13 1 100) 0 = Ok 1 /\
  (update S12.env_13 S12.level_13).1 = Raise UnboundLocalError /\
  trace (update S12.env_13 S12.level_13).2 = [BusRead 8 READ_LAP_STATS 21] /\
  current_rssi <$> nodes (update S12.env_13 S12.level_13).2 = [100] /\
  last_lap_id <$> nodes S12.level_13 = [-1] /\
  last_lap_id <$> nodes (update S12.env_13 S12.level_13).2 = [-1].
Proof. do 9 (split; [by vm_compute|]). by vm_compute. Qed.

(** Claim C3 fails as stated: at API level 17 the frame read is 28 bytes and not
    the 20 of the table, and at API level 7 it is 18 bytes and not 17. *)
Lemma table_size_not_requested_at_17_and_7 :
  ~ (exists evs, trace (poll_node S7.env 0 new_locals S7.level_17).2 =
       trace S7.level_17 ++
         BusRead 8 READ_LAP_STATS (layout_table_size 17 + 1) :: evs) /\
  ~ (exists evs, trace (poll_node S7.env 0 new_locals S7.level_7).2 =
       trace S7.level_7 ++
         BusRead 8 READ_LAP_STATS (layout_table_size 7 + 1) :: evs).
Proof. split; intros (evs & H); vm_compute in H; discriminate H. Qed.

Lemma lap_stats_read_size_witness :
  exists size evs,
    trace (poll_node S1.env 0 new_locals S1.start).2 =
      trace S1.start ++ BusRead 8 READ_LAP_STATS (size + 1) :: evs /\
    size = 19.
Proof.
  destruct (lap_stats_read_size S1.env 0 new_locals S1.start (fresh_node 0 8 18 (-1)))
    as (size & evs & Htrace & H18 & _); [reflexivity|discriminate|reflexivity|].
  exists size, evs. split; [exact Htrace|]. apply H18. simpl. lia.
Defined.

Lemma out_of_range_sample_skipped_witness :
  exists l' s',
    poll_node S3.env 0 new_locals S3.start = (Ok l', s') /\
    nodes s' = nodes S3.start /\
    upd_list l' = [] /\
    cross_list l' = [].
Proof.
  eapply (out_of_range_sample_skipped S3.env 0 new_locals S3.start
            (fresh_node 0 8 18 0) (frame_18 1 0 120) _ _ 0).
  - reflexivity.
  - discriminate.
  - vm_compute. reflexivity.
  - reflexivity.
  - left. reflexivity.
Defined.

(** Claim C6 fails as stated: the only sample is 100, the node peak is 100, and
    the captured level is 95, below the sample. *)
Lemma captured_level_below_only_sample :
  cap_enter_at_total <$> nodes (update S4.env S4.start).2 = [100] /\
  cap_enter_at_count <$> nodes (update S4.env S4.start).2 = [1] /\
  node_peak_rssi <$> nodes (update S4.env S4.start).2 = [100] /\
  enter_at_level <$> nodes (update S4.env S4.start).2 = [Some 95] /\
  ~ 100 <= 95.
Proof. split; [by vm_compute|]. do 3 (split; [by vm_compute|]). lia. Qed.

Lemma captured_enter_at_level_witness :
  exists mean level n',
    nodes (capture_enter_at S4.env 0 (fresh_interface [S4.two_samples])).2 !! 0%nat
      = Some n' /\
    enter_at_level n' = Some level /\
    mean = 105 /\ level = 105.
Proof.
  destruct (captured_enter_at_level S4.env 0 (fresh_interface [S4.two_samples])
              S4.two_samples [100; 110] 100 110)
    as (mean & level & n' & Hn' & Hlevel & _ & Habs & Hmean & Hclamp & _).
  - reflexivity.
  - reflexivity.
  - reflexivity.
  - reflexivity.
  - discriminate.
  - repeat constructor; lia.
  - vm_compute. discriminate.
  - exists mean, level, n'. split; [exact Hn'|]. split; [exact Hlevel|].
    assert (mean = 105) as -> by (simpl in Habs; lia).
    split; [reflexivity|]. exact Hclamp.
Defined.

(** Scenario S5: B, then A. *)
Example laps_in_order_of_lap_ms_since_start :
  trace (update S5.env S5.start).2 =
    [BusRead 8 READ_LAP_STATS 19; BusRead 10 READ_LAP_STATS 19;
     PassRecord 1 (inject_Z 0) LAP_SOURCE_REALTIME;
     PassRecord 0 (inject_Z 0) LAP_SOURCE_REALTIME] /\
  lap_ms_since_start <$> nodes (update S5.env S5.start).2 = [20000; 19800].
Proof. by vm_compute. Qed.

Lemma validated_when_equal_or_wrapped_witness :
  (set_and_validate_value_16 S6.env 0 WRITE_ENTER_AT_LEVEL READ_ENTER_AT_LEVEL (-1)
     S6.start).1 = Ok 65535 /\
  (set_and_validate_value_32 S13.env 0 WRITE_ENTER_AT_LEVEL READ_ENTER_AT_LEVEL (-1)
     S13.start).1 = Ok 4294967295.
Proof.
  split.
  - destruct (validated_when_equal_or_wrapped S6.env 0 WRITE_ENTER_AT_LEVEL
                READ_ENTER_AT_LEVEL (-1) S6.start (fresh_node 0 8 17 0) eq_refl)
      as (_ & _ & _ & _ & H).
    edestruct (H eq_refl) as [_ Hvalue].
    + vm_compute. reflexivity.
    + vm_compute. reflexivity.
    + rewrite Hvalue. reflexivity.
  - destruct (validated_when_equal_or_wrapped S13.env 0 WRITE_ENTER_AT_LEVEL
                READ_ENTER_AT_LEVEL (-1) S13.start (fresh_node 0 8 17 0) eq_refl)
      as (_ & _ & _ & H & _).
    edestruct H as [Hok _].
    + vm_compute. reflexivity.
    + vm_compute. reflexivity.
    + destruct Hok as (_ & r & Hr & Hrun); [right; reflexivity|].
      rewrite Hrun. simpl. injection Hr as <-. reflexivity.
Defined.

Lemma lap_ms_since_start_not_polled_at_18_witness :
  exists n', nodes (update S1.env S1.start).2 !! 0%nat = Some n' /\
             lap_ms_since_start n' = -1.
Proof.
  destruct (lap_ms_since_start_not_polled_at_18 S1.env S1.start 0 (fresh_node 0 8 18 (-1)))
    as [H _]; [reflexivity | simpl; lia | exact H].
Defined.

(** * More of the interface *)

(** ** The byte codec *)

Lemma land_255_testbit x n : 0 <= n -> Z.testbit (Z.land x 0xFF) n = Z.testbit x n && (n <? 8).
Proof.
  intros Hn. rewrite Z.land_spec. change 0xFF with (Z.ones 8).
  rewrite Z.testbit_ones by lia. f_equal. destruct (n <? 8) eqn:E; lia.
Qed.

(** Putting a high part and a low byte together again. *)
Lemma lor_shiftl_land x : Z.lor (Z.shiftl (Z.shiftr x 8) 8) (Z.land x 0xFF) = x.
Proof.
  apply Z.bits_inj'. intros n Hn.
  rewrite Z.lor_spec, land_255_testbit by done.
  destruct (n <? 8) eqn:E.
  - rewrite Z.shiftl_spec_low by lia. simpl. by rewrite andb_true_r.
  - rewrite Z.shiftl_spec, Z.shiftr_spec by lia.
    rewrite andb_false_r, orb_false_r. f_equal. lia.
Qed.

Lemma unpack_pack_16 x : unpack_16 (pack_16 x) = Ok x.
Proof. unfold unpack_16, pack_16. simpl. by rewrite lor_shiftl_land. Qed.

Lemma unpack_pack_32 x : unpack_32 (pack_32 x) = Ok x.
Proof.
  unfold unpack_32, pack_32. simpl. f_equal.
  replace (Z.shiftr x 24) with (Z.shiftr (Z.shiftr x 16) 8)
    by (by rewrite Z.shiftr_shiftr by lia).
  rewrite lor_shiftl_land.
  replace (Z.shiftr x 16) with (Z.shiftr (Z.shiftr x 8) 8)
    by (by rewrite Z.shiftr_shiftr by lia).
  rewrite lor_shiftl_land. apply lor_shiftl_land.
Qed.

(** Property X1.
    Unpacking what was packed gives the number back, for every integer
    and each of the three widths.  Nothing is lost on a number that does
    not fit the width, because [pack_16] and [pack_32] leave the high part
    unmasked in their first element. *)
Theorem unpack_pack_round_trip (x : Z) :
  unpack_8 (pack_8 x) = Ok x /\
  unpack_16 (pack_16 x) = Ok x /\
  unpack_32 (pack_32 x) = Ok x.
Proof. split; [done|]. split; [apply unpack_pack_16|apply unpack_pack_32]. Qed.

(** Appending a byte to a number. *)
Lemma lor_shiftl_byte v b :
  0 <= b < 256 -> Z.lor (Z.shiftl v 8) b = v * 256 + b.
Proof.
  intros Hb. pose proof (lor_shiftl_land (v * 256 + b)) as H.
  rewrite Z.shiftr_div_pow2 in H by lia. change 0xFF with (Z.ones 8) in H.
  rewrite Z.land_ones in H by lia. change (2 ^ 8) with 256 in H.
  rewrite Z.div_add_l, (Z.div_small b), Z.add_0_r in H by lia.
  rewrite Z.add_comm, Z.mod_add, (Z.mod_small b) in H by lia.
  by rewrite (Z.add_comm b) in H.
Qed.

Lemma shiftr_8_byte v b : 0 <= b < 256 -> Z.shiftr (v * 256 + b) 8 = v.
Proof.
  intros Hb. rewrite Z.shiftr_div_pow2 by lia. change (2 ^ 8) with 256.
  rewrite Z.div_add_l, (Z.div_small b) by lia. lia.
Qed.

Lemma land_255_byte v b : 0 <= b < 256 -> Z.land (v * 256 + b) 0xFF = b.
Proof.
  intros Hb. change 0xFF with (Z.ones 8). rewrite Z.land_ones by lia.
  change (2 ^ 8) with 256. rewrite Z.add_comm, Z.mod_add by lia.
  apply Z.mod_small. lia.
Qed.

(** Property X2.
    Bytes read from the bus unpack to the big-endian number they spell,
    which lies within the width, and packing that number gives the same
    bytes back. *)
Theorem pack_unpack_round_trip a b c d :
  0 <= a < 256 -> 0 <= b < 256 -> 0 <= c < 256 -> 0 <= d < 256 ->
  (exists v, unpack_16 [a; b] = Ok v /\ v = a * 256 + b /\ 0 <= v < 2 ^ 16 /\
             pack_16 v = [a; b]) /\
  (exists v, unpack_32 [a; b; c; d] = Ok v /\
             v = ((a * 256 + b) * 256 + c) * 256 + d /\ 0 <= v < 2 ^ 32 /\
             pack_32 v = [a; b; c; d]).
Proof.
  intros Ha Hb Hc Hd. split.
  - exists (a * 256 + b). unfold unpack_16, pack_16. simpl.
    rewrite lor_shiftl_byte by done. repeat split; try lia.
    by rewrite shiftr_8_byte, land_255_byte.
  - exists (((a * 256 + b) * 256 + c) * 256 + d). unfold unpack_32, pack_32. simpl.
    rewrite !lor_shiftl_byte by done. repeat split; try lia.
    replace (Z.shiftr (((a * 256 + b) * 256 + c) * 256 + d) 24)
      with (Z.shiftr (Z.shiftr (Z.shiftr (((a * 256 + b) * 256 + c) * 256 + d) 8) 8) 8)
      by (by rewrite !Z.shiftr_shiftr by lia).
    replace (Z.shiftr (((a * 256 + b) * 256 + c) * 256 + d) 16)
      with (Z.shiftr (Z.shiftr (((a * 256 + b) * 256 + c) * 256 + d) 8) 8)
      by (by rewrite !Z.shiftr_shiftr by lia).
    by rewrite !shiftr_8_byte, !land_255_byte.
Qed.

(** Property X3.
    Each unpacker returns exactly when its input has as many elements as
    its width asks for, longer inputs included; otherwise it raises, and
    what it raises is [IndexError]. *)
Theorem unpack_raises_on_short_input data :
  ((exists v, unpack_8 data = Ok v) <-> (1 <= length data)%nat) /\
  ((exists v, unpack_16 data = Ok v) <-> (2 <= length data)%nat) /\
  ((exists v, unpack_32 data = Ok v) <-> (4 <= length data)%nat) /\
  (forall e, unpack_8 data = Raise e \/ unpack_16 data = Raise e \/
             unpack_32 data = Raise e -> e = IndexError).
Proof.
  unfold unpack_8, unpack_16, unpack_32, item.
  destruct data as [|a [|b [|c [|d data]]]]; simpl;
    repeat split; intros; try lia; try (by eexists);
    repeat match goal with
    | H : exists _, _ |- _ => destruct H
    | H : _ \/ _ |- _ => destruct H
    end; congruence.
Qed.

Lemma sum_app xs ys : sum (xs ++ ys) = sum xs + sum ys.
Proof. unfold sum. induction xs as [|x xs IH]; simpl; lia. Qed.

Lemma validate_checksum_snoc payload c :
  validate_checksum (Some (payload ++ [c])) = Ok (Z.land (sum payload) 0xFF =? c).
Proof.
  unfold validate_checksum, init. rewrite last_snoc, length_app. simpl.
  replace (length payload + 1 - 1)%nat with (length payload) by lia.
  by rewrite take_app_length.
Qed.

Lemma validate_checksum_on_wire payload :
  validate_checksum (Some (on_wire payload)) = Ok true /\
  init (on_wire payload) = payload.
Proof.
  unfold on_wire. rewrite validate_checksum_snoc, Z.eqb_refl. split; [done|].
  unfold init. rewrite length_app. simpl.
  replace (length payload + 1 - 1)%nat with (length payload) by lia.
  by rewrite take_app_length.
Qed.

(** Property X4.
    A frame that passes the checksum stops passing it when one byte of
    its payload is replaced by another byte. *)
Theorem checksum_detects_one_changed_byte before after x y c :
  0 <= x < 256 -> 0 <= y < 256 -> x <> y ->
  validate_checksum (Some ((before ++ x :: after) ++ [c])) = Ok true ->
  validate_checksum (Some ((before ++ y :: after) ++ [c])) = Ok false.
Proof.
  rewrite !validate_checksum_snoc.
  intros Hx Hy Hxy [= Hc%Z.eqb_eq]. f_equal. apply Z.eqb_neq. intros Hc'.
  rewrite <- Hc' in Hc. change 0xFF with (Z.ones 8) in Hc.
  rewrite !Z.land_ones in Hc by lia. rewrite !sum_app in Hc.
  cbn [sum foldr] in Hc. fold (sum after) in Hc. change (2 ^ 8) with 256 in Hc.
  assert (Hmod : (x - y) mod 256 = 0).
  { replace (x - y) with
      ((sum before + (x + sum after)) - (sum before + (y + sum after))) by lia.
    rewrite Zminus_mod, Hc, Z.sub_diag. done. }
  apply Z.mod_divide in Hmod; [|lia]. destruct Hmod as [k Hk]. lia.
Qed.

(** Property X5.
    Scaling an RSSI up and then down gives it back; down and then up
    clears its lowest bit. *)
Theorem scaled_rssi_round_trip (rssi : Z) :
  to_scaled_rssi (from_scaled_rssi rssi) = rssi /\
  from_scaled_rssi (to_scaled_rssi rssi) = rssi - rssi mod 2.
Proof.
  unfold to_scaled_rssi, from_scaled_rssi. split.
  - rewrite Z.shiftr_shiftl_l by lia. done.
  - rewrite Z.shiftl_mul_pow2, Z.shiftr_div_pow2 by lia. change (2 ^ 1) with 2.
    pose proof (Z.div_mod rssi 2). lia.
Qed.

(** ** The bounds of the transactor *)

Lemma transfers_app evs evs' : transfers (evs ++ evs') = transfers evs ++ transfers evs'.
Proof. apply List.filter_app. Qed.

Lemma read_block_nodes env addr offset size s :
  nodes (read_block env addr offset size s).2 = nodes s.
Proof.
  symmetry. apply list_eq_Forall2.
  apply (frame_nodes _ _ _ _
    (read_block_frame env eq any_event any_bus_event addr offset size s)).
Qed.

Lemma read_block_loop_attempts env remaining addr offset size : forall data s,
  exists evs k,
    trace (read_block_loop env remaining addr offset size data s).2 = trace s ++ evs /\
    transfers evs = replicate k (BusRead addr offset (size + 1)) /\
    (k <= remaining)%nat /\ (remaining <> O -> 1 <= k)%nat.
Proof.
  induction remaining as [|remaining IH]; intros data s.
  { exists [], O. simpl. rewrite app_nil_r. repeat split; try done; lia. }
  cbn [read_block_loop]. run_io.
  destruct (i2c_timestamp s =? -1); simpl;
    destruct (read_i2c_block_data env _ addr offset (size + 1)) as [d|]; simpl;
    try (destruct (last d) as [b|]; simpl; [destruct (Z.land _ _ =? b); simpl|]);
    try destruct (hardware_log_callback s); simpl;
    repeat match goal with |- context [if ?b then _ else _] => destruct b; simpl end;
    try (eexists _, 1%nat; split; [reflexivity|]; repeat split; simpl; lia);
    match goal with
    | |- context [read_block_loop env remaining addr offset size ?data' ?s'] =>
        destruct (IH data' s') as (evs & k & -> & Hevs & Hk & _)
    end; simpl; rewrite <- ?app_assoc;
    (eexists _, (S k); split; [reflexivity|]);
    simpl; rewrite ?transfers_app; simpl; rewrite ?Hevs; repeat split; try done; lia.
Qed.

(** Property X6.
    Whatever the bus answers, [read_block] makes between one and five
    transfers, each of them the read it was asked for with one byte more
    for the checksum; it makes no write and changes no node. *)
Theorem read_block_attempts env addr offset size s :
  exists evs k,
    trace (read_block env addr offset size s).2 = trace s ++ evs /\
    transfers evs = replicate k (BusRead addr offset (size + 1)) /\
    (1 <= k <= 5)%nat /\
    nodes (read_block env addr offset size s).2 = nodes s.
Proof.
  destruct (read_block_loop_attempts env (Z.to_nat I2C_RETRY_COUNT) addr offset size None s)
    as (evs & k & Htrace & Hevs & Hle & Hge).
  exists evs, k. split; [done|]. split; [done|]. split.
  - change (Z.to_nat I2C_RETRY_COUNT) with 5%nat in *. split; [by apply Hge|done].
  - apply read_block_nodes.
Qed.

Lemma write_block_loop_attempts env remaining addr offset payload : forall s,
  exists evs k ok s',
    write_block_loop env remaining addr offset payload s = (Ok ok, s') /\
    trace s' = trace s ++ evs /\
    nodes s' = nodes s /\
    transfers evs = replicate k (BusWrite addr offset payload) /\
    (k <= remaining)%nat /\ (remaining <> O -> 1 <= k)%nat /\
    (ok = false -> k = remaining).
Proof.
  induction remaining as [|remaining IH]; intros s.
  { exists [], O, false, s. simpl. rewrite app_nil_r. repeat split; try done; lia. }
  cbn [write_block_loop]. run_io.
  destruct (i2c_timestamp s =? -1); simpl;
    destruct (write_i2c_block_data env _ addr offset payload); simpl;
    try destruct (hardware_log_callback s); simpl;
    repeat match goal with |- context [if ?b then _ else _] => destruct b; simpl end;
    try (eexists _, 1%nat, true, _; split; [reflexivity|]; simpl;
         split; [reflexivity|]; repeat split; simpl; try done; lia);
    match goal with
    | |- context [write_block_loop env remaining addr offset payload ?s'] =>
        destruct (IH s') as (evs & k & ok & s'' & -> & Ht & Hn & Hevs & Hk & _ & Hok)
    end; simpl in *; rewrite <- ?app_assoc in Ht;
    (eexists _, (S k), ok, s''; split; [reflexivity|]; split; [exact Ht|]);
    split; try done;
    simpl; rewrite ?transfers_app; simpl; rewrite ?Hevs; repeat split; try done; try lia;
    intros Hf; by rewrite (Hok Hf).
Qed.

(** [write_block] always returns, after one to five writes of the same
    payload, and it returns [False] only after five. *)
Lemma write_block_runs env addr offset data s :
  exists evs k ok s',
    write_block env addr offset data s = (Ok ok, s') /\
    trace s' = trace s ++ evs /\
    transfers evs =
      replicate k (BusWrite addr offset
                     (data ++ [offset; Z.land (sum (data ++ [offset])) 0xFF])) /\
    (1 <= k <= 5)%nat /\
    (ok = false -> k = 5%nat) /\
    nodes s' = nodes s.
Proof.
  unfold write_block.
  replace ((data ++ [offset]) ++ [Z.land (sum (data ++ [offset])) 255])
    with (data ++ [offset; Z.land (sum (data ++ [offset])) 255])
    by (by rewrite <- app_assoc).
  destruct (write_block_loop_attempts env (Z.to_nat I2C_RETRY_COUNT) addr offset
    (data ++ [offset; Z.land (sum (data ++ [offset])) 255]) s)
    as (evs & k & ok & s' & Hrun & Ht & Hn & Hevs & Hle & Hge & Hok).
  exists evs, k, ok, s'. change (Z.to_nat I2C_RETRY_COUNT) with 5%nat in *.
  repeat split; try done. by apply Hge.
Qed.

(** Property X7.
    The payload that [write_block] sends is the data followed by the
    register and a checksum that [validate_checksum] accepts.  The call
    never raises; it makes between one and five transfers, each of them
    the write of that payload; it returns [False] only after five; it makes
    no read and changes no node. *)
Theorem write_block_attempts env addr offset data s :
  let payload := data ++ [offset; Z.land (sum (data ++ [offset])) 0xFF] in
  validate_checksum (Some payload) = Ok true /\
  exists evs k ok s',
    write_block env addr offset data s = (Ok ok, s') /\
    trace s' = trace s ++ evs /\
    transfers evs = replicate k (BusWrite addr offset payload) /\
    (1 <= k <= 5)%nat /\
    (ok = false -> k = 5%nat) /\
    nodes s' = nodes s.
Proof.
  cbv zeta. split.
  - replace (data ++ [offset; Z.land (sum (data ++ [offset])) 255])
      with ((data ++ [offset]) ++ [Z.land (sum (data ++ [offset])) 255])
      by (by rewrite <- app_assoc).
    rewrite validate_checksum_snoc. by rewrite Z.eqb_refl.
  - apply write_block_runs.
Qed.

Section ReadOutcomes.

Variables (env : Env) (addr offset size : Z).

Lemma read_block_loop_all_io_errors remaining : forall data s,
  (forall n, read_i2c_block_data env n addr offset (size + 1) = None) ->
  exists evs s',
    read_block_loop env remaining addr offset size data s = (Ok data, s') /\
    i2c_response s' = i2c_response s /\
    (remaining <> O \/ is_Some (i2c_request s) -> is_Some (i2c_request s')) /\
    nodes s' = nodes s /\
    trace s' = trace s ++ evs /\
    Forall (read_or_log offset) evs /\
    transfers evs = replicate remaining (BusRead addr offset (size + 1)).
Proof.
  intros data s Hbus. revert s.
  induction remaining as [|remaining IH]; intros s.
  { exists [], s. simpl. rewrite app_nil_r. repeat split; try done. by intros [|]. }
  cbn [read_block_loop]. run_io.
  destruct (i2c_timestamp s =? -1); simpl; rewrite Hbus;
    destruct (hardware_log_callback s); simpl;
    repeat match goal with |- context [if ?b then _ else _] => destruct b; simpl end;
    match goal with
    | |- context [read_block_loop env remaining addr offset size data ?s'] =>
        destruct (IH s') as (evs & s'' & -> & Hresp & Hreq & Hn & Ht & Hall & Hevs)
    end; simpl in *; rewrite <- ?app_assoc in Ht;
    (eexists _, s''; split; [reflexivity|]; split; [exact Hresp|];
     split; [intros _; apply Hreq; by right|];
     split; [exact Hn|]; split; [exact Ht|]);
    (split; [repeat (apply Forall_cons; split; [done|]); exact Hall|]);
    simpl; rewrite ?transfers_app; simpl; by rewrite ?Hevs.
Qed.

(** Property X8.
    When every attempt ends in an [IOError], [read_block] returns [None]
    after exactly five reads, with [i2c_response] and the nodes as they
    were. *)
Theorem read_block_io_errors s :
  (forall n, read_i2c_block_data env n addr offset (size + 1) = None) ->
  exists evs s',
    read_block env addr offset size s = (Ok None, s') /\
    i2c_response s' = i2c_response s /\
    nodes s' = nodes s /\
    trace s' = trace s ++ evs /\
    transfers evs = replicate 5 (BusRead addr offset (size + 1)).
Proof.
  intros Hbus.
  destruct (read_block_loop_all_io_errors (Z.to_nat I2C_RETRY_COUNT) None s Hbus)
    as (evs & s' & Hrun & Hresp & _ & Hn & Ht & _ & Hevs).
  by exists evs, s'.
Qed.

Lemma read_block_first_valid s d :
  (forall n, read_i2c_block_data env n addr offset (size + 1) = Some d) ->
  validate_checksum (Some d) = Ok true ->
  exists n s',
    read_block env addr offset size s = (Ok (Some (init d)), s') /\
    S (length (init d)) = length d /\
    nodes s' = nodes s /\
    pass_record_callback s' = pass_record_callback s /\
    node_crossing_callback s' = node_crossing_callback s /\
    trace s' = trace s ++ [BusRead addr offset (size + 1)] /\
    i2c_request s' = Some (monotonic env n) /\
    i2c_response s' = Some (monotonic env (S (S n))) /\
    i2c_timestamp s' = milliseconds env (S (S (S n))).
Proof.
  intros Hbus Hsum. unfold read_block. change (Z.to_nat I2C_RETRY_COUNT) with 5%nat.
  cbn [read_block_loop]. run_io. cbn [validate_checksum] in Hsum.
  assert (Hlen : S (length (init d)) = length d).
  { unfold init. rewrite length_take. destruct d; [done|simpl; lia]. }
  destruct (i2c_timestamp s =? -1); simpl; rewrite Hbus; simpl; rewrite Hsum; simpl;
    eexists _, _; (split; [reflexivity|]); simpl; repeat split; done.
Qed.

(** Property X9.
    A frame whose checksum is right is returned at the first attempt,
    without its checksum byte: one read, and the two timestamps around it
    are readings of [monotonic()] taken before and after the transfer. *)
Theorem read_block_valid_frame s d :
  (forall n, read_i2c_block_data env n addr offset (size + 1) = Some d) ->
  validate_checksum (Some d) = Ok true ->
  exists n s',
    read_block env addr offset size s = (Ok (Some (init d)), s') /\
    S (length (init d)) = length d /\
    trace s' = trace s ++ [BusRead addr offset (size + 1)] /\
    i2c_request s' = Some (monotonic env n) /\
    i2c_response s' = Some (monotonic env (S (S n))) /\
    i2c_timestamp s' = milliseconds env (S (S (S n))).
Proof.
  intros Hbus Hsum.
  destruct (read_block_first_valid s d Hbus Hsum)
    as (n & s' & Hrun & Hlen & _ & _ & _ & Ht & Hreq & Hresp & Hts).
  by exists n, s'.
Qed.

End ReadOutcomes.

Lemma read_block_loop_result env remaining addr offset size : forall data s,
  (forall n, read_i2c_block_data env n addr offset (size + 1) <> Some []) ->
  read_result env addr offset size data ->
  exists r s',
    read_block_loop env remaining addr offset size data s = (Ok r, s') /\
    read_result env addr offset size r.
Proof.
  intros data s Hbus. revert data s.
  induction remaining as [|remaining IH]; intros data s Hdata.
  { by exists data, s. }
  cbn [read_block_loop]. run_io.
  destruct (i2c_timestamp s =? -1); simpl;
    match goal with |- context [read_i2c_block_data env ?n _ _ _] =>
      specialize (Hbus n) as Hn;
      destruct (read_i2c_block_data env n addr offset (size + 1)) as [d|] eqn:Hd
    end; simpl.
  all: try (destruct (last d) as [b|] eqn:Hlast; simpl;
            [|by apply last_None in Hlast; subst d];
            destruct (Z.land _ _ =? b) eqn:Hsum; simpl;
            [eexists _, _; split; [reflexivity|]; right; eexists _, d;
             split; [exact Hd|]; left; split; [done|];
             cbn [validate_checksum]; by rewrite Hlast, Hsum|]).
  all: repeat match goal with |- context [if ?b then _ else _] => destruct b; simpl end;
    apply IH; try done.
  all: right; eexists _, d; split; [exact Hd|]; right; split; [done|];
    cbn [validate_checksum]; by rewrite Hlast, Hsum.
Qed.

(** Property X10.
    As long as the bus never answers an empty list, [read_block] returns,
    and what it returns is [None], or a frame that the bus answered and
    that passed the checksum, without its checksum byte, or a frame that
    the bus answered and that failed the checksum, whole. *)
Theorem read_block_never_raises env addr offset size s :
  (forall n, read_i2c_block_data env n addr offset (size + 1) <> Some []) ->
  exists r s',
    read_block env addr offset size s = (Ok r, s') /\
    read_result env addr offset size r.
Proof. intros Hbus. apply read_block_loop_result; [done|by left]. Qed.

(** ** Reading a value and reading it back *)

Section Echo.

Variables (env : Env) (node : nat) (n : Node) (rc : Z).

(** The value read by [get_value_8], [get_value_16] or [get_value_32],
    given by its unpacker and the size of its frame, when the node answers
    the packed value [v]. *)
Lemma get_value_echo (unpack : list Z -> Result Z) (pack : Z -> list Z) size v s :
  (forall x, unpack (pack x) = Ok x) ->
  nodes s !! node = Some n ->
  (forall k, read_i2c_block_data env k (i2c_addr n) rc (size + 1) = Some (on_wire (pack v))) ->
  exists s',
    (addr <- node_get node i2c_addr ;;
     data <- read_block env addr rc size ;;
     match data with
     | Some data => v <- lift (unpack data) ;; ret (Some v)
     | None => ret None
     end) s = (Ok (Some v), s') /\
    nodes s' = nodes s /\
    trace s' = trace s ++ [BusRead (i2c_addr n) rc (size + 1)].
Proof.
  intros Hunpack Hn Hbus. rewrite (bind_node_get _ _ _ _ _ Hn).
  destruct (validate_checksum_on_wire (pack v)) as [Hsum Hinit].
  destruct (read_block_first_valid env (i2c_addr n) rc size s _ Hbus Hsum)
    as (k & s' & Hrun & _ & Hnodes & _ & _ & Htrace & _).
  exists s'. unfold bind at 1. rewrite Hrun, Hinit, Hunpack. done.
Qed.

(** Property X11.
    When the node answers the packed value, each of the three readers
    returns that value after a single read, for every integer. *)
Theorem get_value_reads_packed_value v s :
  nodes s !! node = Some n ->
  ((forall k, read_i2c_block_data env k (i2c_addr n) rc 2 = Some (on_wire (pack_8 v))) ->
   exists s', get_value_8 env node rc s = (Ok (Some v), s') /\
              trace s' = trace s ++ [BusRead (i2c_addr n) rc 2]) /\
  ((forall k, read_i2c_block_data env k (i2c_addr n) rc 3 = Some (on_wire (pack_16 v))) ->
   exists s', get_value_16 env node rc s = (Ok (Some v), s') /\
              trace s' = trace s ++ [BusRead (i2c_addr n) rc 3]) /\
  ((forall k, read_i2c_block_data env k (i2c_addr n) rc 5 = Some (on_wire (pack_32 v))) ->
   exists s', get_value_32 env node rc s = (Ok (Some v), s') /\
              trace s' = trace s ++ [BusRead (i2c_addr n) rc 5]).
Proof.
  intros Hn. split; [|split]; intros Hbus.
  - destruct (get_value_echo unpack_8 pack_8 1 v s) as (s' & Hrun & _ & Ht); try done.
    by exists s'.
  - destruct (get_value_echo unpack_16 pack_16 2 v s unpack_pack_16)
      as (s' & Hrun & _ & Ht); try done.
    by exists s'.
  - destruct (get_value_echo unpack_32 pack_32 4 v s unpack_pack_32)
      as (s' & Hrun & _ & Ht); try done.
    by exists s'.
Qed.



End Echo.

(** ** Set and validate on a node that cannot be read *)

Section Unreadable.

Variable env : Env.
Hypothesis bus_down : forall k addr cmd len, read_i2c_block_data env k addr cmd len = None.





End Unreadable.

(** ** Writes without read-back *)

Lemma set_value_loop_attempts env pack remaining node wc in_value n : forall s,
  nodes s !! node = Some n ->
  exists evs k ok s',
    set_value_loop env pack remaining node wc in_value s = (Ok ok, s') /\
    trace s' = trace s ++ evs /\
    nodes s' = nodes s /\
    transfers evs =
      replicate k (BusWrite (i2c_addr n) wc
        (pack in_value ++ [wc; Z.land (sum (pack in_value ++ [wc])) 0xFF])) /\
    (k <= 5 * remaining)%nat /\ (remaining <> O -> 1 <= k)%nat /\
    (ok = false -> k = (5 * remaining)%nat).
Proof.
  induction remaining as [|remaining IH]; intros s Hn.
  { exists [], O, false, s. simpl. rewrite app_nil_r. repeat split; try done; lia. }
  cbn [set_value_loop]. rewrite (bind_node_get _ _ _ _ _ Hn).
  destruct (write_block_runs env (i2c_addr n) wc (pack in_value) s)
    as (evs1 & k1 & ok1 & s1 & Hrun1 & Ht1 & Hevs1 & Hk1 & Hok1 & Hn1).
  unfold bind at 1. rewrite Hrun1. destruct ok1.
  - exists evs1, k1, true, s1. repeat split; try done; lia.
  - specialize (Hok1 eq_refl). subst k1.
    destruct (log_runs (ValueNotSet (I2C_RETRY_COUNT - Z.of_nat (S remaining) + 1)
                          wc in_value node) s1) as (s2 & Hlog & Hn2).
    assert (Ht2 : exists logs, trace s2 = trace s1 ++ logs /\ transfers logs = []).
    { unfold log, bind, gets, emit, modify in Hlog.
      destruct (hardware_log_callback s1); injection Hlog as <-; simpl.
      - by eexists [_].
      - exists []. by rewrite app_nil_r. }
    destruct Ht2 as (logs & Ht2 & Hlogs).
    destruct (IH s2) as (evs3 & k3 & ok3 & s3 & Hrun3 & Ht3 & Hn3 & Hevs3 & Hk3 & _ & Hok3).
    { by rewrite Hn2, Hn1. }
    exists (evs1 ++ logs ++ evs3), (5 + k3)%nat, ok3, s3. split.
    { unfold bind. by rewrite Hlog. }
    split; [by rewrite Ht3, Ht2, Ht1, <- !app_assoc|].
    split; [congruence|]. split.
    { by rewrite !transfers_app, Hevs1, Hlogs, Hevs3. }
    repeat split; try lia. intros Hf. rewrite (Hok3 Hf). lia.
Qed.

(** Property X14.
    [set_value_8] and [set_value_32] retry a [write_block] that itself
    retries: they return after 1 to 25 writes of the same payload, which
    unpacks to the value, and they return [False] only after 25; they make
    no read and change no node. *)
Theorem set_value_attempts env node wc in_value s n :
  nodes s !! node = Some n ->
  (exists evs k ok s',
     set_value_8 env node wc in_value s = (Ok ok, s') /\
     trace s' = trace s ++ evs /\
     nodes s' = nodes s /\
     transfers evs =
       replicate k (BusWrite (i2c_addr n) wc [in_value; wc; Z.land (in_value + (wc + 0)) 0xFF]) /\
     (1 <= k <= 25)%nat /\ (ok = false -> k = 25%nat)) /\
  (exists evs k ok s' payload,
     set_value_32 env node wc in_value s = (Ok ok, s') /\
     trace s' = trace s ++ evs /\
     nodes s' = nodes s /\
     transfers evs = replicate k (BusWrite (i2c_addr n) wc payload) /\
     unpack_32 payload = Ok in_value /\ item payload 4 = Ok wc /\
     validate_checksum (Some payload) = Ok true /\
     (1 <= k <= 25)%nat /\ (ok = false -> k = 25%nat)).
Proof.
  intros Hn. split.
  - destruct (set_value_loop_attempts env pack_8 (Z.to_nat I2C_RETRY_COUNT)
                node wc in_value n s Hn)
      as (evs & k & ok & s' & Hrun & Ht & Hn' & Hevs & Hle & Hge & Hok).
    exists evs, k, ok, s'. change (Z.to_nat I2C_RETRY_COUNT) with 5%nat in *.
    do 3 (split; [done|]). split; [exact Hevs|].
    split; [split; [by apply Hge|lia]|]. intros Hf. by rewrite (Hok Hf).
  - destruct (set_value_loop_attempts env pack_32 (Z.to_nat I2C_RETRY_COUNT)
                node wc in_value n s Hn)
      as (evs & k & ok & s' & Hrun & Ht & Hn' & Hevs & Hle & Hge & Hok).
    exists evs, k, ok, s'. eexists. change (Z.to_nat I2C_RETRY_COUNT) with 5%nat in *.
    do 3 (split; [done|]). split; [exact Hevs|]. split; [|split; [done|split]].
    + pose proof (unpack_pack_32 in_value) as H. unfold unpack_32, pack_32 in *.
      by simpl in *.
    + change (pack_32 in_value ++ [wc; Z.land (sum (pack_32 in_value ++ [wc])) 255])
        with ((pack_32 in_value ++ [wc]) ++ [Z.land (sum (pack_32 in_value ++ [wc])) 255]).
      by rewrite validate_checksum_snoc, Z.eqb_refl.
    + split; [split; [by apply Hge|lia]|]. intros Hf. by rewrite (Hok Hf).
Qed.

(** Property X15.
    [force_end_crossing] does nothing on a node below API level 14.  From
    level 14 on it returns after 1 to 25 writes of the payload
    [0, FORCE_END_CROSSING, FORCE_END_CROSSING] to the node, the last byte
    being the checksum, and tells its caller nothing of a failure. *)
Theorem force_end_crossing_writes env node_index s n :
  nodes s !! node_index = Some n ->
  (api_level n < 14 -> force_end_crossing env node_index s = (Ok tt, s)) /\
  (14 <= api_level n ->
   exists evs k s',
     force_end_crossing env node_index s = (Ok tt, s') /\
     trace s' = trace s ++ evs /\
     nodes s' = nodes s /\
     transfers evs =
       replicate k (BusWrite (i2c_addr n) FORCE_END_CROSSING
                      [0; FORCE_END_CROSSING; FORCE_END_CROSSING]) /\
     (1 <= k <= 25)%nat).
Proof.
  intros Hn. unfold force_end_crossing. rewrite (bind_node_get _ _ _ _ _ Hn). split.
  - intros Hapi. by destruct (14 <=? api_level n) eqn:E; [lia|].
  - intros Hapi. destruct (14 <=? api_level n) eqn:E; [|lia].
    destruct (set_value_loop_attempts env pack_8 (Z.to_nat I2C_RETRY_COUNT)
                node_index FORCE_END_CROSSING 0 n s Hn)
      as (evs & k & ok & s' & Hrun & Ht & Hn' & Hevs & Hle & Hge & _).
    exists evs, k, s'. unfold bind, set_value_8. rewrite Hrun.
    change (Z.to_nat I2C_RETRY_COUNT) with 5%nat in *.
    do 4 (split; [done|]). split; [by apply Hge|lia].
Qed.

(** ** Starting a capture *)

Ltac nodes_eq Hn :=
  apply list_eq; intros ?j;
  match goal with
  | |- _ !! ?j = <[?i := _]> _ !! ?j =>
      destruct (decide (j = i)) as [->|?];
      [ rewrite !list_lookup_alter_eq, Hn, list_lookup_insert_eq;
        [done|by eapply lookup_lt_Some]
      | by rewrite !list_lookup_alter_ne, list_lookup_insert_ne ]
  end.

Lemma start_capture_enter_runs env node_index s n :
  nodes s !! node_index = Some n ->
  cap_enter_at_flag n = false -> api_valid_flag n = true ->
  start_capture_enter_at_level env node_index s =
    (Ok true,
     with_ticks (S (ticks s))
       (with_nodes
          (<[node_index :=
               with_cap_enter_at_flag true
                 (with_cap_enter_at_millis
                    (milliseconds env (ticks s) + CAP_ENTER_EXIT_AT_MILLIS)
                    (with_cap_enter_at_count 0 (with_cap_enter_at_total 0 n)))]>
             (nodes s)) s)).
Proof.
  intros Hn Hflag Hvalid. unfold start_capture_enter_at_level.
  rewrite !(bind_node_get _ _ _ _ _ Hn), Hflag, Hvalid. simpl.
  unfold bind, node_set, call_milliseconds, tick, modify, gets, ret. simpl.
  do 2 f_equal. unfold with_ticks, with_nodes. simpl. f_equal. nodes_eq Hn.
Qed.

Lemma start_capture_exit_runs env node_index s n :
  nodes s !! node_index = Some n ->
  cap_exit_at_flag n = false -> api_valid_flag n = true ->
  start_capture_exit_at_level env node_index s =
    (Ok true,
     with_ticks (S (ticks s))
       (with_nodes
          (<[node_index :=
               with_cap_exit_at_flag true
                 (with_cap_exit_at_millis
                    (milliseconds env (ticks s) + CAP_ENTER_EXIT_AT_MILLIS)
                    (with_cap_exit_at_count 0 (with_cap_exit_at_total 0 n)))]>
             (nodes s)) s)).
Proof.
  intros Hn Hflag Hvalid. unfold start_capture_exit_at_level.
  rewrite !(bind_node_get _ _ _ _ _ Hn), Hflag, Hvalid. simpl.
  unfold bind, node_set, call_milliseconds, tick, modify, gets, ret. simpl.
  do 2 f_equal. unfold with_ticks, with_nodes. simpl. f_equal. nodes_eq Hn.
Qed.

Lemma start_capture_refused env node_index s n :
  nodes s !! node_index = Some n ->
  (cap_enter_at_flag n = true ->
   start_capture_enter_at_level env node_index s = (Ok false, s)) /\
  (cap_exit_at_flag n = true ->
   start_capture_exit_at_level env node_index s = (Ok false, s)).
Proof.
  intros Hn. unfold start_capture_enter_at_level, start_capture_exit_at_level.
  rewrite !(bind_node_get _ _ _ _ _ Hn). by split; intros ->.
Qed.

(** Property X16.
    A capture is started on a node that supports the newer API and is not
    capturing: the accumulators are cleared, the deadline is 3000 ms after
    the reading of the clock, nothing goes over the bus and no subscriber
    is called.  Started again before it has ended, the capture is refused
    and keeps its deadline and its accumulators.  A node that does not
    support the newer API is refused at once. *)
Theorem start_capture_not_restarted env env' node_index s n :
  nodes s !! node_index = Some n ->
  cap_enter_at_flag n = false ->
  cap_exit_at_flag n = false ->
  if api_valid_flag n then
    (exists s1 n1,
       start_capture_enter_at_level env node_index s = (Ok true, s1) /\
       trace s1 = trace s /\
       nodes s1 = <[node_index := n1]> (nodes s) /\
       cap_enter_at_flag n1 = true /\
       cap_enter_at_total n1 = 0 /\ cap_enter_at_count n1 = 0 /\
       cap_enter_at_millis n1 = milliseconds env (ticks s) + CAP_ENTER_EXIT_AT_MILLIS /\
       start_capture_enter_at_level env' node_index s1 = (Ok false, s1)) /\
    (exists s1 n1,
       start_capture_exit_at_level env node_index s = (Ok true, s1) /\
       trace s1 = trace s /\
       nodes s1 = <[node_index := n1]> (nodes s) /\
       cap_exit_at_flag n1 = true /\
       cap_exit_at_total n1 = 0 /\ cap_exit_at_count n1 = 0 /\
       cap_exit_at_millis n1 = milliseconds env (ticks s) + CAP_ENTER_EXIT_AT_MILLIS /\
       start_capture_exit_at_level env' node_index s1 = (Ok false, s1))
  else
    start_capture_enter_at_level env node_index s = (Ok false, s) /\
    start_capture_exit_at_level env node_index s = (Ok false, s).
Proof.
  intros Hn Henter Hexit. destruct (api_valid_flag n) eqn:Hvalid.
  - split.
    + eexists _, _. split; [by apply start_capture_enter_runs|].
      split; [done|]. split; [done|]. do 4 (split; [done|]).
      eapply start_capture_refused;
        [simpl; apply list_lookup_insert_eq; by eapply lookup_lt_Some|done].
    + eexists _, _. split; [by apply start_capture_exit_runs|].
      split; [done|]. split; [done|]. do 4 (split; [done|]).
      eapply start_capture_refused;
        [simpl; apply list_lookup_insert_eq; by eapply lookup_lt_Some|done].
  - unfold start_capture_enter_at_level, start_capture_exit_at_level.
    rewrite !(bind_node_get _ _ _ _ _ Hn), Hvalid. by rewrite !andb_false_r.
Qed.

(** ** Nodes that are switched off *)

Lemma poll_nodes_disabled env positions l s :
  Forall (fun i => exists n, nodes s !! i = Some n /\ frequency n = 0) positions ->
  poll_nodes env positions l s = (Ok l, s).
Proof.
  induction 1 as [|i positions (n & Hn & Hfreq) _ IH]; [done|].
  cbn [poll_nodes]. unfold bind at 1, poll_node.
  rewrite (bind_node_get _ _ _ _ _ Hn), Hfreq. simpl. exact IH.
Qed.

(** Property X17.
    When every node has frequency 0, a poll cycle does nothing at all:
    no transfer, no callback, no clock reading, no change. *)
Theorem update_skips_disabled_nodes env s :
  Forall (fun n => frequency n = 0) (nodes s) ->
  update env s = (Ok tt, s).
Proof.
  intros Hoff. unfold update, poll_phase, bind at 1 2, gets.
  rewrite poll_nodes_disabled; [done|].
  apply Forall_forall. intros i Hi%list_elem_of_In%in_seq.
  destruct (lookup_lt_is_Some_2 (nodes s) i) as [n Hn]; [lia|].
  exists n. split; [done|]. rewrite Forall_forall in Hoff.
  by apply Hoff, (list_elem_of_lookup_2 _ i).
Qed.

(** ** Nodes that do not answer *)

Section Silent.

Variable env : Env.
Hypothesis bus_down : forall k addr cmd len, read_i2c_block_data env k addr cmd len = None.

Lemma read_block_silent addr size s :
  exists evs s',
    read_block env addr READ_LAP_STATS size s = (Ok None, s') /\
    i2c_response s' = i2c_response s /\
    is_Some (i2c_request s') /\
    nodes s' = nodes s /\
    trace s' = trace s ++ evs /\
    Forall (read_or_log READ_LAP_STATS) evs /\
    length (transfers evs) = 5%nat.
Proof.
  destruct (read_block_loop_all_io_errors env addr READ_LAP_STATS size
              (Z.to_nat I2C_RETRY_COUNT) None s)
    as (evs & s' & Hrun & Hresp & Hreq & Hn & Ht & Hall & Hevs); [by intros|].
  exists evs, s'. repeat split; try done.
  - apply Hreq. by left.
  - by rewrite Hevs, length_replicate.
Qed.

Lemma read_lap_stats_silent node l s n :
  nodes s !! node = Some n ->
  is_Some (i2c_response s) ->
  exists l' s' evs,
    read_lap_stats env node l s = (Ok (None, l'), s') /\
    upd_list l' = upd_list l /\ cross_list l' = cross_list l /\
    nodes s' = nodes s /\
    i2c_response s' = i2c_response s /\
    trace s' = trace s ++ evs /\
    Forall (read_or_log READ_LAP_STATS) evs /\
    length (transfers evs) = 5%nat.
Proof.
  intros Hn [response Hresponse]. unfold read_lap_stats.
  rewrite !(bind_node_get _ _ _ _ _ Hn).
  assert (Hplain : forall size,
    exists l' s' evs,
      (data <- read_block env (i2c_addr n) READ_LAP_STATS size ;; ret (data, l)) s
        = (Ok (None, l'), s') /\
      upd_list l' = upd_list l /\ cross_list l' = cross_list l /\
      nodes s' = nodes s /\ i2c_response s' = i2c_response s /\
      trace s' = trace s ++ evs /\
      Forall (read_or_log READ_LAP_STATS) evs /\ length (transfers evs) = 5%nat).
  { intros size.
    destruct (read_block_silent (i2c_addr n) size s)
      as (evs & s' & Hrun & Hresp & _ & Hnodes & Ht & Hall & Hlen).
    exists l, s', evs. unfold bind. by rewrite Hrun. }
  assert (Htimed : forall size,
    exists l' s' evs,
      (data <- read_block env (i2c_addr n) READ_LAP_STATS size ;;
       l <- measure_readtime l ;; ret (data, l)) s
        = (Ok (None, l'), s') /\
      upd_list l' = upd_list l /\ cross_list l' = cross_list l /\
      nodes s' = nodes s /\ i2c_response s' = i2c_response s /\
      trace s' = trace s ++ evs /\
      Forall (read_or_log READ_LAP_STATS) evs /\ length (transfers evs) = 5%nat).
  { intros size.
    destruct (read_block_silent (i2c_addr n) size s)
      as (evs & s' & Hrun & Hresp & [request Hreq] & Hnodes & Ht & Hall & Hlen).
    eexists _, s', evs. unfold bind at 1. rewrite Hrun. unfold bind.
    rewrite (measure_readtime_oneway l s' request response); [|done|congruence].
    by repeat split. }
  destruct (api_valid_flag n || (5 <=? api_level n)); [|apply Hplain].
  destruct (18 <=? api_level n); [apply Htimed|].
  destruct (17 <=? api_level n); [apply Htimed|].
  destruct (13 <=? api_level n); apply Hplain.
Qed.

Lemma poll_node_silent node l s n :
  nodes s !! node = Some n ->
  is_Some (i2c_response s) ->
  exists l' s' evs,
    poll_node env node l s = (Ok l', s') /\
    upd_list l' = upd_list l /\ cross_list l' = cross_list l /\
    nodes s' = nodes s /\
    i2c_response s' = i2c_response s /\
    trace s' = trace s ++ evs /\
    Forall (read_or_log READ_LAP_STATS) evs /\
    length (transfers evs) = (if enabled n then 5 else 0)%nat.
Proof.
  intros Hn Hresp. unfold poll_node, enabled. rewrite (bind_node_get _ _ _ _ _ Hn).
  destruct (frequency n =? 0).
  - exists l, s, []. rewrite app_nil_r. by repeat split.
  - destruct (read_lap_stats_silent node l s n Hn Hresp)
      as (l' & s' & evs & Hrun & Hu & Hc & Hnodes & Hr & Ht & Hall & Hlen).
    exists l', s', evs. unfold bind. rewrite Hrun. by repeat split.
Qed.

Lemma poll_nodes_silent ns : forall pre l s,
  nodes s = pre ++ ns ->
  is_Some (i2c_response s) ->
  exists l' s' evs,
    poll_nodes env (seq (length pre) (length ns)) l s = (Ok l', s') /\
    upd_list l' = upd_list l /\ cross_list l' = cross_list l /\
    nodes s' = nodes s /\
    trace s' = trace s ++ evs /\
    Forall (read_or_log READ_LAP_STATS) evs /\
    length (transfers evs) = (5 * length (List.filter enabled ns))%nat.
Proof.
  induction ns as [|n ns IH]; intros pre l s Hnodes Hresp.
  { exists l, s, []. rewrite app_nil_r. by repeat split. }
  assert (Hn : nodes s !! length pre = Some n).
  { rewrite Hnodes. by apply list_lookup_middle. }
  destruct (poll_node_silent (length pre) l s n Hn Hresp)
    as (l1 & s1 & evs1 & Hrun1 & Hu1 & Hc1 & Hn1 & Hr1 & Ht1 & Hall1 & Hlen1).
  destruct (IH (pre ++ [n]) l1 s1)
    as (l2 & s2 & evs2 & Hrun2 & Hu2 & Hc2 & Hn2 & Ht2 & Hall2 & Hlen2).
  { by rewrite Hn1, Hnodes, <- app_assoc. }
  { by rewrite Hr1. }
  rewrite length_app in Hrun2. simpl in Hrun2.
  replace (length pre + 1)%nat with (S (length pre)) in Hrun2 by lia.
  exists l2, s2, (evs1 ++ evs2). cbn [length seq poll_nodes]. unfold bind at 1.
  rewrite Hrun1, Hrun2. split; [done|].
  split; [congruence|]. split; [congruence|]. split; [congruence|].
  split; [by rewrite Ht2, Ht1, <- app_assoc|].
  split; [by apply Forall_app|].
  rewrite transfers_app, length_app, Hlen1, Hlen2. cbn [List.filter].
  destruct (enabled n); simpl; lia.
Qed.

(** Property X18.
    When no read of the bus goes through, a poll cycle returns with
    every node as it was and no subscriber called but the hardware log:
    all it does on the bus is five reads of [READ_LAP_STATS] for each node
    whose frequency is not 0.  [i2c_response] must hold a time from an
    earlier read. *)
Theorem update_on_silent_bus s :
  is_Some (i2c_response s) ->
  exists evs s',
    update env s = (Ok tt, s') /\
    nodes s' = nodes s /\
    trace s' = trace s ++ evs /\
    Forall (read_or_log READ_LAP_STATS) evs /\
    length (transfers evs) = (5 * length (List.filter enabled (nodes s)))%nat.
Proof.
  intros Hresp.
  destruct (poll_nodes_silent (nodes s) [] new_locals s eq_refl Hresp)
    as (l & s' & evs & Hrun & Hu & Hc & Hn & Ht & Hall & Hlen).
  exists evs, s'. unfold update, poll_phase, bind at 1 2, gets.
  simpl in Hrun. rewrite Hrun. unfold dispatch. rewrite Hu, Hc. by repeat split.
Qed.

End Silent.

(** ** The offset that API levels 13 to 17 never assign *)

Lemma item_drop_ok data k j :
  (k + j < length data)%nat -> exists b, item (drop k data) j = Ok b.
Proof.
  intros Hlen. unfold item. rewrite lookup_drop.
  destruct (lookup_lt_is_Some_2 data (k + j)) as [b ->]; [done|]. by exists b.
Qed.

Lemma unpack_16_drop_ok data k :
  (k + 2 <= length data)%nat -> exists v, unpack_16 (drop k data) = Ok v.
Proof.
  intros Hlen. unfold unpack_16.
  destruct (item_drop_ok data k 0) as [b0 ->]; [lia|].
  destruct (item_drop_ok data k 1) as [b1 ->]; [lia|]. by eexists.
Qed.

Lemma unpack_32_drop_ok data k :
  (k + 4 <= length data)%nat -> exists v, unpack_32 (drop k data) = Ok v.
Proof.
  intros Hlen. unfold unpack_32.
  destruct (item_drop_ok data k 0) as [b0 ->]; [lia|].
  destruct (item_drop_ok data k 1) as [b1 ->]; [lia|].
  destruct (item_drop_ok data k 2) as [b2 ->]; [lia|].
  destruct (item_drop_ok data k 3) as [b3 ->]; [lia|]. by eexists.
Qed.

Lemma bind_unpack_rssi_16 {B} node data (k : Z -> IO B) s n v :
  nodes s !! node = Some n -> api_level n < 18 -> unpack_16 data = Ok v ->
  bind (unpack_rssi node data) k s = k v s.
Proof.
  intros Hn Hapi Hv. unfold unpack_rssi. rewrite bind_assoc, (bind_node_get _ _ _ _ _ Hn).
  replace (18 <=? api_level n) with false by lia. by rewrite Hv.
Qed.

Lemma bind_gets {A B} (f : RHInterface -> A) (k : A -> IO B) s :
  bind (gets f) k s = k (f s) s.
Proof. done. Qed.

Lemma bind_lift_eq {A B} (r : Result A) (a : A) (k : A -> IO B) s :
  r = Ok a -> bind (lift r) k s = k a s.
Proof. by intros ->. Qed.

(** After a [node_set], what is known of the node and of the trace. *)
Tactic Notation "advance" constr(Hn) constr(Ht) "as" ident(s') ident(Hn') ident(Ht') :=
  rewrite ?bind_assoc, bind_node_set;
  match goal with
  | |- context [with_nodes (alter ?f ?i (nodes ?s)) ?s] =>
      set (s' := with_nodes (alter f i (nodes s)) s);
      match type of Hn with
      | _ = Some ?n0 =>
          assert (Hn' : nodes s' !! i = Some (f n0))
            by (subst s'; cbn [nodes with_nodes]; by rewrite list_lookup_alter_eq, Hn)
      end;
      match type of Ht with
      | _ = ?t => assert (Ht' : trace s' = t) by (subst s'; exact Ht)
      end;
      clearbody s'
  end;
  cbv beta; rewrite ?bind_assoc.

Lemma decode_valid_unbound node data l s n :
  nodes s !! node = Some n ->
  13 <= api_level n < 18 ->
  offset_nodeNadirRssi l = None ->
  (18 <= length data)%nat ->
  exists s',
    decode_valid node data offsets_below_18 l s = (Raise UnboundLocalError, s') /\
    trace s' = trace s.
Proof.
  intros Hn Hapi Hoff Hlen. unfold decode_valid.
  cbn [offsets_below_18 offset_nodePeakRssi offset_passPeakRssi offset_loopTime
       offset_crossing offset_passNadirRssi].
  destruct (unpack_32_drop_ok data 1) as [ms Hms]; [lia|].
  destruct (unpack_16_drop_ok data 7) as [v7 H7]; [lia|].
  destruct (unpack_16_drop_ok data 9) as [v9 H9]; [lia|].
  destruct (unpack_16_drop_ok data 11) as [v11 H11]; [lia|].
  destruct (item_drop_ok data 0 15) as [c Hc]; [lia|]. rewrite drop_0 in Hc.
  destruct (unpack_16_drop_ok data 16) as [v16 H16]; [lia|].
  assert (Ht : trace s = trace s) by done.
  rewrite (bind_node_get _ _ _ _ _ Hn).
  replace (18 <=? api_level n) with false by lia.
  rewrite !bind_assoc, (bind_lift_eq _ _ _ _ Hms).
  advance Hn Ht as s1 Hn1 Ht1.
  rewrite bind_ret, (bind_unpack_rssi_16 _ _ _ _ _ _ Hn1 ltac:(simpl; lia) H7).
  advance Hn1 Ht1 as s2 Hn2 Ht2.
  rewrite (bind_unpack_rssi_16 _ _ _ _ _ _ Hn2 ltac:(simpl; lia) H9).
  advance Hn2 Ht2 as s3 Hn3 Ht3.
  rewrite (bind_lift_eq _ _ _ _ H11).
  advance Hn3 Ht3 as s4 Hn4 Ht4.
  rewrite (bind_lift_eq _ _ _ _ Hc), (bind_node_get _ _ _ _ _ Hn4).
  assert (Hend : forall l0 s5 n5,
    nodes s5 !! node = Some n5 -> api_level n5 = api_level n ->
    offset_nodeNadirRssi l0 = None ->
    ((unpack_rssi node (drop 16 data) ;;;
      api <- node_get node api_level ;;
      (if 13 <=? api
       then
         off <- bound (offset_nodeNadirRssi l0) ;;
         v <- unpack_rssi node (drop off data) ;;
         node_set node (with_node_nadir_rssi v)
       else ret tt) ;;;
      ret (inject_Z 0, l0)) s5) = (Raise UnboundLocalError, s5)).
  { intros l0 s5 n5 Hn5 Hapi5 Hoff5.
    rewrite (bind_unpack_rssi_16 _ _ _ _ _ _ Hn5 ltac:(lia) H16).
    rewrite (bind_node_get _ _ _ _ _ Hn5), Hapi5.
    replace (13 <=? api_level n) with true by lia. by rewrite Hoff5. }
  match goal with |- context [if ?b then _ else _] => destruct b end.
  - advance Hn4 Ht4 as s5 Hn5 Ht5. rewrite bind_gets, bind_ret.
    exists s5. split; [|done]. eapply Hend; [exact Hn5|done|].
    by destruct (node_crossing_callback s5).
  - rewrite bind_ret. exists s4. split; [|done]. eapply Hend; [exact Hn4|done..].
Qed.

Lemma accept_sample_unbound env node data lap_id rssi_val l s n :
  nodes s !! node = Some n ->
  api_valid_flag n = true ->
  13 <= api_level n < 18 ->
  offset_nodeNadirRssi l = None ->
  (18 <= length data)%nat ->
  exists s',
    accept_sample env node data lap_id rssi_val offsets_below_18 l s
      = (Raise UnboundLocalError, s') /\
    trace s' = trace s.
Proof.
  intros Hn Hvalid Hapi Hoff Hlen. unfold accept_sample.
  assert (Ht : trace s = trace s) by done.
  advance Hn Ht as s1 Hn1 Ht1.
  rewrite (bind_node_get _ _ _ _ _ Hn1). cbn [api_valid_flag with_current_rssi].
  rewrite Hvalid.
  destruct (decode_valid_unbound node data l s1 _ Hn1 Hapi Hoff Hlen) as (s' & Hrun & Ht').
  exists s'. unfold bind. rewrite Hrun. split; [done|congruence].
Qed.

Lemma process_frame_unbound env node data rssi l s n :
  nodes s !! node = Some n ->
  api_valid_flag n = true ->
  13 <= api_level n < 18 ->
  offset_nodeNadirRssi l = None ->
  (18 <= length data)%nat ->
  unpack_16 (drop 5 data) = Ok rssi ->
  MIN_RSSI_VALUE <= rssi <= MAX_RSSI_VALUE ->
  exists s',
    process_frame env node data l s = (Raise UnboundLocalError, s') /\
    trace s' = trace s.
Proof.
  intros Hn Hvalid Hapi Hoff Hlen Hrssi Hrange. unfold process_frame.
  destruct (item_drop_ok data 0 0) as [lap_id Hlap]; [lia|]. rewrite drop_0 in Hlap.
  rewrite (bind_lift_eq _ _ _ _ Hlap), (bind_node_get _ _ _ _ _ Hn).
  replace (18 <=? api_level n) with false by lia.
  cbn [offset_rssi offsets_below_18].
  rewrite (bind_unpack_rssi_16 _ _ _ _ _ _ Hn ltac:(lia) Hrssi).
  replace ((MIN_RSSI_VALUE <=? rssi) && (rssi <=? MAX_RSSI_VALUE)) with true
    by (symmetry; apply andb_true_iff; lia).
  by apply (accept_sample_unbound env node data lap_id rssi l s n).
Qed.

Lemma read_lap_stats_valid env node l s n data :
  nodes s !! node = Some n ->
  api_valid_flag n = true ->
  13 <= api_level n < 18 ->
  (forall k len,
     read_i2c_block_data env k (i2c_addr n) READ_LAP_STATS len = Some (on_wire data)) ->
  exists l' s',
    read_lap_stats env node l s = (Ok (Some data, l'), s') /\
    offset_nodeNadirRssi l' = offset_nodeNadirRssi l /\
    nodes s' = nodes s /\
    trace s' = trace s ++
      [BusRead (i2c_addr n) READ_LAP_STATS (if 17 <=? api_level n then 29 else 21)].
Proof.
  intros Hn Hvalid Hapi Hbus. unfold read_lap_stats.
  rewrite !(bind_node_get _ _ _ _ _ Hn), Hvalid. cbn [orb].
  replace (18 <=? api_level n) with false by lia.
  replace (13 <=? api_level n) with true by lia.
  destruct (validate_checksum_on_wire data) as [Hsum Hinit].
  destruct (17 <=? api_level n).
  - destruct (read_block_first_valid env (i2c_addr n) READ_LAP_STATS 28 s (on_wire data))
      as (k & s' & Hrun & _ & Hnodes & _ & _ & Ht & Hreq & Hresp & _); [by intros|done|].
    rewrite Hinit in Hrun. eexists _, s'. unfold bind at 1. rewrite Hrun. unfold bind.
    rewrite (measure_readtime_oneway l s' _ _ Hreq Hresp). by repeat split.
  - destruct (read_block_first_valid env (i2c_addr n) READ_LAP_STATS 20 s (on_wire data))
      as (k & s' & Hrun & _ & Hnodes & _ & _ & Ht & _); [by intros|done|].
    rewrite Hinit in Hrun. exists l, s'. unfold bind. rewrite Hrun. by repeat split.
Qed.

Lemma poll_nodes_app env xs ys l s :
  poll_nodes env (xs ++ ys) l s =
    (l' <- poll_nodes env xs l ;; poll_nodes env ys l') s.
Proof.
  revert l s. induction xs as [|x xs IH]; intros l s; [done|].
  cbn [app poll_nodes]. rewrite bind_assoc. unfold bind at 1. unfold bind at 1.
  destruct (poll_node env x l s) as [[l1|e] s1]; [apply IH|done].
Qed.

(** Property X19.
    A poll cycle whose first node with a nonzero frequency supports the
    newer API at a level from 13 to 17 ends in [UnboundLocalError] as soon
    as that node answers a frame with an RSSI within range: the branch for
    these levels assigns [offset_nodeNadirPassi] where the code that follows
    reads [offset_nodeNadirRssi], which only the branch for level 18 assigns.
    The frame has been read, and no subscriber is called. *)
Theorem update_unbound_nadir_offset env s i n data rssi :
  nodes s !! i = Some n ->
  (forall j m, (j < i)%nat -> nodes s !! j = Some m -> frequency m = 0) ->
  frequency n <> 0 ->
  api_valid_flag n = true ->
  13 <= api_level n < 18 ->
  (forall k len,
     read_i2c_block_data env k (i2c_addr n) READ_LAP_STATS len = Some (on_wire data)) ->
  (18 <= length data)%nat ->
  unpack_16 (drop 5 data) = Ok rssi ->
  MIN_RSSI_VALUE <= rssi <= MAX_RSSI_VALUE ->
  exists s',
    update env s = (Raise UnboundLocalError, s') /\
    trace s' = trace s ++
      [BusRead (i2c_addr n) READ_LAP_STATS (if 17 <=? api_level n then 29 else 21)].
Proof.
  intros Hn Hfirst Hfreq Hvalid Hapi Hbus Hlen Hrssi Hrange.
  assert (Hpoll : exists s',
    poll_node env i new_locals s = (Raise UnboundLocalError, s') /\
    trace s' = trace s ++
      [BusRead (i2c_addr n) READ_LAP_STATS (if 17 <=? api_level n then 29 else 21)]).
  { unfold poll_node. rewrite (bind_node_get _ _ _ _ _ Hn).
    replace (frequency n =? 0) with false by lia.
    destruct (read_lap_stats_valid env i new_locals s n data Hn Hvalid Hapi Hbus)
      as (l1 & s1 & Hrun1 & Hoff1 & Hn1 & Ht1).
    unfold bind. rewrite Hrun1. cbn [fst snd].
    destruct (process_frame_unbound env i data rssi l1 s1 n) as (s' & Hrun & Ht); try done.
    { by rewrite Hn1. }
    exists s'. split; [done|congruence]. }
  destruct Hpoll as (s' & Hpoll & Ht). exists s'. split; [|done].
  pose proof (lookup_lt_Some _ _ _ Hn) as Hi.
  unfold update, poll_phase, bind at 1 2, gets.
  replace (seq 0 (length (nodes s)))
    with (seq 0 i ++ i :: seq (S i) (length (nodes s) - S i)).
  2: { replace (length (nodes s)) with (i + S (length (nodes s) - S i))%nat at 2 by lia.
       by rewrite seq_app. }
  rewrite poll_nodes_app. unfold bind at 1. rewrite poll_nodes_disabled.
  - cbn [poll_nodes]. unfold bind at 1. by rewrite Hpoll.
  - apply Forall_forall. intros j Hj%list_elem_of_In%in_seq.
    destruct (lookup_lt_is_Some_2 (nodes s) j) as [m Hm]; [lia|].
    exists m. split; [done|]. apply (Hfirst j m); [lia|done].
Qed.

(** ** The history buffers *)

Section Hoare.

Context (P : RHInterface -> Prop).

Lemma hoare_ret {A} (a : A) (Q : A -> Prop) : Q a -> hoare P (ret a) Q.
Proof. intros HQ s Hs. split; [done|]. by intros a' s' [= <- _]. Qed.

Lemma hoare_bind {A B} (m : IO A) (k : A -> IO B) (Q : A -> Prop) (Q' : B -> Prop) :
  hoare P m Q -> (forall a, Q a -> hoare P (k a) Q') -> hoare P (bind m k) Q'.
Proof.
  intros Hm Hk s Hs. destruct (Hm s Hs) as [Hinv Hval]. unfold bind.
  destruct (m s) as [[a|e] s1]; simpl in *.
  - apply Hk; [by eapply Hval|done].
  - split; [done|]. by intros.
Qed.

Lemma hoare_weaken {A} (m : IO A) (Q Q' : A -> Prop) :
  hoare P m Q -> (forall a, Q a -> Q' a) -> hoare P m Q'.
Proof. intros Hm HQ s Hs. destruct (Hm s Hs). split; eauto. Qed.

(** Computations that leave the interface as it is. *)
Lemma hoare_lift {A} (r : Result A) : hoare P (lift r) (fun _ => True).
Proof. by intros s Hs. Qed.

Lemma hoare_raise {A} e : hoare P (raise (A := A) e) (fun _ => True).
Proof. by intros s Hs. Qed.

Lemma hoare_gets {A} (f : RHInterface -> A) : hoare P (gets f) (fun _ => True).
Proof. by intros s Hs. Qed.

Lemma hoare_node_get {A} i (f : Node -> A) : hoare P (node_get i f) (fun _ => True).
Proof. intros s Hs. unfold node_get. by destruct (nodes s !! i). Qed.

Lemma hoare_bound {A} (v : option A) : hoare P (bound v) (fun _ => True).
Proof. intros s Hs. by destruct v. Qed.

Lemma hoare_as_number {A} (v : option A) : hoare P (as_number v) (fun _ => True).
Proof. intros s Hs. by destruct v. Qed.

End Hoare.

Section History.

Variables (env : Env) (i : nat) (a : Z).

(** What leaves the nodes alone keeps the invariant. *)
Lemma hoare_same_nodes {A} (m : IO A) :
  steps (frame eq any_event) m -> hoare (history_inv i a) m (fun _ => True).
Proof.
  intros Hm s Hs. split; [|done].
  pose proof (frame_nodes _ _ _ _ (Hm s)) as Hn%list_eq_Forall2.
  unfold history_inv. by rewrite <- Hn.
Qed.

Lemma hoare_node_set j f :
  (forall n, balanced n -> balanced (f n)) ->
  (forall n, api_level (f n) = api_level n) ->
  hoare (history_inv i a) (node_set j f) (fun _ => True).
Proof.
  intros Hb Ha s [Hbal Hapi]. split; [|done]. split; simpl.
  - apply Forall_alter; eauto.
  - intros n. destruct (decide (i = j)) as [->|Hij].
    + rewrite list_lookup_alter_eq. destruct (nodes s !! j) as [n0|] eqn:E; [|done].
      intros [= <-]. rewrite Ha. by apply Hapi.
    + rewrite list_lookup_alter_ne by done. apply Hapi.
Qed.


End History.

Create HintDb hoare.

Ltac hoare_step :=
  first
    [ simple apply hoare_lift | simple apply hoare_raise | simple apply hoare_gets
    | simple apply hoare_node_get | simple apply hoare_bound
    | simple apply hoare_as_number
    | simple apply hoare_ret; exact I
    | solve [auto with hoare]
    | simple apply hoare_node_set;
      [ solve [intros ? ?; assumption] | solve [intros; reflexivity] ]
    | simple eapply hoare_bind with (Q := fun _ => True); [ | intros ? _ ]
    | match goal with |- hoare _ (if ?b then _ else _) _ => destruct b end
    | match goal with |- hoare _ (match ?x with _ => _ end) _ => destruct x end ].

Ltac hoare_steps := repeat hoare_step.


Section PollHistory.

Variables (env : Env) (i : nat) (a : Z).

Lemma hoare_read_block addr offset size :
  hoare (history_inv i a) (read_block env addr offset size) (fun _ => True).
Proof. apply hoare_same_nodes, read_block_frame; by try apply _. Qed.

Lemma hoare_log msg : hoare (history_inv i a) (log msg) (fun _ => True).
Proof. apply hoare_same_nodes, log_frame; by try apply _. Qed.

Lemma hoare_call_milliseconds :
  hoare (history_inv i a) (call_milliseconds env) (fun _ => True).
Proof. apply hoare_same_nodes, call_milliseconds_frame; by try apply _. Qed.

Lemma hoare_transmit_enter_at_level node level :
  hoare (history_inv i a) (transmit_enter_at_level env node level) (fun _ => True).
Proof. apply hoare_same_nodes, transmit_enter_at_level_frame; by try apply _. Qed.

Lemma hoare_transmit_exit_at_level node level :
  hoare (history_inv i a) (transmit_exit_at_level env node level) (fun _ => True).
Proof. apply hoare_same_nodes, transmit_exit_at_level_frame; by try apply _. Qed.

Lemma hoare_emit e : hoare (history_inv i a) (emit e) (fun _ => True).
Proof. apply hoare_same_nodes, frame_emit; by try apply _. Qed.

#[local] Hint Resolve hoare_read_block hoare_log hoare_call_milliseconds
  hoare_transmit_enter_at_level hoare_transmit_exit_at_level hoare_emit : hoare.

Lemma hoare_unpack_rssi node data :
  hoare (history_inv i a) (unpack_rssi node data) (fun _ => True).
Proof. unfold unpack_rssi. hoare_steps. Qed.

Lemma hoare_py_div x y : hoare (history_inv i a) (py_div x y) (fun _ => True).
Proof. unfold py_div. hoare_steps. Qed.

#[local] Hint Resolve hoare_unpack_rssi hoare_py_div : hoare.






Lemma hoare_capture_enter_at node :
  hoare (history_inv i a) (capture_enter_at env node) (fun _ => True).
Proof. unfold capture_enter_at. hoare_steps. Qed.

Lemma hoare_capture_exit_at node :
  hoare (history_inv i a) (capture_exit_at env node) (fun _ => True).
Proof. unfold capture_exit_at. hoare_steps. Qed.

Lemma hoare_decode_legacy node data :
  hoare (history_inv i a) (decode_legacy node data) (fun _ => True).
Proof. unfold decode_legacy. hoare_steps. Qed.

#[local] Hint Resolve hoare_capture_enter_at hoare_capture_exit_at hoare_decode_legacy : hoare.





End PollHistory.

#[export] Hint Resolve hoare_read_block hoare_log hoare_call_milliseconds
  hoare_transmit_enter_at_level hoare_transmit_exit_at_level hoare_emit
  hoare_unpack_rssi hoare_py_div : hoare.

Section CycleHistory.

Variable env : Env.








End CycleHistory.

(** ** The lap time below API level 18 *)

Lemma unpack_rssi_state node data s v s' :
  unpack_rssi node data s = (Ok v, s') -> s' = s.
Proof.
  unfold unpack_rssi, bind, node_get, lift.
  destruct (nodes s !! node) as [n|]; [|done].
  destruct (18 <=? api_level n); [destruct (unpack_8 data)|destruct (unpack_16 data)];
    congruence.
Qed.

(** Below level 18 the local [lap_time_ms] keeps the 0 it was given. *)
Lemma decode_valid_lap_time node data o l s n r s' :
  nodes s !! node = Some n -> api_level n < 18 ->
  decode_valid node data o l s = (Ok r, s') -> r.1 = inject_Z 0.
Proof.
  intros Hn Hapi Hrun. unfold decode_valid in Hrun.
  rewrite (bind_node_get _ _ _ _ _ Hn) in Hrun.
  replace (18 <=? api_level n) with false in Hrun by lia.
  apply bind_ok_inv in Hrun as (t & s1 & Ht & Hrun).
  apply bind_ok_inv in Ht as (ms & s0 & _ & Ht).
  apply bind_ok_inv in Ht as (u & s0' & _ & Ht). injection Ht as <- _.
  repeat (apply bind_ok_inv in Hrun as (? & ? & _ & Hrun)).
  by injection Hrun as <- _.
Qed.

Lemma accept_sample_lap_time env node data lap_id rssi_val o l s n l' s' :
  nodes s !! node = Some n -> api_valid_flag n = true -> api_level n < 18 ->
  accept_sample env node data lap_id rssi_val o l s = (Ok l', s') ->
  upd_list l' = upd_list l \/
  upd_list l' = upd_list l ++ [(node, lap_id, inject_Z 0)].
Proof.
  intros Hn Hvalid Hapi Hrun. unfold accept_sample in Hrun.
  rewrite bind_node_set in Hrun.
  set (s1 := with_nodes _ s) in Hrun.
  assert (Hn1 : nodes s1 !! node = Some (with_current_rssi rssi_val n)).
  { subst s1. cbn [nodes with_nodes]. by rewrite list_lookup_alter_eq, Hn. }
  clearbody s1. rewrite (bind_node_get _ _ _ _ _ Hn1) in Hrun.
  cbn [api_valid_flag with_current_rssi] in Hrun. rewrite Hvalid in Hrun.
  apply bind_ok_inv in Hrun as (r & s2 & Hdec & Hrun).
  pose proof (decode_valid_lap_time _ _ _ _ _ _ _ _ Hn1 Hapi Hdec) as Hr.
  pose proof (decode_valid_returns (node_crossing_callback s1) _ _ _ _ _ _ _ eq_refl Hdec)
    as [Hu _].
  cbv zeta in Hrun.
  apply bind_ok_inv in Hrun as (last & s3 & _ & Hrun).
  repeat (apply bind_ok_inv in Hrun as (? & ? & _ & Hrun)).
  injection Hrun as <- _.
  destruct (negb (lap_id =? last)); simpl; rewrite ?Hu, ?Hr; auto.
Qed.

Lemma poll_node_lap_time env node l s n l' s' :
  nodes s !! node = Some n -> api_valid_flag n = true -> api_level n < 18 ->
  poll_node env node l s = (Ok l', s') ->
  upd_list l' = upd_list l \/
  exists lap_id, upd_list l' = upd_list l ++ [(node, lap_id, inject_Z 0)].
Proof.
  intros Hn Hvalid Hapi Hrun. unfold poll_node in Hrun.
  rewrite (bind_node_get _ _ _ _ _ Hn) in Hrun.
  destruct (frequency n =? 0); [injection Hrun as <- _; by left|].
  apply bind_ok_inv in Hrun as (r & s1 & Hread & Hrun).
  pose proof (read_lap_stats_nodes env node l s) as Hnodes.
  rewrite Hread in Hnodes. simpl in Hnodes.
  pose proof (read_lap_stats_returns env (node_crossing_callback s) _ _ _ _ _ eq_refl Hread)
    as [Hu _].
  assert (Hn1 : nodes s1 !! node = Some n) by (by rewrite Hnodes).
  destruct r as [[data|] l1]; simpl in *; [|injection Hrun as <- _; by left].
  unfold process_frame in Hrun.
  apply bind_ok_inv in Hrun as (lap_id & s2 & Hlap & Hrun).
  injection Hlap as _ <-. rewrite (bind_node_get _ _ _ _ _ Hn1) in Hrun.
  replace (18 <=? api_level n) with false in Hrun by lia.
  apply bind_ok_inv in Hrun as (rssi_val & s3 & Hrssi & Hrun).
  apply unpack_rssi_state in Hrssi as ->.
  destruct ((MIN_RSSI_VALUE <=? rssi_val) && (rssi_val <=? MAX_RSSI_VALUE)).
  - destruct (accept_sample_lap_time _ _ _ _ _ _ _ _ _ _ _ Hn1 Hvalid Hapi Hrun) as [H|H];
      rewrite Hu in H; eauto.
  - repeat (apply bind_ok_inv in Hrun as (? & ? & _ & Hrun)).
    injection Hrun as <- _. by left.
Qed.

Lemma poll_nodes_lap_time env i positions : forall l s n l' s',
  nodes s !! i = Some n -> api_valid_flag n = true -> api_level n < 18 ->
  poll_nodes env positions l s = (Ok l', s') ->
  Forall (fun item => node_of item = i -> item.2 = inject_Z 0) (upd_list l) ->
  Forall (fun item => node_of item = i -> item.2 = inject_Z 0) (upd_list l').
Proof.
  induction positions as [|j positions IH]; intros l s n l' s' Hn Hvalid Hapi Hrun Hl.
  { by injection Hrun as <- _. }
  cbn [poll_nodes] in Hrun. apply bind_ok_inv in Hrun as (l1 & s1 & Hrun1 & Hrun).
  assert (Hframe : poll_frame s s1).
  { pose proof (poll_node_poll env j l s) as H. by rewrite Hrun1 in H. }
  destruct (poll_frame_lookup s s1 i n Hframe Hn) as (n1 & Hn1 & Hstable).
  apply (IH l1 s1 n1 l' s' Hn1); try done.
  { by rewrite (stable_api_valid_flag _ _ Hstable). }
  { by rewrite (stable_api_level _ _ Hstable). }
  destruct (decide (j = i)) as [->|Hj].
  - destruct (poll_node_lap_time env i l s n l1 s1 Hn Hvalid Hapi Hrun1)
      as [->|(lap_id & ->)]; [done|].
    apply Forall_app. split; [done|]. by repeat constructor.
  - destruct (poll_node_returns env (node_crossing_callback s) j l s l1 s1 eq_refl Hrun1)
      as [[->|(lap_id & t & ->)] _]; [done|].
    apply Forall_app. split; [done|]. repeat constructor. by intros Hi.
Qed.

(** Property X21.
    For a node that supports the newer API below level 18, every
    [pass_record_callback] of a poll cycle carries the source
    [LAP_SOURCE_REALTIME] and a lap time of 0, whatever the frames hold:
    the function decodes [lap_ms_since_start] for such a node and never
    assigns [lap_time_ms]. *)
Theorem lap_time_zero_below_18 env s i n :
  nodes s !! i = Some n -> api_valid_flag n = true -> api_level n < 18 ->
  exists evs,
    trace (update env s).2 = trace s ++ evs /\ Forall (realtime_zero i) evs.
Proof.
  intros Hn Hvalid Hapi.
  destruct (update_cycle env s)
    as [e s1 Hpoll -> Hframe|l s1 s2 items s3 Hpoll -> Hframe Hcross Hperm _ Hdone];
    simpl; destruct (frame_trace _ _ _ _ Hframe) as (polled & Htrace & Hquiet).
  - exists polled. split; [done|]. eapply Forall_impl; [exact Hquiet|].
    by intros [].
  - eexists. split.
    { rewrite (done_trace _ _ _ Hdone), (crossed_trace _ _ _ Hcross), Htrace.
      by rewrite <- !app_assoc. }
    assert (Hzero : Forall (fun item => node_of item = i -> item.2 = inject_Z 0) items).
    { rewrite Hperm. unfold poll_phase, bind, gets in Hpoll.
      by apply (poll_nodes_lap_time env i _ _ _ _ _ _ Hn Hvalid Hapi Hpoll). }
    rewrite !Forall_app. split; [|split].
    + eapply Forall_impl; [exact Hquiet|]. by intros [].
    + apply Forall_fmap. by apply Forall_true.
    + rewrite pass_events_filter. apply Forall_fmap.
      apply Forall_forall. intros item Hin%list_elem_of_In%filter_In.
      destruct Hin as [Hin%list_elem_of_In _]. simpl. intros Hi. split; [|done].
      rewrite Forall_forall in Hzero. by apply Hzero.
Qed.

(** ** What a cycle never changes *)

Lemma stable_same_configuration n n' : stable n n' -> same_configuration n n'.
Proof. intros []. by repeat split. Qed.

(** Property X22.
    A poll cycle neither adds nor removes a node, and it leaves the
    position, the address, the frequency, the API level and the API flag of
    every node as they were, however it ends. *)
Theorem update_keeps_configuration env s :
  Forall2 same_configuration (nodes s) (nodes (update env s).2).
Proof.
  destruct (update_cycle env s)
    as [e s1 _ -> Hframe|l s1 s2 items s3 _ -> Hframe Hcross _ _ Hdone]; simpl.
  - eapply Forall2_impl; [apply (frame_nodes _ _ _ _ Hframe)|].
    apply stable_same_configuration.
  - apply Forall2_same_length_lookup_2.
    + rewrite (done_length _ _ _ Hdone), (crossed_nodes _ _ _ Hcross).
      apply (Forall2_length _ _ _ (frame_nodes _ _ _ _ Hframe)).
    + intros i n n3 Hn Hn3.
      destruct (poll_frame_lookup s s1 i n Hframe Hn) as (n1 & Hn1 & Hstable).
      rewrite <- (crossed_nodes _ _ _ Hcross) in Hn1.
      destruct (laps_done_lookup s2 items s3 i n1 Hdone Hn1)
        as (n3' & Hn3' & [->|(item & _ & _ & ->)]);
        rewrite Hn3 in Hn3'; injection Hn3' as ->;
        by apply stable_same_configuration in Hstable.
Qed.

(** ** The capture of a level *)

Lemma send_exit_at_level_nodes env node level s :
  nodes ((transmit_exit_at_level env node level ;;;
          callable <- gets new_enter_or_exit_at_callback ;;
          if callable then emit (NewEnterOrExitAt node false) else ret tt) s).2
  = nodes s.
Proof.
  match goal with |- nodes (?m s).2 = _ =>
    assert (H : steps (frame eq any_event) m)
  end.
  { steps. apply transmit_exit_at_level_frame; by try apply _. }
  symmetry. apply list_eq_Forall2, (frame_nodes _ _ _ _ (H s)).
Qed.

(** Property X23.
    When a capture of the exit-at level ends during a poll, the samples
    accumulated being [samples], all between [lo] and [hi], the level is
    the floor of their mean and lies between [lo] and [hi]: no margin to
    the node peak is applied to it, unlike the enter-at level. *)
Theorem captured_exit_at_level env node s n samples lo hi :
  nodes s !! node = Some n ->
  cap_exit_at_flag n = true ->
  cap_exit_at_total n + current_rssi n = sum samples ->
  cap_exit_at_count n + 1 = Z.of_nat (length samples) ->
  samples <> [] ->
  Forall (fun x => lo <= x <= hi) samples ->
  cap_exit_at_millis n <= milliseconds env (ticks s) ->
  exists level n',
    nodes (capture_exit_at env node s).2 !! node = Some n' /\
    exit_at_level n' = Some level /\
    cap_exit_at_flag n' = false /\
    level = sum samples / Z.of_nat (length samples) /\
    Z.abs (sum samples - level * Z.of_nat (length samples)) < Z.of_nat (length samples) /\
    lo <= level <= hi /\
    enter_at_level n' = enter_at_level n.
Proof.
  intros Hn Hflag Htotal Hcount Hne Hall Hdeadline.
  destruct (mean_bounds samples lo hi Hne Hall) as [Hmean Habs].
  set (mean := sum samples / Z.of_nat (length samples)) in *.
  assert (Hlen : Z.of_nat (length samples) <> 0) by (destruct samples; [done|simpl; lia]).
  exists mean.
  assert (Hrun : exists n',
    nodes (capture_exit_at env node s).2 !! node = Some n' /\
    exit_at_level n' = Some mean /\ cap_exit_at_flag n' = false /\
    enter_at_level n' = enter_at_level n).
  { unfold capture_exit_at. get_node Hn. rewrite Hflag.
    rewrite !bind_node_set, bind_call_milliseconds. get_node Hn.
    apply Z.leb_le in Hdeadline. rewrite Hdeadline.
    get_node Hn. get_node Hn. rewrite Htotal, Hcount, bind_py_div by done.
    fold mean. rewrite !bind_node_set. get_node Hn.
    rewrite ?bind_assoc, ?bind_as_number, ?bind_ret, send_exit_at_level_nodes. simpl.
    rewrite !list_lookup_alter_eq, Hn. simpl. by eexists. }
  destruct Hrun as (n' & Hn' & Hlevel & Hflag' & Henter).
  exists n'. repeat split; try done; lia.
Qed.

(** Property X24.
    A node that is not capturing is left alone; one that is capturing
    and has not reached its deadline only accumulates: the current RSSI is
    added to the total, the count grows by one, the level stays as it was and
    nothing is sent to the node or to a subscriber. *)
Theorem capture_accumulates_before_deadline env node s n :
  nodes s !! node = Some n ->
  (if cap_enter_at_flag n then
     milliseconds env (ticks s) < cap_enter_at_millis n ->
     exists s',
       capture_enter_at env node s = (Ok tt, s') /\
       trace s' = trace s /\
       nodes s' =
         <[node := with_cap_enter_at_count (cap_enter_at_count n + 1)
                     (with_cap_enter_at_total (cap_enter_at_total n + current_rssi n) n)]>
           (nodes s)
   else capture_enter_at env node s = (Ok tt, s)) /\
  (if cap_exit_at_flag n then
     milliseconds env (ticks s) < cap_exit_at_millis n ->
     exists s',
       capture_exit_at env node s = (Ok tt, s') /\
       trace s' = trace s /\
       nodes s' =
         <[node := with_cap_exit_at_count (cap_exit_at_count n + 1)
                     (with_cap_exit_at_total (cap_exit_at_total n + current_rssi n) n)]>
           (nodes s)
   else capture_exit_at env node s = (Ok tt, s)).
Proof.
  intros Hn. split.
  - unfold capture_enter_at. rewrite (bind_node_get _ _ _ _ _ Hn).
    destruct (cap_enter_at_flag n); [|done]. intros Hearly.
    rewrite !bind_node_set, bind_call_milliseconds.
    erewrite bind_node_get
      by (cbn [nodes with_nodes with_ticks]; by rewrite !list_lookup_alter_eq, Hn).
    cbn [cap_enter_at_millis with_cap_enter_at_count with_cap_enter_at_total
         ticks with_nodes].
    replace (cap_enter_at_millis n <=? milliseconds env (ticks s)) with false by lia.
    eexists. split; [reflexivity|]. split; [done|]. cbn [nodes with_nodes with_ticks].
    apply list_eq. intros j. destruct (decide (j = node)) as [->|Hj].
    + rewrite !list_lookup_alter_eq, Hn, list_lookup_insert_eq;
        [done|by eapply lookup_lt_Some].
    + by rewrite !list_lookup_alter_ne, list_lookup_insert_ne.
  - unfold capture_exit_at. rewrite (bind_node_get _ _ _ _ _ Hn).
    destruct (cap_exit_at_flag n); [|done]. intros Hearly.
    rewrite !bind_node_set, bind_call_milliseconds.
    erewrite bind_node_get
      by (cbn [nodes with_nodes with_ticks]; by rewrite !list_lookup_alter_eq, Hn).
    cbn [cap_exit_at_millis with_cap_exit_at_count with_cap_exit_at_total
         ticks with_nodes].
    replace (cap_exit_at_millis n <=? milliseconds env (ticks s)) with false by lia.
    eexists. split; [reflexivity|]. split; [done|]. cbn [nodes with_nodes with_ticks].
    apply list_eq. intros j. destruct (decide (j = node)) as [->|Hj].
    + rewrite !list_lookup_alter_eq, Hn, list_lookup_insert_eq;
        [done|by eapply lookup_lt_Some].
    + by rewrite !list_lookup_alter_ne, list_lookup_insert_ne.
Qed.

(** ** The properties on the scenarios *)

Lemma pack_unpack_round_trip_witness :
  exists v, unpack_32 [1; 2; 3; 4] = Ok v /\ v = 16909060 /\ pack_32 v = [1; 2; 3; 4].
Proof.
  destruct (pack_unpack_round_trip 1 2 3 4) as [_ (v & Hv & Heq & _ & Hpack)]; try lia.
  exists v. split; [exact Hv|]. split; [exact Heq|exact Hpack].
Defined.

Lemma checksum_detects_one_changed_byte_witness :
  validate_checksum (Some [1; 7; 3; 6]) = Ok false.
Proof.
  apply (checksum_detects_one_changed_byte [1] [3] 2 7 6); try lia; reflexivity.
Defined.

Lemma read_block_io_errors_witness :
  exists evs s',
    read_block S7.env 8 READ_LAP_STATS 28 S7.level_17 = (Ok None, s') /\
    i2c_response s' = None /\
    nodes s' = nodes S7.level_17 /\
    trace s' = trace S7.level_17 ++ evs /\
    transfers evs = replicate 5 (BusRead 8 READ_LAP_STATS 29).
Proof.
  apply (read_block_io_errors S7.env 8 READ_LAP_STATS 28 S7.level_17).
  intros n. reflexivity.
Defined.

Lemma read_block_valid_frame_witness :
  exists n s',
    read_block S3.env 8 READ_LAP_STATS 19 S3.start
      = (Ok (Some (init (on_wire (frame_18 1 0 120)))), s') /\
    S (length (init (on_wire (frame_18 1 0 120)))) = 20%nat /\
    trace s' = [BusRead 8 READ_LAP_STATS 20] /\
    i2c_request s' = Some (clock_s n) /\
    i2c_response s' = Some (clock_s (S (S n))) /\
    i2c_timestamp s' = clock_ms (S (S (S n))).
Proof.
  apply (read_block_valid_frame S3.env 8 READ_LAP_STATS 19 S3.start
           (on_wire (frame_18 1 0 120))).
  - intros n. reflexivity.
  - reflexivity.
Defined.

Lemma read_block_never_raises_witness :
  exists r s',
    read_block S2.env 8 READ_FREQUENCY 2 S2.start = (Ok r, s') /\
    read_result S2.env 8 READ_FREQUENCY 2 r.
Proof.
  apply (read_block_never_raises S2.env 8 READ_FREQUENCY 2 S2.start).
  intros n. discriminate.
Defined.

Lemma get_value_reads_packed_value_witness :
  exists s',
    get_value_16 S6.env 0 READ_FREQUENCY S6.start = (Ok (Some 65535), s') /\
    trace s' = [BusRead 8 READ_FREQUENCY 3].
Proof.
  destruct (get_value_reads_packed_value S6.env 0 (fresh_node 0 8 17 0) READ_FREQUENCY
              65535 S6.start eq_refl) as (_ & H & _).
  apply H. intros k. reflexivity.
Defined.



Lemma set_value_attempts_witness :
  exists evs k ok s',
    set_value_8 S6.env 0 FORCE_END_CROSSING 0 S6.start = (Ok ok, s') /\
    trace s' = evs /\
    (1 <= k <= 25)%nat /\
    transfers evs =
      replicate k (BusWrite 8 FORCE_END_CROSSING
                     [0; FORCE_END_CROSSING; FORCE_END_CROSSING]).
Proof.
  destruct (set_value_attempts S6.env 0 FORCE_END_CROSSING 0 S6.start
              (fresh_node 0 8 17 0) eq_refl)
    as ((evs & k & ok & s' & Hrun & Htrace & _ & Hevs & Hk & _) & _).
  exists evs, k, ok, s'. split; [exact Hrun|]. split; [exact Htrace|].
  split; [exact Hk|exact Hevs].
Defined.

Lemma force_end_crossing_writes_witness :
  exists evs k s',
    force_end_crossing S6.env 0 S6.start = (Ok tt, s') /\
    trace s' = trace S6.start ++ evs /\
    nodes s' = nodes S6.start /\
    transfers evs =
      replicate k (BusWrite 8 FORCE_END_CROSSING
                     [0; FORCE_END_CROSSING; FORCE_END_CROSSING]) /\
    (1 <= k <= 25)%nat.
Proof.
  apply (force_end_crossing_writes S6.env 0 S6.start (fresh_node 0 8 17 0) eq_refl).
  simpl. lia.
Defined.

Lemma start_capture_not_restarted_witness :
  exists s1 n1,
    start_capture_enter_at_level S1.env 0 S1.start = (Ok true, s1) /\
    nodes s1 = [n1] /\
    cap_enter_at_millis n1 = 3000 /\
    start_capture_enter_at_level S1.env 0 s1 = (Ok false, s1).
Proof.
  pose proof (start_capture_not_restarted S1.env S1.env 0 S1.start
                (fresh_node 0 8 18 (-1)) eq_refl eq_refl eq_refl) as H.
  change (api_valid_flag (fresh_node 0 8 18 (-1))) with true in H.
  destruct H as [(s1 & n1 & Hrun & _ & Hnodes & _ & _ & _ & Hmillis & Hagain) _].
  exists s1, n1. split; [exact Hrun|]. split; [exact Hnodes|].
  split; [exact Hmillis|exact Hagain].
Defined.

Lemma update_skips_disabled_nodes_witness :
  update S7.env S8.start = (Ok tt, S8.start).
Proof.
  apply (update_skips_disabled_nodes S7.env S8.start).
  repeat constructor.
Defined.

Lemma update_on_silent_bus_witness :
  exists evs s',
    update S7.env S10.start = (Ok tt, s') /\
    nodes s' = nodes S10.start /\
    trace s' = trace S10.start ++ evs /\
    Forall (read_or_log READ_LAP_STATS) evs /\
    length (transfers evs) = 10%nat.
Proof.
  apply (update_on_silent_bus S7.env (fun _ _ _ _ => eq_refl) S10.start).
  eexists. reflexivity.
Defined.

Lemma update_unbound_nadir_offset_witness :
  exists s',
    update S12.env_13 S9.start = (Raise UnboundLocalError, s') /\
    trace s' = [BusRead 10 READ_LAP_STATS 21].
Proof.
  apply (update_unbound_nadir_offset S12.env_13 S9.start 1 (fresh_node 1 10 13 0)
           (frame_13 1 100) 100).
  - reflexivity.
  - intros j m Hj. destruct j as [|j]; [|lia]. intros [= <-]. reflexivity.
  - discriminate.
  - reflexivity.
  - simpl. lia.
  - intros k len. reflexivity.
  - simpl. lia.
  - reflexivity.
  - unfold MIN_RSSI_VALUE, MAX_RSSI_VALUE. lia.
Defined.


Lemma lap_time_zero_below_18_witness :
  exists evs,
    trace (update S5.env S5.start).2 = trace S5.start ++ evs /\
    Forall (realtime_zero 0) evs.
Proof.
  apply (lap_time_zero_below_18 S5.env S5.start 0 (fresh_node 0 8 10 0)).
  - reflexivity.
  - reflexivity.
  - simpl. lia.
Defined.

Lemma captured_exit_at_level_witness :
  exists level n',
    nodes (capture_exit_at S4.env 0 (fresh_interface [S11.exiting])).2 !! 0%nat
      = Some n' /\
    exit_at_level n' = Some level /\
    level = 105.
Proof.
  destruct (captured_exit_at_level S4.env 0 (fresh_interface [S11.exiting])
              S11.exiting [100; 110] 100 110)
    as (level & n' & Hn' & Hlevel & _ & Heq & _).
  - reflexivity.
  - reflexivity.
  - reflexivity.
  - reflexivity.
  - discriminate.
  - repeat constructor; lia.
  - vm_compute. discriminate.
  - exists level, n'. split; [exact Hn'|]. split; [exact Hlevel|exact Heq].
Defined.

Lemma capture_accumulates_before_deadline_witness :
  exists s',
    capture_enter_at S4.env 0 (fresh_interface [S11.entering]) = (Ok tt, s') /\
    trace s' = [] /\
    cap_enter_at_total <$> nodes s' = [100] /\
    cap_enter_at_count <$> nodes s' = [1] /\
    cap_enter_at_flag <$> nodes s' = [true].
Proof.
  destruct (capture_accumulates_before_deadline S4.env 0
              (fresh_interface [S11.entering]) S11.entering eq_refl) as [H _].
  change (cap_enter_at_flag S11.entering) with true in H.
  destruct H as (s' & Hrun & Htrace & Hnodes).
  - vm_compute. reflexivity.
  - exists s'. split; [exact Hrun|]. split; [exact Htrace|].
    rewrite Hnodes. repeat split.
Defined.
